(** * MinIO ingestion pipeline: a shallow embedding of [pipeline.py]

    The development follows the source file:
    - [PyStr]       the [str] methods the pipeline calls ([strip], [title]);
    - [Versioning]  [MinIOPipeline.enable_bucket_versioning];
    - [RowFilter]   [MinIOPipeline.filter_data];
    - [Stability]   [MinIOPipeline.wait_for_file_stable];
    - [Local]       [pathlib] paths, [datetime] and the local file system;
    - [Workflow]    the state of a pipeline, [save_temp_file],
                    [upload_to_minio], [archive_source_file], [process_file];
    - [LogFlush]    [upload_log_file], [check_and_upload_logs];
    - [InFlight]    the interleaving of several [process_file] tasks around
                    the semaphore and the [processing_files] set;
    - [Disk], [RowFilterLaws], [StabilityProgress], [WorkflowRuns]
                    further facts about the components above;
    - [LogEvents]   the log under [background_log_checker];
    - [Startup]     [check_minio_connection], [ensure_bucket_exists],
                    [create_folders], [run];
    - [Watch]       the filter of [monitor_folder], [handle_changes];
    - [Generator]   [generate_large_csv] and [generate_filenames] of
                    [data_generator.py].

    Conventions.  A Python call that may raise is a function into
    [result]; [exn] stands for instances of Python's [Exception] class
    (what the calls of the pipeline raise and what [except Exception]
    catches).  A method that works on the pipeline's state is a function
    in the monad [M], which also accounts for a coroutine that is
    suspended for good.  Time stamps are integers: seconds since the epoch
    for [datetime] values, milliseconds for the sleeps of the stability
    wait. *)

From Stdlib Require Import ZArith List String Ascii Bool Lia.
From Stdlib Require Decimal DecimalString DecimalPos.
From stdpp Require Import gmap strings list fin_maps.

Local Open Scope Z_scope.

(* ===================================================================== *)
(** ** Exceptions, results and log records shared by all components *)
(* ===================================================================== *)

(** Instances of [Exception] that the pipeline's calls raise.  The
  constructors are the classes the source tells apart ([except
  FileNotFoundError], [except ClientError]); everything else is
  [OtherError]. *)
Inductive exn : Type :=
| FileNotFoundError
| FileExistsError
| NotADirectoryError
| IsADirectoryError
| ValueError
| ClientError (code : string)
| OtherError (msg : string).

Inductive result (A : Type) : Type :=
| Ok (a : A)
| Raise (e : exn).
Arguments Ok {A} a.
Arguments Raise {A} e.

Inductive Level : Type := DEBUG | INFO | ERROR.

(** One constructor per [self.logger.*] call site of [pipeline.py]; the
  arguments are the values interpolated into the f-string. *)
Inductive Message : Type :=
| MsgVersioningNotConfigured                 (* enable_bucket_versioning, l.149 *)
| MsgVersioningSet (status : string)         (* l.158 *)
| MsgVersioningError (code : string)         (* l.163 *)
| MsgLogUploaded (key : string)              (* upload_log_file, l.91 *)
| MsgLogUploadError (e : exn)                (* l.100 *)
| MsgFlushing                                (* check_and_upload_logs, l.114 *)
| MsgStart (name : string)                   (* process_file, l.291 *)
| MsgProcessed (key : string)                (* l.307 *)
| MsgError (e : exn)                         (* l.316 *)
| MsgUploadError (e : exn)                   (* upload_to_minio, l.385 *)
| MsgArchiveError (e : exn).                 (* archive_source_file, l.402 *)

Definition LogRecord : Type := Level * Message.

(* ===================================================================== *)
(** ** [str.strip] and [str.title] *)
(* ===================================================================== *)

Module PyStr.

(** The embedding covers strings of ASCII characters (code below 128),
    on which [str.isspace], [str.lower] and the title-case mapping are
    the ones below; a character of code 128 or more is kept as it is. *)

Definition code (c : ascii) : N := N_of_ascii c.

(** The strings the embedding covers. *)
Fixpoint is_ascii (s : string) : bool :=
  match s with
  | EmptyString => true
  | String c r => (code c <? 128)%N && is_ascii r
  end.

(** [str.isspace] on ASCII: TAB, LF, VT, FF, CR, the four separators
    FS, GS, RS, US, and the space. *)
Definition isspace (c : ascii) : bool :=
  ((9 <=? code c) && (code c <=? 13) || (28 <=? code c) && (code c <=? 32))%N.

Definition isupper (c : ascii) : bool := ((65 <=? code c) && (code c <=? 90))%N.
Definition islower (c : ascii) : bool := ((97 <=? code c) && (code c <=? 122))%N.
Definition iscased (c : ascii) : bool := isupper c || islower c.

Definition lower (c : ascii) : ascii :=
  if isupper c then ascii_of_N (code c + 32) else c.
Definition upper (c : ascii) : ascii :=
  if islower c then ascii_of_N (code c - 32) else c.

Fixpoint lstrip (s : string) : string :=
  match s with
  | EmptyString => EmptyString
  | String c r => if isspace c then lstrip r else s
  end.

Fixpoint rstrip (s : string) : string :=
  match s with
  | EmptyString => EmptyString
  | String c r =>
      match rstrip r with
      | EmptyString => if isspace c then EmptyString else String c EmptyString
      | r' => String c r'
      end
  end.

Definition strip (s : string) : string := rstrip (lstrip s).

(** [str.title]: a character that follows a cased character is
    lower-cased, any other character is title-cased. *)
Fixpoint title_from (previous_is_cased : bool) (s : string) : string :=
  match s with
  | EmptyString => EmptyString
  | String c r =>
      String (if previous_is_cased then lower c else upper c)
             (title_from (iscased c) r)
  end.

Definition title (s : string) : string := title_from false s.

End PyStr.

(* ===================================================================== *)
(** ** Bucket versioning ([enable_bucket_versioning]) *)
(* ===================================================================== *)

Module Versioning.

(** The two keys of [self.config] the method reads.  [None] is an
    absent key: [config.get('bucket_versioning', '')]. *)
Record Config : Type := {
  bucket_name : string;
  bucket_versioning : option string
}.

(** A [put_bucket_versioning] request as it leaves the client. *)
Record VersioningCall : Type := {
  call_bucket : string;
  call_status : string
}.

(** What the method leaves behind: its return value (or the exception
    that escapes it), the requests sent and the records logged. *)
Record Run : Type := {
  returned : result bool;
  calls : list VersioningCall;
  logged : list LogRecord
}.

Definition normalize (cfg : Config) : string :=
  PyStr.title (PyStr.strip (default EmptyString (bucket_versioning cfg))).

Definition allowed (status : string) : bool :=
  bool_decide (status ∈ ["Enabled"; "Suspended"]%string).

(** [reply] is the answer of the object store to the request. *)
Definition enable_bucket_versioning
    (cfg : Config) (reply : VersioningCall -> result unit) : Run :=
  let versioning_status := normalize cfg in
  if negb (allowed versioning_status) then
    {| returned := Ok false; calls := [];
       logged := [(INFO, MsgVersioningNotConfigured)] |}
  else
    let call := {| call_bucket := bucket_name cfg;
                   call_status := versioning_status |} in
    match reply call with
    | Ok _ =>
        {| returned := Ok true; calls := [call];
           logged := [(INFO, MsgVersioningSet versioning_status)] |}
    | Raise (ClientError error_code) =>
        {| returned := Ok false; calls := [call];
           logged := [(ERROR, MsgVersioningError error_code)] |}
    | Raise e =>
        {| returned := Raise e; calls := [call]; logged := [] |}
    end.

Example normalize_enabled :
  normalize {| bucket_name := "b"; bucket_versioning := Some "enabled"%string |}
  = "Enabled"%string.
Proof. reflexivity. Qed.

Example normalize_suspended :
  normalize {| bucket_name := "b"; bucket_versioning := Some " SUSPENDED "%string |}
  = "Suspended"%string.
Proof. reflexivity. Qed.

Example normalize_disabled :
  normalize {| bucket_name := "b"; bucket_versioning := Some "Disabled"%string |}
  = "Disabled"%string.
Proof. reflexivity. Qed.

Example normalize_absent :
  normalize {| bucket_name := "b"; bucket_versioning := None |} = EmptyString.
Proof. reflexivity. Qed.

Lemma allowed_spec (status : string) :
  allowed status = true <-> status = "Enabled"%string \/ status = "Suspended"%string.
Proof.
  unfold allowed. rewrite bool_decide_eq_true.
  rewrite !elem_of_cons, elem_of_nil. tauto.
Qed.

(** C10.  The configured value is stripped and title-cased before the
    membership test.  For a configured value of ASCII characters: when
    the normalized value is "Enabled" or "Suspended", exactly one
    [put_bucket_versioning] request is sent, for the configured bucket
    and with the normalized value as its status; for every other value
    no request is sent and the method returns [False].  The spellings
    "enabled" and " SUSPENDED " are of the first kind; "Disabled", the
    empty string and an absent key of the second. *)
Theorem enable_bucket_versioning_normalized :
  (forall (cfg : Config) (reply : VersioningCall -> result unit),
     PyStr.is_ascii (default EmptyString (bucket_versioning cfg)) = true ->
     let status :=
       PyStr.title (PyStr.strip (default EmptyString (bucket_versioning cfg))) in
     let run := enable_bucket_versioning cfg reply in
     (status = "Enabled"%string \/ status = "Suspended"%string ->
        calls run = [ {| call_bucket := bucket_name cfg; call_status := status |} ])
     /\ (~ (status = "Enabled"%string \/ status = "Suspended"%string) ->
        calls run = [] /\ returned run = Ok false))
  /\ (forall b reply,
        calls (enable_bucket_versioning
                 {| bucket_name := b; bucket_versioning := Some "enabled"%string |} reply)
        = [ {| call_bucket := b; call_status := "Enabled" |} ]
        /\ calls (enable_bucket_versioning
                 {| bucket_name := b; bucket_versioning := Some " SUSPENDED "%string |} reply)
        = [ {| call_bucket := b; call_status := "Suspended" |} ])
  /\ (forall b reply v,
        v ∈ [Some "Disabled"%string; Some EmptyString; None] ->
        let run := enable_bucket_versioning
                     {| bucket_name := b; bucket_versioning := v |} reply in
        calls run = [] /\ returned run = Ok false).
Proof.
  split; [| split].
  - intros cfg reply _ status run. split.
    + intros Hs. apply allowed_spec in Hs.
      subst run. unfold enable_bucket_versioning. fold status in Hs |- *.
      change (normalize cfg) with status. rewrite Hs. simpl.
      destruct (reply _) as [u | e]; [reflexivity |].
      destruct e; reflexivity.
    + intros Hs.
      assert (Hf : allowed status = false).
      { destruct (allowed status) eqn:E; [| reflexivity].
        apply allowed_spec in E. contradiction. }
      subst run. unfold enable_bucket_versioning.
      change (normalize cfg) with status. rewrite Hf. simpl. split; reflexivity.
  - intros b reply. unfold enable_bucket_versioning. simpl. split.
    + destruct (reply _) as [u | e]; [reflexivity | destruct e; reflexivity].
    + destruct (reply _) as [u | e]; [reflexivity | destruct e; reflexivity].
  - intros b reply v Hv run.
    rewrite !elem_of_cons, elem_of_nil in Hv.
    destruct Hv as [-> | [-> | [-> | []]]]; split; reflexivity.
Qed.

(** C10 at the value " enabled " of the key and a store that accepts the
    call. *)
Lemma enable_bucket_versioning_normalized_witness :
  let cfg := {| bucket_name := "bucketmaks";
                bucket_versioning := Some " enabled "%string |} in
  PyStr.is_ascii (default EmptyString (bucket_versioning cfg)) = true
  /\ calls (enable_bucket_versioning cfg (fun _ => Ok tt))
     = [ {| call_bucket := "bucketmaks"; call_status := "Enabled" |} ].
Proof.
  split; [reflexivity |].
  exact (proj1 (proj1 enable_bucket_versioning_normalized
                  {| bucket_name := "bucketmaks";
                     bucket_versioning := Some " enabled "%string |}
                  (fun _ => Ok tt) eq_refl)
               (or_introl eq_refl)).
Defined.

End Versioning.

(* ===================================================================== *)
(** ** Row filter ([filter_data]) *)
(* ===================================================================== *)

Module RowFilter.

(** A cell of a loaded frame: a number, a missing value (pandas' NaN) or
    text.  Numbers are integers here; the comparison of text with a
    number is pandas' [TypeError], which the embedding reports as
    [OtherError]. *)
Inductive Cell : Type :=
| Num (v : Z)
| NaN
| Str (s : string).

(** A [DataFrame]: the column labels and the rows, each row holding one
    cell per column, in the order of [columns].  The embedding covers
    the frames whose labels are distinct, as those of a frame read by
    [pd.read_csv] are (a repeated label of the header is renamed:
    "age", "age.1"); the statements about [filter_data] assume it. *)
Record DataFrame : Type := {
  columns : list string;
  rows : list (list Cell)
}.

(** [config.py], key ['filter_conditions']['age_range']: the bounds read
    from AGE_MIN and AGE_MAX (defaults 18 and 40). *)
Record Config : Type := {
  age_min : Z;
  age_max : Z
}.

Definition default_config : Config := {| age_min := 18; age_max := 40 |}.

(** [df.empty]: an axis of length zero. *)
Definition empty (df : DataFrame) : bool :=
  match columns df, rows df with
  | [], _ | _, [] => true
  | _, _ => false
  end.

Fixpoint index_of (name : string) (cols : list string) : option nat :=
  match cols with
  | [] => None
  | c :: cs => if String.eqb c name then Some 0%nat else S <$> index_of name cs
  end.

(** The cell of row [r] in the column at position [i]. *)
Definition cell_at (i : nat) (r : list Cell) : Cell := default NaN (r !! i).

(** [series >= k] and [series <= k] on one element: NaN compares false. *)
Definition compare_scalar (test : Z -> bool) (c : Cell) : result bool :=
  match c with
  | Num v => Ok (test v)
  | NaN => Ok false
  | Str _ => Raise (OtherError "TypeError")
  end.

(** The comparison of a whole series with a scalar: a boolean mask, or
    the exception of the first element that cannot be compared. *)
Fixpoint compare_series (test : Z -> bool) (series : list Cell) : result (list bool) :=
  match series with
  | [] => Ok []
  | c :: cs =>
      match compare_scalar test c with
      | Raise e => Raise e
      | Ok b =>
          match compare_series test cs with
          | Raise e => Raise e
          | Ok bs => Ok (b :: bs)
          end
      end
  end.

(** [mask1 & mask2], element-wise. *)
Fixpoint mask_and (m1 m2 : list bool) : list bool :=
  match m1, m2 with
  | b1 :: r1, b2 :: r2 => (b1 && b2) :: mask_and r1 r2
  | _, _ => []
  end.

(** [df[mask]]: the rows whose mask entry is true, in order. *)
Fixpoint select (rs : list (list Cell)) (mask : list bool) : list (list Cell) :=
  match rs, mask with
  | r :: rs', b :: mask' => if b then r :: select rs' mask' else select rs' mask'
  | _, _ => []
  end.

(** [filter_data(self, df)], on a frame with distinct labels.  [cfg] is
    [self.config]; the body compares with the literals 18 and 40 and
    does not read it. *)
Definition filter_data (cfg : Config) (df : DataFrame) : result DataFrame :=
  match index_of "age" (columns df) with
  | None => Ok df
  | Some i =>
      let age := map (cell_at i) (rows df) in
      match compare_series (fun v => 18 <=? v) age with
      | Raise e => Raise e
      | Ok ge_18 =>
          match compare_series (fun v => v <=? 40) age with
          | Raise e => Raise e
          | Ok le_40 =>
              Ok {| columns := columns df;
                    rows := select (rows df) (mask_and ge_18 le_40) |}
          end
      end
  end.

(** The age of a row, when the frame has the column and the cell is a
    number. *)
Definition age_of (df : DataFrame) (r : list Cell) : option Z :=
  match index_of "age" (columns df) with
  | Some i => match cell_at i r with Num v => Some v | _ => None end
  | None => None
  end.

(** No text in the age column: the comparisons do not raise. *)
Definition age_comparable (df : DataFrame) : Prop :=
  forall i r s, index_of "age" (columns df) = Some i ->
    r ∈ rows df -> cell_at i r <> Str s.

Definition batch : DataFrame :=
  {| columns := ["name"; "age"]%string;
     rows := [ [Str "a"; Num 15]; [Str "b"; Num 18];
               [Str "c"; Num 40]; [Str "d"; Num 41] ] |}.

Example filter_batch :
  filter_data default_config batch
  = Ok {| columns := ["name"; "age"]%string;
          rows := [ [Str "b"; Num 18]; [Str "c"; Num 40] ] |}.
Proof. reflexivity. Qed.

Lemma batch_labels_distinct : NoDup (columns batch).
Proof.
  apply NoDup_cons. split.
  - intros H. apply elem_of_cons in H as [H | H]; [discriminate | inversion H].
  - apply NoDup_cons. split; [intros H; inversion H | apply NoDup_nil_2].
Qed.

(** The element-wise reading of a comparison that did not raise. *)
Definition holds (test : Z -> bool) (c : Cell) : bool :=
  match c with Num v => test v | _ => false end.

(** Whether [filter_data] keeps row [r] of a frame whose age column is at
    position [i]. *)
Definition keeps (i : nat) (r : list Cell) : bool :=
  holds (fun v => 18 <=? v) (cell_at i r) && holds (fun v => v <=? 40) (cell_at i r).

Lemma index_of_None (name : string) (cols : list string) :
  index_of name cols = None <-> name ∉ cols.
Proof.
  induction cols as [| c cs IH]; simpl.
  - split; [intros _; apply not_elem_of_nil | reflexivity].
  - rewrite not_elem_of_cons. destruct (String.eqb_spec c name) as [-> | Hne].
    + split; [discriminate | intros [Hn _]; congruence].
    + destruct (index_of name cs); simpl.
      * split; [discriminate |]. intros [_ Hn]. apply IH in Hn. discriminate.
      * split; [| reflexivity]. intros _. split; [congruence | apply IH; reflexivity].
Qed.

Lemma compare_series_Ok (test : Z -> bool) (series : list Cell) (mask : list bool) :
  compare_series test series = Ok mask -> mask = map (holds test) series.
Proof.
  revert mask. induction series as [| c cs IH]; simpl; intros mask H.
  - congruence.
  - destruct c as [v | | s]; simpl in H; try discriminate;
      destruct (compare_series test cs) as [bs | e]; try discriminate;
      injection H as <-; simpl; f_equal; apply IH; reflexivity.
Qed.

Lemma compare_series_total (test : Z -> bool) (series : list Cell) :
  (forall c s, c ∈ series -> c <> Str s) ->
  compare_series test series = Ok (map (holds test) series).
Proof.
  induction series as [| c cs IH]; simpl; intros H; [reflexivity |].
  rewrite IH by (intros c' s Hc'; apply H; right; exact Hc').
  destruct c as [v | | s]; simpl; try reflexivity.
  exfalso. apply (H (Str s) s); [left | reflexivity].
Qed.

Lemma select_mask (i : nat) (rs : list (list Cell)) :
  select rs (mask_and (map (holds (fun v => 18 <=? v)) (map (cell_at i) rs))
                      (map (holds (fun v => v <=? 40)) (map (cell_at i) rs)))
  = List.filter (keeps i) rs.
Proof.
  induction rs as [| r rs IH]; simpl; [reflexivity |].
  rewrite IH. reflexivity.
Qed.

Lemma keeps_spec (df : DataFrame) (i : nat) (r : list Cell) :
  index_of "age" (columns df) = Some i ->
  keeps i r = true <-> exists v, age_of df r = Some v /\ 18 <= v <= 40.
Proof.
  intros Hi. unfold keeps, age_of. rewrite Hi.
  destruct (cell_at i r) as [v | | s]; simpl.
  - rewrite andb_true_iff, !Z.leb_le. split.
    + intros H. exists v. split; [reflexivity | lia].
    + intros (v' & [= <-] & H). lia.
  - split; [discriminate | intros (v & [=] & _)].
  - split; [discriminate | intros (v & [=] & _)].
Qed.

(** What [filter_data] returns when it returns. *)
Lemma filter_data_Ok (cfg : Config) (df out : DataFrame) (i : nat) :
  index_of "age" (columns df) = Some i ->
  filter_data cfg df = Ok out ->
  columns out = columns df /\ rows out = List.filter (keeps i) (rows df).
Proof.
  intros Hi. unfold filter_data. rewrite Hi.
  destruct (compare_series _ _) as [m1 | e] eqn:E1; [| discriminate].
  destruct (compare_series (fun v => v <=? 40) _) as [m2 | e] eqn:E2; [| discriminate].
  intros [= <-]. simpl. split; [reflexivity |].
  apply compare_series_Ok in E1, E2. subst m1 m2. apply select_mask.
Qed.

(** The statement of C3 with the configured bounds, as a property of a
    configuration [cfg] and a frame [df]. *)
Definition filters_by_configured_bounds (cfg : Config) (df : DataFrame) : Prop :=
  forall out, filter_data cfg df = Ok out ->
  forall r, r ∈ rows out <->
            r ∈ rows df /\ exists v, age_of df r = Some v /\ age_min cfg <= v <= age_max cfg.

(** C3, evaluated where the code departs from it.  With the bounds
    configured as 20 and 30 (AGE_MIN=20, AGE_MAX=30) the rows of ages 18
    and 40 of [batch] survive [filter_data], as with the default
    configuration: the method compares with the literals 18 and 40 and
    never reads ['filter_conditions'], the key that [config.py] builds
    from AGE_MIN and AGE_MAX.  So the rows kept are not those within the
    configured bounds. *)
Theorem filter_data_ignores_configured_bounds :
  let cfg := {| age_min := 20; age_max := 30 |} in
  NoDup (columns batch)
  /\ filter_data cfg batch
     = Ok {| columns := columns batch;
             rows := [ [Str "b"; Num 18]; [Str "c"; Num 40] ] |}
  /\ filter_data cfg batch = filter_data default_config batch
  /\ ~ filters_by_configured_bounds cfg batch.
Proof.
  split; [| split; [reflexivity | split; [reflexivity |]]].
  - exact batch_labels_distinct.
  - intros H.
    specialize (H _ eq_refl [Str "b"; Num 18]).
    simpl in H. destruct H as [H _].
    destruct (H ltac:(left)) as (_ & v & Hv & Hb).
    vm_compute in Hv. injection Hv as <-. lia.
Qed.

(** What [filter_data] does, on a frame with distinct labels.  A frame
    without an "age" column is returned as it is.  A frame with the
    column is returned with the same columns and with exactly the rows
    whose age is a number [v] with [18 <= v <= 40], in their order: this
    is what the method returns whenever it returns, and it returns
    whenever the age column holds no text.  The bounds are the literals
    18 and 40 (the defaults of the configuration), inclusive: of the
    ages 15, 18, 40, 41 the rows of ages 18 and 40 are kept. *)
Lemma filter_data_fixed_bounds (cfg : Config) (df : DataFrame) :
  NoDup (columns df) ->
  ("age"%string ∉ columns df -> filter_data cfg df = Ok df)
  /\ ("age"%string ∈ columns df ->
      (forall out, filter_data cfg df = Ok out ->
         columns out = columns df
         /\ rows out =
              List.filter (fun r => match age_of df r with
                                    | Some v => (18 <=? v) && (v <=? 40)
                                    | None => false
                                    end) (rows df)
         /\ forall r, r ∈ rows out <->
                      r ∈ rows df /\ exists v, age_of df r = Some v /\ 18 <= v <= 40)
      /\ (age_comparable df -> exists out, filter_data cfg df = Ok out))
  /\ filter_data cfg batch
     = Ok {| columns := columns batch;
             rows := [ [Str "b"; Num 18]; [Str "c"; Num 40] ] |}.
Proof.
  intros _. split; [| split].
  - intros Hn. apply index_of_None in Hn. unfold filter_data. rewrite Hn. reflexivity.
  - intros Hin.
    destruct (index_of "age" (columns df)) as [i |] eqn:Hi;
      [| apply index_of_None in Hi; contradiction].
    split.
    + intros out Hout.
      destruct (filter_data_Ok cfg df out i Hi Hout) as [Hc Hr].
      assert (Hext : forall r, keeps i r =
                match age_of df r with
                | Some v => (18 <=? v) && (v <=? 40)
                | None => false
                end).
      { intros r. unfold keeps, age_of. rewrite Hi.
        destruct (cell_at i r); reflexivity. }
      split; [exact Hc |]. split.
      * rewrite Hr. apply filter_ext. exact Hext.
      * intros r. rewrite Hr, list_elem_of_In, filter_In, <- list_elem_of_In.
        rewrite (keeps_spec df i r Hi). reflexivity.
    + intros Hcmp. unfold filter_data. rewrite Hi.
      assert (Hs : forall c s, c ∈ map (cell_at i) (rows df) -> c <> Str s).
      { intros c s Hc. apply list_elem_of_fmap in Hc as (r & -> & Hr).
        exact (Hcmp i r s Hi Hr). }
      rewrite !compare_series_total by exact Hs. eexists. reflexivity.
  - reflexivity.
Qed.

End RowFilter.

(* ===================================================================== *)
(** ** Stability detector ([wait_for_file_stable]) *)
(* ===================================================================== *)

Module Stability.

(** What the method sees of the outside world.  Times are milliseconds
    elapsed since [start_time].  [stat t] is [file_path.stat().st_size]
    read at time [t] ([Raise FileNotFoundError] when the path is gone);
    [wake t d] is the time at which [asyncio.sleep(d)], started at [t],
    returns. *)
Record Env : Type := {
  stat : Z -> result Z;
  wake : Z -> Z -> Z
}.

(** [asyncio.sleep] does not return early. *)
Definition punctual (env : Env) : Prop :=
  forall t d, t + d <= wake env t d.

Definition poll_interval : Z := 500.     (* asyncio.sleep(0.5) *)
Definition confirm_delay : Z := 2000.    (* asyncio.sleep(2) *)

(** The reads of the size, in the order they are made: [Poll] is the
    read of [current_size] at the head of an iteration, [Recheck] the
    read of [final_size] after the confirmation delay. *)
Inductive Read : Type :=
| Poll (t : Z) (size : result Z)
| Recheck (t : Z) (size : result Z).

Definition read_size (r : Read) : result Z :=
  match r with Poll _ s | Recheck _ s => s end.

(** [except FileNotFoundError: return False]; any other exception leaves
    the method. *)
Definition on_exception (e : exn) : result bool :=
  match e with
  | FileNotFoundError => Ok false
  | _ => Raise e
  end.

Definition after (reads : list Read) (rest : option (result bool * list Read))
  : option (result bool * list Read) :=
  match rest with
  | Some (r, trace) => Some (r, reads ++ trace)
  | None => None
  end.

(** The [while] loop, one iteration per unit of [fuel]; [None] when the
    fuel runs out before the loop is left. *)
Fixpoint wait_loop (fuel : nat) (env : Env) (timeout_ms elapsed last_size : Z)
  : option (result bool * list Read) :=
  match fuel with
  | O => None
  | S fuel' =>
      if elapsed <? timeout_ms then
        match stat env elapsed with
        | Raise e => Some (on_exception e, [Poll elapsed (Raise e)])
        | Ok current_size =>
            if (0 <? current_size) && (current_size =? last_size) then
              let t := wake env elapsed confirm_delay in
              match stat env t with
              | Raise e =>
                  Some (on_exception e,
                        [Poll elapsed (Ok current_size); Recheck t (Raise e)])
              | Ok final_size =>
                  if final_size =? current_size then
                    Some (Ok true,
                          [Poll elapsed (Ok current_size); Recheck t (Ok final_size)])
                  else
                    after [Poll elapsed (Ok current_size); Recheck t (Ok final_size)]
                      (wait_loop fuel' env timeout_ms (wake env t poll_interval)
                                 current_size)
              end
            else
              after [Poll elapsed (Ok current_size)]
                (wait_loop fuel' env timeout_ms (wake env elapsed poll_interval)
                           current_size)
        end
      else Some (Ok false, [])
  end.

(** Iterations that suffice when sleeps are punctual: every iteration
    that does not return sleeps at least [poll_interval]. *)
Definition enough_fuel (timeout_ms : Z) : nat :=
  S (Z.to_nat (timeout_ms / poll_interval + 1)).

(** [wait_for_file_stable(file_path, timeout)], [timeout] in seconds
    (default 30); [last_size] starts at -1. *)
Definition wait_for_file_stable (env : Env) (timeout : Z)
  : option (result bool * list Read) :=
  wait_loop (enough_fuel (timeout * 1000)) env (timeout * 1000) 0 (-1).

(** The [Poll] reads of a trace. *)
Fixpoint polls (trace : list Read) : list (Z * result Z) :=
  match trace with
  | [] => []
  | Poll t s :: rest => (t, s) :: polls rest
  | Recheck _ _ :: rest => polls rest
  end.

(** The [Recheck] reads of a trace. *)
Fixpoint rechecks (trace : list Read) : list (Z * result Z) :=
  match trace with
  | [] => []
  | Recheck t s :: rest => (t, s) :: rechecks rest
  | Poll _ _ :: rest => rechecks rest
  end.

(** A clock on which every sleep takes exactly its duration. *)
Definition exact_clock (stat : Z -> result Z) : Env :=
  {| stat := stat; wake := fun t d => t + d |}.

(** A file that is complete (size 120) from the start. *)
Example stable_from_start :
  wait_for_file_stable (exact_clock (fun _ => Ok 120)) 30
  = Some (Ok true, [Poll 0 (Ok 120); Poll 500 (Ok 120); Recheck 2500 (Ok 120)]).
Proof. reflexivity. Qed.

(** A file that grows by one byte per millisecond is never stable. *)
Example growing_file :
  fst <$> wait_for_file_stable (exact_clock (fun t => Ok (t + 1))) 30 = Some (Ok false).
Proof. vm_compute. reflexivity. Qed.

(** A file that stays empty is never stable. *)
Example empty_file :
  fst <$> wait_for_file_stable (exact_clock (fun t => Ok 0)) 30 = Some (Ok false).
Proof. vm_compute. reflexivity. Qed.

(** A file that disappears after one second. *)
Example vanishing_file :
  wait_for_file_stable
    (exact_clock (fun t => if t <? 1000 then Ok (t + 1) else Raise FileNotFoundError)) 30
  = Some (Ok false, [Poll 0 (Ok 1); Poll 500 (Ok 501); Poll 1000 (Raise FileNotFoundError)]).
Proof. reflexivity. Qed.

(** A read that raised is the last read of the run, and the run's result
    is what the [except] clause makes of the exception. *)
Definition raise_is_final (r : result bool) (trace : list Read) : Prop :=
  forall i rd e, trace !! i = Some rd -> read_size rd = Raise e ->
    S i = length trace /\ r = on_exception e.

(** The run returned [True] on a confirmed size: the last two polls, at
    [t1 < t2], read the same size [s > 0], and the recheck made when the
    confirmation delay started at [t2] was over read [s] again and is the
    last read of the run. *)
Definition confirmed (env : Env) (timeout_ms : Z) (all_polls : list (Z * result Z))
    (trace : list Read) : Prop :=
  exists pre t1 t2 s,
    all_polls = pre ++ [(t1, Ok s); (t2, Ok s)]
    /\ 0 < s /\ t1 < t2 < timeout_ms
    /\ stat env t1 = Ok s /\ stat env t2 = Ok s
    /\ stat env (wake env t2 confirm_delay) = Ok s
    /\ last trace = Some (Recheck (wake env t2 confirm_delay) (Ok s)).

Lemma after_Some reads rest r trace :
  after reads rest = Some (r, trace) ->
  exists trace', rest = Some (r, trace') /\ trace = reads ++ trace'.
Proof.
  destruct rest as [[r' tr'] |]; simpl; [| discriminate].
  intros [= <- <-]. eauto.
Qed.

Lemma raise_is_final_cons (r : result bool) (rd0 : Read) (s : Z) (trace : list Read) :
  read_size rd0 = Ok s -> raise_is_final r trace -> raise_is_final r (rd0 :: trace).
Proof.
  intros H0 H [| i] rd e Hl He; simpl in Hl.
  - injection Hl as <-. congruence.
  - destruct (H i rd e Hl He) as [Hlen Hr]. simpl. split; [lia | exact Hr].
Qed.

Lemma raise_is_final_last (r : result bool) (rd : Read) :
  (forall e, read_size rd = Raise e -> r = on_exception e) ->
  raise_is_final r [rd].
Proof.
  intros H [| i] rd' e Hl He; simpl in Hl; [| discriminate].
  injection Hl as <-. split; [reflexivity | apply H, He].
Qed.

Lemma wait_loop_raise_is_final fuel env timeout_ms elapsed last_size r trace :
  wait_loop fuel env timeout_ms elapsed last_size = Some (r, trace) ->
  raise_is_final r trace.
Proof.
  revert elapsed last_size r trace.
  induction fuel as [| fuel IH]; intros elapsed last_size r trace; simpl; [discriminate |].
  destruct (elapsed <? timeout_ms).
  2:{ intros [= <- <-] i rd e Hl. discriminate. }
  destruct (stat env elapsed) as [cur | e0] eqn:Hst.
  2:{ intros [= <- <-]. apply raise_is_final_last. simpl. congruence. }
  destruct ((0 <? cur) && (cur =? last_size)).
  - destruct (stat env (wake env elapsed confirm_delay)) as [fin | e1] eqn:Hfin.
    + destruct (fin =? cur).
      * intros [= <- <-]. eapply raise_is_final_cons; [reflexivity |].
        apply raise_is_final_last. simpl. discriminate.
      * intros H. apply after_Some in H as (trace' & H & ->). simpl.
        eapply raise_is_final_cons; [reflexivity |].
        eapply raise_is_final_cons; [reflexivity |]. eapply IH, H.
    + intros [= <- <-]. eapply raise_is_final_cons; [reflexivity |].
      apply raise_is_final_last. simpl. congruence.
  - intros H. apply after_Some in H as (trace' & H & ->). simpl.
    eapply raise_is_final_cons; [reflexivity |]. eapply IH, H.
Qed.

Lemma wait_loop_true_nonempty fuel env timeout_ms elapsed last_size trace :
  wait_loop fuel env timeout_ms elapsed last_size = Some (Ok true, trace) ->
  trace <> [].
Proof.
  destruct fuel as [| fuel]; simpl; [discriminate |].
  destruct (elapsed <? timeout_ms); [| discriminate].
  destruct (stat env elapsed) as [cur | e0]; [| intros [= _ <-]; discriminate].
  destruct ((0 <? cur) && (cur =? last_size)).
  - destruct (stat env _) as [fin | e1]; [| intros [= _ <-]; discriminate].
    destruct (fin =? cur); [intros [= <-]; discriminate |].
    intros H. apply after_Some in H as (trace' & _ & ->). discriminate.
  - intros H. apply after_Some in H as (trace' & _ & ->). discriminate.
Qed.

(** The loop returns [True] only on a confirmed size.  [t_prev] is the
    time of the poll that read [last_size] (any earlier time when the
    loop starts with [last_size = -1]). *)
Lemma wait_loop_true fuel env timeout_ms elapsed last_size t_prev trace :
  punctual env ->
  t_prev < elapsed ->
  (0 < last_size -> stat env t_prev = Ok last_size) ->
  wait_loop fuel env timeout_ms elapsed last_size = Some (Ok true, trace) ->
  confirmed env timeout_ms ((t_prev, Ok last_size) :: polls trace) trace.
Proof.
  intros Hp. revert elapsed last_size t_prev trace.
  induction fuel as [| fuel IH]; intros elapsed last_size t_prev trace Hlt Hprev;
    simpl; [discriminate |].
  destruct (elapsed <? timeout_ms) eqn:Hguard; [| discriminate].
  apply Z.ltb_lt in Hguard.
  destruct (stat env elapsed) as [cur | e0] eqn:Hst.
  2:{ destruct e0; discriminate. }
  pose proof (Hp elapsed poll_interval) as Hw1. unfold poll_interval in Hw1.
  destruct ((0 <? cur) && (cur =? last_size)) eqn:Hc.
  - apply andb_true_iff in Hc as [Hpos Heq].
    apply Z.ltb_lt in Hpos. apply Z.eqb_eq in Heq. subst last_size.
    destruct (stat env (wake env elapsed confirm_delay)) as [fin | e1] eqn:Hfin.
    2:{ destruct e1; discriminate. }
    destruct (fin =? cur) eqn:Hfc.
    + apply Z.eqb_eq in Hfc. subst fin. intros [= <-].
      exists [], t_prev, elapsed, cur. simpl.
      repeat split; auto; lia.
    + intros H. apply after_Some in H as (trace' & H & ->).
      pose proof (Hp elapsed confirm_delay) as Hw2.
      pose proof (Hp (wake env elapsed confirm_delay) poll_interval) as Hw3.
      unfold confirm_delay, poll_interval in *.
      pose proof (wait_loop_true_nonempty _ _ _ _ _ _ H) as Hne.
      apply IH with (t_prev := elapsed) in H; [| lia | auto].
      destruct H as (pre & t1 & t2 & s & Hpolls & Hs & Ht & H1 & H2 & H3 & Hl).
      exists ((t_prev, Ok cur) :: pre), t1, t2, s. simpl.
      rewrite Hpolls. repeat split; auto; try lia.
      destruct trace'; [congruence | exact Hl].
  - intros H. apply after_Some in H as (trace' & H & ->).
    pose proof (wait_loop_true_nonempty _ _ _ _ _ _ H) as Hne.
    unfold poll_interval in *.
    apply IH with (t_prev := elapsed) in H; [| lia | auto].
    destruct H as (pre & t1 & t2 & s & Hpolls & Hs & Ht & H1 & H2 & H3 & Hl).
    exists ((t_prev, Ok last_size) :: pre), t1, t2, s. simpl.
    rewrite Hpolls. repeat split; auto; try lia.
    destruct trace'; [congruence | exact Hl].
Qed.

(** With punctual sleeps the loop is left within [fuel] further
    iterations once [timeout_ms - elapsed <= fuel * poll_interval]. *)
Lemma wait_loop_terminates fuel env timeout_ms elapsed last_size :
  punctual env ->
  timeout_ms - elapsed <= Z.of_nat fuel * poll_interval ->
  exists r trace, wait_loop (S fuel) env timeout_ms elapsed last_size = Some (r, trace).
Proof.
  intros Hp. revert elapsed last_size.
  induction fuel as [| fuel IH]; intros elapsed last_size Hb.
  - simpl. destruct (elapsed <? timeout_ms) eqn:Hg; [| eauto].
    apply Z.ltb_lt in Hg. simpl in Hb. lia.
  - remember (S fuel) as n eqn:Hn. simpl. subst n.
    destruct (elapsed <? timeout_ms); [| eauto].
    destruct (stat env elapsed) as [cur | e0]; [| eauto].
    pose proof (Hp elapsed poll_interval) as Hw1.
    pose proof (Hp elapsed confirm_delay) as Hw2.
    pose proof (Hp (wake env elapsed confirm_delay) poll_interval) as Hw3.
    unfold poll_interval, confirm_delay in *.
    destruct ((0 <? cur) && (cur =? last_size)).
    + cbv zeta. destruct (stat env (wake env elapsed 2000)) as [fin | e1]; [| eauto].
      destruct (fin =? cur); [eauto |].
      destruct (IH (wake env (wake env elapsed 2000) 500) cur) as (r & tr & ->); [lia |].
      simpl. eauto.
    + destruct (IH (wake env elapsed 500) cur) as (r & tr & ->); [lia |].
      simpl. eauto.
Qed.

(** Every poll is made before the timeout has elapsed. *)
Lemma wait_loop_polls_in_window fuel env timeout_ms elapsed last_size r trace :
  punctual env ->
  wait_loop fuel env timeout_ms elapsed last_size = Some (r, trace) ->
  forall t sz, (t, sz) ∈ polls trace -> elapsed <= t < timeout_ms.
Proof.
  intros Hp. revert elapsed last_size r trace.
  induction fuel as [| fuel IH]; intros elapsed last_size r trace; simpl; [discriminate |].
  destruct (elapsed <? timeout_ms) eqn:Hg.
  2:{ intros [= <- <-] t sz Hin. simpl in Hin. apply elem_of_nil in Hin as []. }
  apply Z.ltb_lt in Hg.
  pose proof (Hp elapsed poll_interval) as Hw1.
  pose proof (Hp elapsed confirm_delay) as Hw2.
  pose proof (Hp (wake env elapsed confirm_delay) poll_interval) as Hw3.
  unfold poll_interval, confirm_delay in *.
  assert (Hone : forall (t : Z) (sz x : result Z),
            (t, sz) ∈ [(elapsed, x)] -> elapsed <= t < timeout_ms).
  { intros t sz x Hin. apply list_elem_of_singleton in Hin as [= -> _]. lia. }
  destruct (stat env elapsed) as [cur | e0].
  2:{ intros [= <- <-] t sz Hin. simpl in Hin. eapply Hone, Hin. }
  destruct ((0 <? cur) && (cur =? last_size)).
  - destruct (stat env (wake env elapsed 2000)) as [fin | e1].
    2:{ intros [= <- <-] t sz Hin. simpl in Hin. eapply Hone, Hin. }
    destruct (fin =? cur).
    + intros [= <- <-] t sz Hin. simpl in Hin. eapply Hone, Hin.
    + intros H t sz Hin. apply after_Some in H as (trace' & H & ->).
      simpl in Hin. apply elem_of_cons in Hin as [[= -> _] | Hin]; [lia |].
      specialize (IH _ _ _ _ H t sz Hin). lia.
  - intros H t sz Hin. apply after_Some in H as (trace' & H & ->).
    simpl in Hin. apply elem_of_cons in Hin as [[= -> _] | Hin]; [lia |].
    specialize (IH _ _ _ _ H t sz Hin). lia.
Qed.

(** A recheck is the read made when the confirmation delay that started
    at a poll of a nonzero size is over. *)
Lemma wait_loop_rechecks fuel env timeout_ms elapsed last_size r trace :
  wait_loop fuel env timeout_ms elapsed last_size = Some (r, trace) ->
  forall t sz, (t, sz) ∈ rechecks trace ->
    exists t2 s, (t2, Ok s) ∈ polls trace /\ 0 < s /\ t = wake env t2 confirm_delay.
Proof.
  revert elapsed last_size r trace.
  induction fuel as [| fuel IH]; intros elapsed last_size r trace; simpl; [discriminate |].
  destruct (elapsed <? timeout_ms).
  2:{ intros [= <- <-] t sz Hin. simpl in Hin. apply elem_of_nil in Hin as []. }
  destruct (stat env elapsed) as [cur | e0].
  2:{ intros [= <- <-] t sz Hin. simpl in Hin. apply elem_of_nil in Hin as []. }
  assert (Hrest : forall trace' (x : result Z) t sz,
            (forall t sz, (t, sz) ∈ rechecks trace' ->
               exists t2 s, (t2, Ok s) ∈ polls trace' /\ 0 < s
                            /\ t = wake env t2 confirm_delay) ->
            (t, sz) ∈ rechecks trace' ->
            exists t2 s, (t2, Ok s) ∈ (elapsed, x) :: polls trace' /\ 0 < s
                         /\ t = wake env t2 confirm_delay).
  { intros trace' x t sz H Hin. destruct (H t sz Hin) as (t2 & s & Hp & Hs & Ht).
    exists t2, s. split; [right; exact Hp | auto]. }
  destruct ((0 <? cur) && (cur =? last_size)) eqn:Hc.
  - apply andb_true_iff in Hc as [Hpos _]. apply Z.ltb_lt in Hpos.
    assert (Hhere : forall (t : Z) (sz x : result Z) (rest : list (Z * result Z)),
              (t, sz) ∈ [(wake env elapsed confirm_delay, x)] ->
              exists t2 s, (t2, Ok s) ∈ (elapsed, Ok cur) :: rest /\ 0 < s
                           /\ t = wake env t2 confirm_delay).
    { intros t sz x rest Hin. apply list_elem_of_singleton in Hin as [= -> _].
      exists elapsed, cur. split; [left | auto]. }
    destruct (stat env (wake env elapsed confirm_delay)) as [fin | e1].
    2:{ intros [= <- <-] t sz Hin. simpl in Hin |- *. eapply Hhere, Hin. }
    destruct (fin =? cur).
    + intros [= <- <-] t sz Hin. simpl in Hin |- *. eapply Hhere, Hin.
    + intros H t sz Hin. apply after_Some in H as (trace' & H & ->).
      simpl in Hin |- *. apply elem_of_cons in Hin as [[= -> _] | Hin].
      * exists elapsed, cur. split; [left | auto].
      * eapply Hrest; [apply (IH _ _ _ _ H) | exact Hin].
  - intros H t sz Hin. apply after_Some in H as (trace' & H & ->).
    simpl in Hin |- *. eapply Hrest; [apply (IH _ _ _ _ H) | exact Hin].
Qed.

(** With sleeps that do not return early the method returns: the fuel
    of [enough_fuel] is enough. *)
Lemma wait_for_file_stable_returns (env : Env) (timeout : Z) :
  punctual env ->
  exists r trace, wait_for_file_stable env timeout = Some (r, trace).
Proof.
  intros Hp. unfold wait_for_file_stable, enough_fuel.
  apply wait_loop_terminates; [exact Hp |].
  unfold poll_interval.
  destruct (Z.le_gt_cases 0 (timeout * 1000 / 500 + 1)) as [Hnn | Hneg].
  - rewrite Z2Nat.id by exact Hnn.
    pose proof (Z.mul_succ_div_gt (timeout * 1000) 500 ltac:(lia)). lia.
  - assert (timeout * 1000 < 0); [| lia].
    destruct (Z.lt_ge_cases (timeout * 1000) 0) as [Hlt | Hge]; [exact Hlt |].
    pose proof (Z.div_pos (timeout * 1000) 500 Hge ltac:(lia)). lia.
Qed.

(** C5, where the claim is not what the code does.  The timeout is
    tested at the head of an iteration only.  With a timeout of one
    second a file of constant size is reported stable two and a half
    seconds after the start; with the default timeout, a file that
    reaches its size at 29 seconds is reported stable at 31.5 seconds.
    And a file that is written in bursts (100 bytes, 200 bytes from the
    third second on) is reported stable between two bursts. *)
Theorem wait_for_file_stable_after_timeout :
  wait_for_file_stable (exact_clock (fun _ => Ok 120)) 1
  = Some (Ok true, [Poll 0 (Ok 120); Poll 500 (Ok 120); Recheck 2500 (Ok 120)])
  /\ (match wait_for_file_stable (exact_clock (fun t => Ok (Z.min (t + 1) 29001))) 30 with
      | Some (r, trace) =>
          r = Ok true /\ last trace = Some (Recheck 31500 (Ok 29001))
      | None => False
      end)
  /\ wait_for_file_stable (exact_clock (fun t => Ok (if t <? 3000 then 100 else 200))) 30
     = Some (Ok true, [Poll 0 (Ok 100); Poll 500 (Ok 100); Recheck 2500 (Ok 100)]).
Proof. split; [reflexivity | split; [vm_compute; split; reflexivity | reflexivity]]. Qed.

(** C5, as the code has it.  With sleeps that do not return early,
    [wait_for_file_stable] returns, and:
    - it returns [True] only when the last two polls read the same
      nonzero size and the read made after the confirmation delay read
      that size again ([confirmed]);
    - a read that finds the path gone is the last read of the run, and the
      run returns [False];
    - every poll is made before the timeout has elapsed, and every
      re-read at the end of the confirmation delay that started at such
      a poll: so the run may return [True] after the timeout, by the
      confirmation of a poll made before it;
    - the loop, entered with the timeout reached, returns [False]
      without reading;
    - a file whose size is zero at every read is never reported stable,
      nor a file whose size differs between any two reads that are a
      confirmation delay or more apart. *)
Theorem wait_for_file_stable_confirms (env : Env) (timeout : Z) :
  punctual env ->
  exists r trace,
    wait_for_file_stable env timeout = Some (r, trace)
    /\ (r = Ok true -> confirmed env (timeout * 1000) (polls trace) trace)
    /\ (forall i rd, trace !! i = Some rd -> read_size rd = Raise FileNotFoundError ->
          S i = length trace /\ r = Ok false)
    /\ (forall t sz, (t, sz) ∈ polls trace -> 0 <= t < timeout * 1000)
    /\ (forall t sz, (t, sz) ∈ rechecks trace ->
          exists t2 s, (t2, Ok s) ∈ polls trace /\ 0 < s /\ t2 < timeout * 1000
                       /\ t = wake env t2 confirm_delay)
    /\ (forall fuel elapsed last_size, timeout * 1000 <= elapsed ->
          wait_loop (S fuel) env (timeout * 1000) elapsed last_size = Some (Ok false, []))
    /\ ((forall t s, stat env t = Ok s -> s = 0) -> r <> Ok true)
    /\ ((forall t t' s s', t + confirm_delay <= t' ->
           stat env t = Ok s -> stat env t' = Ok s' -> s <> s') ->
          r <> Ok true).
Proof.
  intros Hp.
  destruct (wait_for_file_stable_returns env timeout Hp) as (r & trace & Hrun).
  exists r, trace. split; [exact Hrun |].
  unfold wait_for_file_stable in Hrun.
  assert (Hconf : r = Ok true -> confirmed env (timeout * 1000) (polls trace) trace).
  { intros ->.
    apply wait_loop_true with (t_prev := -1) in Hrun; [| exact Hp | lia | lia].
    destruct Hrun as (pre & t1 & t2 & s & Hpolls & Hs & Ht & H1 & H2 & H3 & Hl).
    destruct pre as [| x pre]; simpl in Hpolls.
    - injection Hpolls as _ Hs' _. lia.
    - injection Hpolls as _ Hpolls. exists pre, t1, t2, s. auto 10. }
  split; [exact Hconf |]. split; [| split; [| split; [| split; [| split]]]].
  - intros i rd Hl He.
    destruct (wait_loop_raise_is_final _ _ _ _ _ _ _ Hrun i rd _ Hl He) as [Hlen Hr].
    split; [exact Hlen | exact Hr].
  - intros t sz Hin. eapply wait_loop_polls_in_window; eauto.
  - intros t sz Hin.
    destruct (wait_loop_rechecks _ _ _ _ _ _ _ Hrun t sz Hin) as (t2 & s & Hpoll & Hs & Ht).
    exists t2, s. split; [exact Hpoll |]. split; [exact Hs |]. split; [| exact Ht].
    eapply wait_loop_polls_in_window; eauto.
  - intros fuel elapsed last_size Hto. simpl.
    destruct (elapsed <? timeout * 1000) eqn:Hg; [| reflexivity].
    apply Z.ltb_lt in Hg. lia.
  - intros Hzero Hr. destruct (Hconf Hr) as (pre & t1 & t2 & s & _ & Hs & _ & H1 & _).
    apply Hzero in H1. lia.
  - intros Hchange Hr.
    destruct (Hconf Hr) as (pre & t1 & t2 & s & _ & _ & _ & _ & H2 & H3 & _).
    apply (Hchange t2 (wake env t2 confirm_delay) s s); [apply Hp | exact H2 | exact H3 |].
    reflexivity.
Qed.

(** The statement of C5 at a file of constant size 120, a clock on which
    sleeps are exact, and the default timeout of 30 seconds. *)
Lemma wait_for_file_stable_confirms_witness :
  let env := exact_clock (fun _ => Ok 120) in
  punctual env
  /\ exists r trace,
    wait_for_file_stable env 30 = Some (r, trace)
    /\ (r = Ok true -> confirmed env (30 * 1000) (polls trace) trace)
    /\ (forall i rd, trace !! i = Some rd -> read_size rd = Raise FileNotFoundError ->
          S i = length trace /\ r = Ok false)
    /\ (forall t sz, (t, sz) ∈ polls trace -> 0 <= t < 30 * 1000)
    /\ (forall t sz, (t, sz) ∈ rechecks trace ->
          exists t2 s, (t2, Ok s) ∈ polls trace /\ 0 < s /\ t2 < 30 * 1000
                       /\ t = wake env t2 confirm_delay)
    /\ (forall fuel elapsed last_size, 30 * 1000 <= elapsed ->
          wait_loop (S fuel) env (30 * 1000) elapsed last_size = Some (Ok false, []))
    /\ ((forall t s, stat env t = Ok s -> s = 0) -> r <> Ok true)
    /\ ((forall t t' s s', t + confirm_delay <= t' ->
           stat env t = Ok s -> stat env t' = Ok s' -> s <> s') ->
          r <> Ok true).
Proof.
  assert (Hp : punctual (exact_clock (fun _ => Ok 120))).
  { intros t d. simpl. lia. }
  split; [exact Hp |].
  exact (wait_for_file_stable_confirms (exact_clock (fun _ => Ok 120)) 30 Hp).
Defined.

End Stability.

(* ===================================================================== *)
(** ** Paths, dates and the local file system *)
(* ===================================================================== *)

Module Local.

(** *** [pathlib.Path] *)

(** A path is the list of its components, outermost first.  The paths
    of the embedding are relative to the working directory (the root
    [[]] of the file system below), and a component is a name: it holds
    no "/" and is neither "." nor "..", which [pathlib] keeps as
    components but the disk resolves. *)
Abbreviation Path := (list string).

Definition slash : ascii := "/"%char.

(** The components of a string: its maximal runs without "/". *)
Fixpoint parts_from (current : string) (s : string) : list string :=
  match s with
  | EmptyString => if String.eqb current EmptyString then [] else [current]
  | String c r =>
      if Ascii.eqb c slash then
        (if String.eqb current EmptyString then [] else [current])
          ++ parts_from EmptyString r
      else parts_from (current +:+ String c EmptyString) r
  end.

Definition parts (s : string) : list string := parts_from EmptyString s.

(** [p / s] for a relative [s] whose components are names.  (For an
    absolute [s] the result of [pathlib] is [s] alone; the statements
    below apply [path_div] to a date string and to strings assumed to be
    one component.) *)
Definition path_div (p : Path) (s : string) : Path := p ++ parts s.

(** [p.name] and [p.parent]. *)
Definition name (p : Path) : string := List.last p EmptyString.
Definition parent (p : Path) : Path := removelast p.

(** [p.stem]: the name without its last suffix.  The suffix starts at the
    last "." of the name, unless that is its first or its last
    character. *)
Fixpoint rfind_dot (s : string) (i : nat) : option nat :=
  match s with
  | EmptyString => None
  | String c r =>
      match rfind_dot r (S i) with
      | Some j => Some j
      | None => if Ascii.eqb c "."%char then Some i else None
      end
  end.

Definition stem (p : Path) : string :=
  let n := name p in
  match rfind_dot n 0 with
  | Some i =>
      if ((0 <? i) && (i <? String.length n - 1))%nat
      then String.substring 0 i n else n
  | None => n
  end.

Example stem_csv : stem ["data"; "input"; "batch.csv"]%string = "batch"%string.
Proof. reflexivity. Qed.

Example div_date :
  path_div (path_div ["archive"%string] "2024/01/05") "batch.csv"
  = ["archive"; "2024"; "01"; "05"; "batch.csv"]%string.
Proof. reflexivity. Qed.

(** *** [datetime] *)

Record DateTime : Type := {
  year : Z; month : Z; day : Z;
  hour : Z; minute : Z; second : Z
}.

(** The civil date of a day number (days since 1970-01-01) in the
    proleptic Gregorian calendar. *)
Definition civil_from_days (days : Z) : Z * Z * Z :=
  let z := days + 719468 in
  let era := z / 146097 in
  let doe := z - era * 146097 in
  let yoe := (doe - doe / 1460 + doe / 36524 - doe / 146096) / 365 in
  let doy := doe - (365 * yoe + yoe / 4 - yoe / 100) in
  let mp := (5 * doy + 2) / 153 in
  let d := doy - (153 * mp + 2) / 5 + 1 in
  let m := if mp <? 10 then mp + 3 else mp - 9 in
  let y := yoe + era * 400 + (if m <=? 2 then 1 else 0) in
  (y, m, d).

(** [datetime.fromtimestamp(ts)] in a zone [utc_offset] seconds east of
    Greenwich; years outside 1..9999 are a [ValueError]. *)
Definition fromtimestamp (utc_offset : Z) (ts : Z) : result DateTime :=
  let local := ts + utc_offset in
  let '(y, m, d) := civil_from_days (local / 86400) in
  let s := local mod 86400 in
  if (1 <=? y) && (y <=? 9999) then
    Ok {| year := y; month := m; day := d;
          hour := s / 3600; minute := s mod 3600 / 60; second := s mod 60 |}
  else Raise ValueError.

Definition digit (n : Z) : ascii := ascii_of_N (48 + Z.to_N (n mod 10)).

Definition pad2 (n : Z) : string :=
  String (digit (n / 10)) (String (digit n) EmptyString).

(** [str(n)] for an integer [n]: its decimal digits, after a "-" when it
    is negative. *)
Definition str (n : Z) : string := DecimalString.NilZero.string_of_int (Z.to_int n).

(** The directive [%Y] of [strftime] as the C library of Linux prints
    it: the year in decimal without padding, so with four digits from
    the year 1000 on and with fewer before ("999"). *)
Definition year_text (y : Z) : string := str y.

(** [strftime("%Y/%m/%d")] *)
Definition strftime_date (sep : string) (t : DateTime) : string :=
  year_text (year t) +:+ sep +:+ pad2 (month t) +:+ sep +:+ pad2 (day t).

(** [strftime("%Y%m%d_%H%M%S")] *)
Definition strftime_stamp (t : DateTime) : string :=
  strftime_date EmptyString t +:+ "_"
    +:+ pad2 (hour t) +:+ pad2 (minute t) +:+ pad2 (second t).

Example epoch : fromtimestamp 0 0
  = Ok {| year := 1970; month := 1; day := 1; hour := 0; minute := 0; second := 0 |}.
Proof. reflexivity. Qed.

(** 2024-12-18 14:30:25 UTC, the stamp of the generator's sample name. *)
Example sample_stamp :
  (fun t => (strftime_date "/" t, strftime_stamp t)) <$>
    (match fromtimestamp 0 1734532225 with Ok t => Some t | Raise _ => None end)
  = Some ("2024/12/18"%string, "20241218_143025"%string).
Proof. reflexivity. Qed.

(** *** The local file system *)

Definition Content : Type := string.

(** A directory, or a regular file with its modification time and
    content.  The time is in whole seconds since the epoch: the second
    that [datetime.fromtimestamp] makes of [st_mtime], whose fraction
    the formats of the pipeline ([%Y/%m/%d], [%Y%m%d_%H%M%S]) do not
    print.  Directories carry no time stamp, and a move takes one entry:
    the embedding covers the calls of [stat] and [rename] on a regular
    file or on a path where nothing is (the watcher's [csv_filter] hands
    the pipeline no directory). *)
Inductive Node : Type :=
| Dir
| File (mtime : Z) (content : Content).

(** The entries of the file system by path; the root [[]] is a directory
    without an entry. *)
Abbreviation FS := (gmap (list string) Node).

Definition is_dir (fs : FS) (p : Path) : bool :=
  match p, fs !! p with
  | [], _ => true
  | _, Some Dir => true
  | _, _ => false
  end.

(** The exception of an operation that needs directory [p] to exist. *)
Definition need_dir (fs : FS) (p : Path) : option exn :=
  match p, fs !! p with
  | [], _ | _, Some Dir => None
  | _, Some (File _ _) => Some NotADirectoryError
  | _, None => Some FileNotFoundError
  end.

(** [p.stat().st_mtime] for a [p] that is not a directory.  (On a
    directory [stat] succeeds; the statements about [st_mtime] are about
    a regular file or assume that [p] is not a directory.) *)
Definition st_mtime (fs : FS) (p : Path) : result Z :=
  match fs !! p with
  | Some (File mtime _) => Ok mtime
  | Some Dir => Raise IsADirectoryError
  | None => Raise FileNotFoundError
  end.

(** [open(p).read()] *)
Definition read_file (fs : FS) (p : Path) : result Content :=
  match fs !! p with
  | Some (File _ content) => Ok content
  | Some Dir => Raise IsADirectoryError
  | None => Raise FileNotFoundError
  end.

(** [p.mkdir(parents=True, exist_ok=True)]: the directories from the root
    down to [p] are created where they are missing; a regular file in the
    way is an error, and what was created before it stays. *)
Fixpoint mkdir_from (base : Path) (rest : list string) (fs : FS) : FS * result unit :=
  match rest with
  | [] => (fs, Ok tt)
  | c :: rest' =>
      let p := base ++ [c] in
      match fs !! p with
      | Some (File _ _) =>
          (fs, Raise (match rest' with [] => FileExistsError | _ => NotADirectoryError end))
      | Some Dir => mkdir_from p rest' fs
      | None => mkdir_from p rest' (<[p := Dir]> fs)
      end
  end.

Definition mkdir_parents (p : Path) (fs : FS) : FS * result unit :=
  mkdir_from [] p fs.

(** [p.mkdir(exist_ok=True)]: the parent must exist. *)
Definition mkdir (p : Path) (fs : FS) : FS * result unit :=
  match fs !! p with
  | Some Dir => (fs, Ok tt)
  | Some (File _ _) => (fs, Raise FileExistsError)
  | None =>
      match need_dir fs (parent p) with
      | Some e => (fs, Raise e)
      | None => (match p with [] => fs | _ => <[p := Dir]> fs end, Ok tt)
      end
  end.

(** Writing [content] to [p] at time [now]: [df.to_csv(p)]. *)
Definition write_file (p : Path) (now : Z) (content : Content) (fs : FS)
  : FS * result unit :=
  match need_dir fs (parent p) with
  | Some e => (fs, Raise e)
  | None =>
      match p, fs !! p with
      | [], _ | _, Some Dir => (fs, Raise IsADirectoryError)
      | _, _ => (<[p := File now content]> fs, Ok tt)
      end
  end.

(** [src.rename(dst)] for a [src] that is not a directory: the entry
    moves, with its modification time; a regular file at [dst] is
    replaced. *)
Definition rename (src dst : Path) (fs : FS) : FS * result unit :=
  match fs !! src with
  | None => (fs, Raise FileNotFoundError)
  | Some node =>
      match need_dir fs (parent dst) with
      | Some e => (fs, Raise e)
      | None =>
          match dst, fs !! dst with
          | [], _ | _, Some Dir => (fs, Raise IsADirectoryError)
          | _, _ => (<[dst := node]> (delete src fs), Ok tt)
          end
      end
  end.

(** [p.unlink()] *)
Definition unlink (p : Path) (fs : FS) : FS * result unit :=
  match fs !! p with
  | Some (File _ _) => (delete p fs, Ok tt)
  | Some Dir => (fs, Raise IsADirectoryError)
  | None => (fs, Raise FileNotFoundError)
  end.

(** The non-empty prefixes of a path: its ancestors below the root, and
    the path itself. *)
Fixpoint prefixes (p : Path) : list Path :=
  match p with
  | [] => []
  | c :: rest => [c] :: map (cons c) (prefixes rest)
  end.

Definition is_file (fs : FS) (p : Path) : bool :=
  match fs !! p with
  | Some (File _ _) => true
  | _ => false
  end.

(** No regular file is in the way of creating directory [p]. *)
Definition free_way (fs : FS) (p : Path) : bool :=
  forallb (fun q => negb (is_file fs q)) (prefixes p).

(** *** Facts about dates, paths and directories *)

Lemma digit_not_slash (n : Z) : Ascii.eqb (digit n) slash = false.
Proof.
  unfold digit. pose proof (Z.mod_pos_bound n 10 ltac:(lia)) as Hb.
  remember (n mod 10) as k eqn:Hk. clear Hk.
  assert (Hc : k = 0 \/ k = 1 \/ k = 2 \/ k = 3 \/ k = 4 \/ k = 5 \/ k = 6
               \/ k = 7 \/ k = 8 \/ k = 9) by lia.
  repeat (destruct Hc as [-> | Hc]; [reflexivity |]). subst k. reflexivity.
Qed.

(** [String.append] does not unfold under [simpl]; its two equations. *)
Lemma string_app_cons (x : ascii) (a b : string) :
  String x a +:+ b = String x (a +:+ b).
Proof. reflexivity. Qed.

Lemma string_app_nil_l (a : string) : EmptyString +:+ a = a.
Proof. reflexivity. Qed.

Lemma string_app_assoc (a b c : string) : (a +:+ b) +:+ c = a +:+ (b +:+ c).
Proof.
  induction a as [| x a IH]; [reflexivity |].
  rewrite !string_app_cons, IH. reflexivity.
Qed.

Lemma string_app_nil_r (a : string) : a +:+ EmptyString = a.
Proof.
  induction a as [| x a IH]; [reflexivity |]. rewrite string_app_cons, IH. reflexivity.
Qed.

Lemma string_app_length (a b : string) :
  String.length (a +:+ b) = (String.length a + String.length b)%nat.
Proof.
  induction a as [| x a IH]; [reflexivity |]. rewrite string_app_cons. simpl.
  rewrite IH. reflexivity.
Qed.

Lemma string_app_inj_r (t a b : string) : a +:+ t = b +:+ t -> a = b.
Proof.
  revert b. induction a as [| x a IH]; intros [| y b] H.
  - reflexivity.
  - apply (f_equal String.length) in H. rewrite string_app_nil_l, string_app_cons in H.
    simpl in H. rewrite string_app_length in H. lia.
  - apply (f_equal String.length) in H. rewrite string_app_nil_l, string_app_cons in H.
    simpl in H. rewrite string_app_length in H. lia.
  - rewrite !string_app_cons in H. injection H as -> H. rewrite (IH b H). reflexivity.
Qed.

(** A string without "/" is one component. *)
Fixpoint plain (s : string) : bool :=
  match s with
  | EmptyString => true
  | String c r => negb (Ascii.eqb c slash) && plain r
  end.

Lemma plain_app (a b : string) : plain (a +:+ b) = plain a && plain b.
Proof.
  induction a as [| x a IH]; [reflexivity |].
  rewrite string_app_cons. simpl. rewrite IH, andb_assoc. reflexivity.
Qed.

Lemma parts_from_plain (s current : string) :
  plain s = true ->
  parts_from current s
  = if String.eqb (current +:+ s) EmptyString then [] else [current +:+ s].
Proof.
  revert current. induction s as [| c r IH]; intros current Hs; cbn [parts_from].
  - rewrite string_app_nil_r. reflexivity.
  - simpl in Hs. apply andb_true_iff in Hs as [Hc Hr].
    apply negb_true_iff in Hc. rewrite Hc. rewrite (IH _ Hr).
    rewrite string_app_assoc, string_app_cons, string_app_nil_l. reflexivity.
Qed.

Lemma parts_plain (s : string) :
  plain s = true -> s <> EmptyString -> parts s = [s].
Proof.
  intros H Hne. unfold parts. rewrite (parts_from_plain _ _ H), string_app_nil_l.
  destruct (String.eqb s EmptyString) eqn:He; [| reflexivity].
  apply String.eqb_eq in He. contradiction.
Qed.

(** The components of [a ++ "/" ++ rest] when [a] holds no "/". *)
Lemma parts_from_slash (a rest current : string) :
  plain a = true ->
  parts_from current (a +:+ String slash rest)
  = (if String.eqb (current +:+ a) EmptyString then [] else [current +:+ a])
      ++ parts_from EmptyString rest.
Proof.
  revert current. induction a as [| c r IH]; intros current Ha.
  - rewrite string_app_nil_l, string_app_nil_r. cbn [parts_from].
    rewrite Ascii.eqb_refl. reflexivity.
  - simpl in Ha. apply andb_true_iff in Ha as [Hc Hr]. apply negb_true_iff in Hc.
    rewrite string_app_cons. cbn [parts_from]. rewrite Hc, (IH _ Hr).
    rewrite string_app_assoc, string_app_cons, string_app_nil_l. reflexivity.
Qed.

Lemma plain_uint (d : Decimal.uint) : plain (DecimalString.NilEmpty.string_of_uint d) = true.
Proof. induction d; simpl; try rewrite IHd; reflexivity. Qed.

Lemma plain_str (n : Z) : plain (str n) = true.
Proof.
  unfold str. destruct n as [| p | p]; simpl; [reflexivity | |];
    destruct (Pos.to_uint p) eqn:Hd; try reflexivity; simpl;
    rewrite plain_uint; reflexivity.
Qed.

(** The decimal text of an integer has a first character. *)
Lemma str_not_empty (n : Z) : exists c s, str n = String c s.
Proof.
  unfold str. destruct (Z.to_int n) as [d | d]; simpl; [| eauto].
  destruct d; simpl; eauto.
Qed.

Lemma plain_pad2 (n : Z) : plain (pad2 n) = true.
Proof. unfold pad2. simpl. rewrite !digit_not_slash. reflexivity. Qed.

(** The date string has the three components year, month, day. *)
Lemma parts_date (t : DateTime) :
  parts (strftime_date "/" t) = [year_text (year t); pad2 (month t); pad2 (day t)].
Proof.
  unfold strftime_date, parts, year_text.
  destruct (str_not_empty (year t)) as (c & y & Hy).
  change ("/"%string) with (String slash EmptyString). rewrite !string_app_cons, !string_app_nil_l.
  rewrite (parts_from_slash _ _ _ (plain_str (year t))), string_app_nil_l.
  rewrite (parts_from_slash _ _ _ (plain_pad2 (month t))), string_app_nil_l.
  rewrite (parts_from_plain _ _ (plain_pad2 (day t))), string_app_nil_l.
  rewrite Hy. reflexivity.
Qed.

(** [fromtimestamp] returns years from 1 to 9999 only. *)
Lemma fromtimestamp_year (utc_offset ts : Z) (t : DateTime) :
  fromtimestamp utc_offset ts = Ok t -> 1 <= year t <= 9999.
Proof.
  unfold fromtimestamp. destruct (civil_from_days _) as [[y m] d].
  destruct ((1 <=? y) && (y <=? 9999)) eqn:Hy; [| discriminate].
  intros [= <-]. simpl. apply andb_true_iff in Hy as [H1 H2].
  apply Z.leb_le in H1, H2. lia.
Qed.

(** From the year 1000 on the year is printed with four digits. *)
Lemma year_text_four_digits (y : Z) :
  1000 <= y <= 9999 -> String.length (year_text y) = 4%nat.
Proof.
  intros Hy.
  assert (Hall : forallb (fun k => Nat.eqb (String.length (year_text (1000 + Z.of_nat k))) 4)
                         (seq 0 (Z.to_nat 9000)) = true) by (vm_compute; reflexivity).
  rewrite forallb_forall in Hall.
  specialize (Hall (Z.to_nat (y - 1000))).
  rewrite Z2Nat.id in Hall by lia. replace (1000 + (y - 1000)) with y in Hall by lia.
  apply Nat.eqb_eq, Hall, in_seq. lia.
Qed.

Lemma app_same_nil {A : Type} (l l1 : list A) : l ++ l1 = l -> l1 = [].
Proof. intros H. apply (app_inv_head l). rewrite app_nil_r. exact H. Qed.

(** No regular file sits on the way from [base] down [rest]. *)
Definition no_file_on (fs : FS) (base rest : Path) : Prop :=
  forall l1 l2 m c, rest = l1 ++ l2 -> l1 <> [] -> fs !! (base ++ l1) <> Some (File m c).

Lemma mkdir_from_ok (rest base : Path) (fs : FS) :
  no_file_on fs base rest ->
  exists fs',
    mkdir_from base rest fs = (fs', Ok tt)
    /\ (forall l1 l2, rest = l1 ++ l2 -> l1 <> [] -> fs' !! (base ++ l1) = Some Dir)
    /\ (forall q, (forall l1 l2, rest = l1 ++ l2 -> l1 <> [] -> q <> base ++ l1) ->
          fs' !! q = fs !! q).
Proof.
  revert base fs. induction rest as [| c rest IH]; intros base fs Hno.
  - exists fs. simpl. split; [reflexivity |]. split; [| reflexivity].
    intros l1 l2 H Hne. symmetry in H. apply app_eq_nil in H as [-> _]. congruence.
  - simpl.
    assert (Hsub : forall fs0, (forall q, q <> base ++ [c] -> fs0 !! q = fs !! q) ->
                     no_file_on fs0 (base ++ [c]) rest).
    { intros fs0 Hfs0 l1 l2 m x -> Hne.
      rewrite Hfs0.
      - rewrite <- app_assoc. simpl. apply (Hno (c :: l1) l2); [reflexivity | discriminate].
      - intros Heq. apply app_same_nil in Heq. congruence. }
    assert (Hsplit : forall (P : Path -> Prop),
              P (base ++ [c]) ->
              (forall l1 l2, rest = l1 ++ l2 -> l1 <> [] -> P ((base ++ [c]) ++ l1)) ->
              forall l1 l2, c :: rest = l1 ++ l2 -> l1 <> [] -> P (base ++ l1)).
    { intros P Hp Hrest l1 l2 Heq Hne.
      destruct l1 as [| x l1]; [congruence |]. simpl in Heq. injection Heq as <- ->.
      destruct l1 as [| y l1]; [exact Hp |].
      specialize (Hrest (y :: l1) l2 eq_refl ltac:(discriminate)).
      rewrite <- app_assoc in Hrest. exact Hrest. }
    destruct (fs !! (base ++ [c])) as [[| m x] |] eqn:Hp.
    + destruct (IH (base ++ [c]) fs (Hsub fs (fun _ _ => eq_refl)))
        as (fs' & Hrun & Hdirs & Hframe).
      exists fs'. split; [exact Hrun |]. split.
      * apply (Hsplit (fun q => fs' !! q = Some Dir)); [| exact Hdirs].
        rewrite Hframe; [exact Hp |].
        intros l1 l2 _ Hne Heq. symmetry in Heq.
        apply app_same_nil in Heq. congruence.
      * intros q Hq. apply Hframe. intros l1 l2 -> Hne.
        rewrite <- app_assoc. apply (Hq (c :: l1) l2); [reflexivity | discriminate].
    + exfalso. apply (Hno [c] rest m x); [reflexivity | discriminate | exact Hp].
    + destruct (IH (base ++ [c]) (<[base ++ [c] := Dir]> fs)) as (fs' & Hrun & Hdirs & Hframe).
      { apply Hsub. intros q Hq. apply lookup_insert_ne. congruence. }
      exists fs'. split; [exact Hrun |]. split.
      * apply (Hsplit (fun q => fs' !! q = Some Dir)); [| exact Hdirs].
        rewrite Hframe; [apply lookup_insert_eq |].
        intros l1 l2 _ Hne Heq. symmetry in Heq.
        apply app_same_nil in Heq. congruence.
      * intros q Hq. rewrite Hframe.
        -- apply lookup_insert_ne. intros Heq. apply (Hq [c] rest); [reflexivity | discriminate | ].
           symmetry. exact Heq.
        -- intros l1 l2 -> Hne.
           rewrite <- app_assoc. apply (Hq (c :: l1) l2); [reflexivity | discriminate].
Qed.

Lemma elem_of_prefixes (p q : Path) :
  q ∈ prefixes p <-> q <> [] /\ exists l2, p = q ++ l2.
Proof.
  revert q. induction p as [| c rest IH]; intros q; simpl.
  - rewrite elem_of_nil. split; [tauto |].
    intros [Hne [l2 H]]. symmetry in H. apply app_eq_nil in H as [-> _]. congruence.
  - rewrite elem_of_cons, list_elem_of_fmap. split.
    + intros [-> | (q' & -> & Hq')].
      * split; [discriminate | exists rest; reflexivity].
      * apply IH in Hq' as [Hne [l2 ->]]. split; [discriminate | exists l2; reflexivity].
    + intros [Hne [l2 H]]. destruct q as [| x q]; [congruence |].
      simpl in H. injection H as <- ->.
      destruct q as [| y q]; [left; reflexivity |].
      right. exists (y :: q). split; [reflexivity |].
      apply IH. split; [discriminate | exists l2; reflexivity].
Qed.

Lemma free_way_no_file (fs : FS) (p : Path) :
  free_way fs p = true -> no_file_on fs [] p.
Proof.
  unfold free_way. rewrite forallb_forall. intros H l1 l2 m c -> Hne Hl. simpl in Hl.
  specialize (H l1). unfold is_file in H. rewrite Hl in H.
  assert (Hin : In l1 (prefixes (l1 ++ l2))).
  { apply list_elem_of_In, elem_of_prefixes. split; [exact Hne | eauto]. }
  specialize (H Hin). discriminate.
Qed.

Lemma mkdir_parents_ok (p : Path) (fs : FS) :
  free_way fs p = true ->
  exists fs',
    mkdir_parents p fs = (fs', Ok tt)
    /\ (forall q, q ∈ prefixes p -> fs' !! q = Some Dir)
    /\ (forall q, q ∉ prefixes p -> fs' !! q = fs !! q).
Proof.
  intros Hfree. apply free_way_no_file in Hfree.
  destruct (mkdir_from_ok p [] fs Hfree) as (fs' & Hrun & Hdirs & Hframe).
  exists fs'. split; [exact Hrun |]. split.
  - intros q Hq. apply elem_of_prefixes in Hq as [Hne [l2 ->]].
    apply (Hdirs q l2); [reflexivity | exact Hne].
  - intros q Hq. apply Hframe. intros l1 l2 -> Hne ->. apply Hq.
    apply elem_of_prefixes. split; [exact Hne | eauto].
Qed.

Lemma need_dir_of_dir (fs : FS) (p : Path) :
  fs !! p = Some Dir -> need_dir fs p = None.
Proof.
  intros H. unfold need_dir. destruct p; [reflexivity |]. rewrite H. reflexivity.
Qed.

Lemma rename_ok (src dst : Path) (node : Node) (fs : FS) :
  fs !! src = Some node ->
  need_dir fs (parent dst) = None ->
  dst <> [] ->
  fs !! dst <> Some Dir ->
  rename src dst fs = (<[dst := node]> (delete src fs), Ok tt).
Proof.
  intros Hsrc Hparent Hne Hdst. unfold rename. rewrite Hsrc, Hparent.
  destruct dst as [| c dst]; [congruence |].
  destruct (fs !! (c :: dst)) as [[| m x] |]; [congruence | reflexivity | reflexivity].
Qed.

End Local.

(* ===================================================================== *)
(** ** Effects: state, exceptions, suspension *)
(* ===================================================================== *)

(** A method of the pipeline, run on a state of type [S]: it does not
    return ([None]: it is suspended for good, or loops), or it leaves a
    state and either returns a value or raises. *)
Definition M (S A : Type) : Type := S -> option (S * result A).

Definition ret {S A : Type} (a : A) : M S A := fun s => Some (s, Ok a).

Definition raise {S A : Type} (e : exn) : M S A := fun s => Some (s, Raise e).

Definition bind {S A B : Type} (m : M S A) (k : A -> M S B) : M S B :=
  fun s =>
    match m s with
    | None => None
    | Some (s', Ok a) => k a s'
    | Some (s', Raise e) => Some (s', Raise e)
    end.

#[global] Instance M_ret {S : Type} : MRet (M S) := fun A a => ret a.
#[global] Instance M_bind {S : Type} : MBind (M S) := fun A B k m => bind m k.

Definition get {S : Type} : M S S := fun s => Some (s, Ok s).

Definition modify {S : Type} (f : S -> S) : M S unit := fun s => Some (f s, Ok tt).

(** The value of a call that raises or returns without touching the
    state. *)
Definition lift {S A : Type} (r : result A) : M S A := fun s => Some (s, r).

(** [try: body  except Exception as e: handler e] *)
Definition try_except {S A : Type} (body : M S A) (handler : exn -> M S A) : M S A :=
  fun s =>
    match body s with
    | Some (s', Raise e) => handler e s'
    | other => other
    end.

(** [try: body  finally: cleanup].  The cleanup runs however the body
    ends; an exception of the cleanup replaces the body's outcome. *)
Definition finally {S A : Type} (body : M S A) (cleanup : M S unit) : M S A :=
  fun s =>
    match body s with
    | None => None
    | Some (s', r) =>
        match cleanup s' with
        | None => None
        | Some (s'', Ok _) => Some (s'', r)
        | Some (s'', Raise e) => Some (s'', Raise e)
        end
    end.

(* ===================================================================== *)
(** ** The per-file workflow ([process_file] and its steps) *)
(* ===================================================================== *)

Module Workflow.
Import Local.

(** The keys of [self.config] the workflow reads.  An optional field is a
    key read with [config.get(key, default)]. *)
Record Config : Type := {
  bucket_name : string;
  temp_folder : Path;
  archive_folder : Path;
  s3_prefix : option string;
  max_concurrent_files : option nat;
  filter_conditions : RowFilter.Config
}.

(** The body of an object: the bytes of a file, or the records of the log
    file. *)
Inductive Body : Type :=
| Bytes (content : Content)
| LogText (records : list LogRecord).

(** A request sent to the object store. *)
Inductive Request : Type :=
| UploadFile (filename : Path) (bucket key : string)
| PutObject (bucket key : string) (body : Body).

(** The state the methods of [MinIOPipeline] work on: the local disk, the
    bucket and the requests sent to it (oldest first), the log file and
    the console the logger writes to, and the attributes of the
    instance; [clock] is what the next [datetime.now()] reads. *)
Record World : Type := {
  fs : FS;
  objects : gmap string Body;
  requests : list Request;
  log_file : list LogRecord;
  console : list LogRecord;
  processing_files : gset (list string);
  semaphore : nat;
  last_log_upload_time : Z;
  logs_accumulated : bool;
  clock : Z
}.

(** What the outside world answers: the offset of local time from UTC in
    force at an instant (in seconds, east positive; it changes with the
    daylight-saving rules of the zone), what the clock reads at the
    reading that follows one that read [t], the sizes a stability wait
    on a path observes, pandas' parser and printer, and the object
    store's reply to a request. *)
Record Env : Type := {
  utc_offset : Z -> Z;
  clock_after : Z -> Z;
  observed : Path -> Stability.Env;
  parse_csv : Content -> result RowFilter.DataFrame;
  print_csv : RowFilter.DataFrame -> Content;
  s3_reply : Request -> result unit
}.

Definition set_fs (f : FS) (w : World) : World :=
  {| fs := f; objects := objects w; requests := requests w;
     log_file := log_file w; console := console w;
     processing_files := processing_files w; semaphore := semaphore w;
     last_log_upload_time := last_log_upload_time w;
     logs_accumulated := logs_accumulated w; clock := clock w |}.

Definition set_store (o : gmap string Body) (rq : list Request) (w : World) : World :=
  {| fs := fs w; objects := o; requests := rq;
     log_file := log_file w; console := console w;
     processing_files := processing_files w; semaphore := semaphore w;
     last_log_upload_time := last_log_upload_time w;
     logs_accumulated := logs_accumulated w; clock := clock w |}.

Definition set_logs (file out : list LogRecord) (w : World) : World :=
  {| fs := fs w; objects := objects w; requests := requests w;
     log_file := file; console := out;
     processing_files := processing_files w; semaphore := semaphore w;
     last_log_upload_time := last_log_upload_time w;
     logs_accumulated := logs_accumulated w; clock := clock w |}.

Definition set_processing_files (ps : gset (list string)) (w : World) : World :=
  {| fs := fs w; objects := objects w; requests := requests w;
     log_file := log_file w; console := console w;
     processing_files := ps; semaphore := semaphore w;
     last_log_upload_time := last_log_upload_time w;
     logs_accumulated := logs_accumulated w; clock := clock w |}.

Definition set_semaphore (n : nat) (w : World) : World :=
  {| fs := fs w; objects := objects w; requests := requests w;
     log_file := log_file w; console := console w;
     processing_files := processing_files w; semaphore := n;
     last_log_upload_time := last_log_upload_time w;
     logs_accumulated := logs_accumulated w; clock := clock w |}.

Definition set_flush_state (t : Z) (dirty : bool) (w : World) : World :=
  {| fs := fs w; objects := objects w; requests := requests w;
     log_file := log_file w; console := console w;
     processing_files := processing_files w; semaphore := semaphore w;
     last_log_upload_time := t;
     logs_accumulated := dirty; clock := clock w |}.

Definition set_clock (t : Z) (w : World) : World :=
  {| fs := fs w; objects := objects w; requests := requests w;
     log_file := log_file w; console := console w;
     processing_files := processing_files w; semaphore := semaphore w;
     last_log_upload_time := last_log_upload_time w;
     logs_accumulated := logs_accumulated w; clock := t |}.

(** [self.logger.info(...)], [self.logger.error(...)]: one record to the
    log file and to the console. *)
Definition emit (level : Level) (msg : Message) : M World unit :=
  modify (fun w => set_logs (log_file w ++ [(level, msg)])
                            (console w ++ [(level, msg)]) w).

(** A file-system operation run on the disk of the world. *)
Definition on_disk {A : Type} (op : FS -> FS * result A) : M World A :=
  fun w => let '(f, r) := op (fs w) in Some (set_fs f w, r).

(** [datetime.fromtimestamp(ts)] in the zone of the machine: the offset is
    the one in force at [ts]. *)
Definition local_time (env : Env) (ts : Z) : result DateTime :=
  fromtimestamp (utc_offset env ts) ts.

(** [datetime.now()]: the clock is read, and the next reading is a later
    one. *)
Definition now (env : Env) : M World DateTime :=
  fun w => Some (set_clock (clock_after env (clock w)) w, local_time env (clock w)).

(** [self.logs_accumulated = True] *)
Definition mark_logs_accumulated : M World unit :=
  modify (fun w => set_flush_state (last_log_upload_time w) true w).

(** *** The steps *)

(** [await self.wait_for_file_stable(file_path)], with the default
    timeout of 30 seconds, on what the wait observes of [file_path]. *)
Definition wait_for_file_stable (env : Env) (file_path : Path) : M World bool :=
  fun w =>
    match Stability.wait_for_file_stable (observed env file_path) 30 with
    | Some (r, _) => Some (w, r)
    | None => None
    end.

(** [pd.read_csv(file_path)] *)
Definition read_csv (env : Env) (file_path : Path) : M World RowFilter.DataFrame :=
  fun w =>
    match read_file (fs w) file_path with
    | Ok content => Some (w, parse_csv env content)
    | Raise e => Some (w, Raise e)
    end.

(** The path [save_temp_file] writes to when the clock reads [t]. *)
Definition temp_file_at (cfg : Config) (t : DateTime) (original_file : Path) : Path :=
  path_div (temp_folder cfg)
           ("filtered_" +:+ stem original_file +:+ "_" +:+ strftime_stamp t +:+ ".csv").

(** The staged file carries the time that [datetime.now()] read. *)
Definition save_temp_file (cfg : Config) (env : Env)
    (df : RowFilter.DataFrame) (original_file : Path) : M World Path :=
  let temp_dir := temp_folder cfg in
  on_disk (mkdir temp_dir);;
  w ← get;
  t ← now env;
  let temp_file := temp_file_at cfg t original_file in
  on_disk (write_file temp_file (clock w) (print_csv env df));;
  mret temp_file.

(** The key [upload_to_minio] uploads [file_path] under when the clock
    reads [t]. *)
Definition s3_key_at (cfg : Config) (t : DateTime) (file_path : Path) : string :=
  default "processed"%string (s3_prefix cfg)
    +:+ "/" +:+ strftime_date "/" t +:+ "/" +:+ name file_path.

(** [s3.upload_file(Filename, Bucket, Key)]: the file is read, the
    request is sent, and the object is stored when the store accepts
    it. *)
Definition upload_file (env : Env) (filename : Path) (bucket key : string)
  : M World unit :=
  fun w =>
    match read_file (fs w) filename with
    | Raise e => Some (w, Raise e)
    | Ok content =>
        let request := UploadFile filename bucket key in
        match s3_reply env request with
        | Ok _ =>
            Some (set_store (<[key := Bytes content]> (objects w))
                            (requests w ++ [request]) w, Ok tt)
        | Raise e =>
            Some (set_store (objects w) (requests w ++ [request]) w, Raise e)
        end
    end.

Definition upload_to_minio (cfg : Config) (env : Env)
    (file_path original_file : Path) : M World string :=
  try_except
    (t ← now env;
     let s3_key := s3_key_at cfg t file_path in
     upload_file env file_path (bucket_name cfg) s3_key;;
     mret s3_key)
    (fun e => emit ERROR (MsgUploadError e);; raise e).

(** The path [archive_source_file] moves a file of modification time
    [file_time] to. *)
Definition archive_path_at (cfg : Config) (file_time : DateTime) (file_path : Path)
  : Path :=
  let archive_dir := archive_folder cfg in
  let date_structure := strftime_date "/" file_time in
  path_div (path_div archive_dir date_structure) (name file_path).

Definition archive_source_file (cfg : Config) (env : Env) (file_path : Path)
  : M World unit :=
  try_except
    (w ← get;
     mtime ← lift (st_mtime (fs w) file_path);
     file_time ← lift (local_time env mtime);
     let archive_path := archive_path_at cfg file_time file_path in
     on_disk (mkdir_parents (parent archive_path));;
     on_disk (rename file_path archive_path))
    (fun e => emit ERROR (MsgArchiveError e)).

(** *** The semaphore and the in-flight set *)

(** [await self.semaphore.acquire()]: suspended while the value is 0. *)
Definition acquire : M World unit :=
  fun w =>
    match semaphore w with
    | O => None
    | S n => Some (set_semaphore n w, Ok tt)
    end.

Definition release : M World unit :=
  modify (fun w => set_semaphore (S (semaphore w)) w).

(** [async with self.semaphore: body] *)
Definition with_semaphore {A : Type} (body : M World A) : M World A :=
  acquire;; finally body release.

(** [self.processing_files.add(file_path)] *)
Definition add_processing (file_path : Path) : M World unit :=
  modify (fun w => set_processing_files ({[file_path]} ∪ processing_files w) w).

(** [self.processing_files.remove(file_path)]: a [KeyError] when the path
    is not in the set. *)
Definition remove_processing (file_path : Path) : M World unit :=
  fun w =>
    if decide (file_path ∈ processing_files w) then
      Some (set_processing_files (processing_files w ∖ {[file_path]}) w, Ok tt)
    else Some (w, Raise (OtherError "KeyError")).

(** *** [process_file] *)

(** The body of the [try] block: steps 3 to 9 of the workflow and, at its
    end, the mark of accumulated logs.  A [return] inside the block ends
    it with [mret tt]. *)
Definition steps (cfg : Config) (env : Env) (file_path : Path) : M World unit :=
  emit INFO (MsgStart (name file_path));;
  stable ← wait_for_file_stable env file_path;
  if negb stable then mret tt else
  df ← read_csv env file_path;
  if RowFilter.empty df then mret tt else
  filtered_df ← lift (RowFilter.filter_data (filter_conditions cfg) df);
  temp_file ← save_temp_file cfg env filtered_df file_path;
  s3_key ← upload_to_minio cfg env temp_file file_path;
  archive_source_file cfg env file_path;;
  on_disk (unlink temp_file);;
  emit INFO (MsgProcessed s3_key);;
  mark_logs_accumulated.

(** The [except Exception as e] block. *)
Definition on_error (e : exn) : M World unit :=
  emit ERROR (MsgError e);;
  mark_logs_accumulated.

Definition process_file (cfg : Config) (env : Env) (file_path : Path) : M World unit :=
  with_semaphore
    (w ← get;
     if decide (file_path ∈ processing_files w) then mret tt else
     add_processing file_path;;
     finally
       (try_except (steps cfg env file_path) on_error)
       (remove_processing file_path)).

(** The world in which the [try] block of [process_file] starts: a slot
    of the semaphore is taken and the path is in the in-flight set. *)
Definition entered (file_path : Path) (w : World) : World :=
  set_processing_files ({[file_path]} ∪ processing_files w)
                       (set_semaphore (Nat.pred (semaphore w)) w).

(** The world past the [finally] clause and the end of [async with]: the
    path is out of the set, the slot is back. *)
Definition exited (file_path : Path) (w : World) : World :=
  set_semaphore (S (semaphore w))
                (set_processing_files (processing_files w ∖ {[file_path]}) w).

(** The world past the [except] block. *)
Definition failed (e : exn) (w : World) : World :=
  set_flush_state (last_log_upload_time w) true
    (set_logs (log_file w ++ [(ERROR, MsgError e)])
              (console w ++ [(ERROR, MsgError e)]) w).

(** The world past the first line of the [try] block. *)
Definition started (file_path : Path) (w : World) : World :=
  set_logs (log_file w ++ [(INFO, MsgStart (name file_path))])
           (console w ++ [(INFO, MsgStart (name file_path))]) w.

(** A method that, when it returns, leaves the in-flight set and the
    semaphore as they were. *)
Definition keeps_in_flight {A : Type} (m : M World A) : Prop :=
  forall w w' r, m w = Some (w', r) ->
    processing_files w' = processing_files w /\ semaphore w' = semaphore w.

(** A method that returns or raises from every world. *)
Definition returns {A : Type} (m : M World A) : Prop :=
  forall w, exists w' r, m w = Some (w', r).

(** *** A sample run: the defaults of [config.py] and one input file *)

Definition sample_config : Config :=
  {| bucket_name := "bucketmaks";
     temp_folder := ["data"; "temp"]%string;
     archive_folder := ["data"; "archive"]%string;
     s3_prefix := Some "processed-data"%string;
     max_concurrent_files := Some 5%nat;
     filter_conditions := RowFilter.default_config |}.

Definition sample_file : Path := ["data"; "input"; "batch.csv"]%string.

(** A machine on UTC whose clock reads the same second twice in a run; a
    parser that reads the empty text as a frame without rows and any
    other text as the frame [RowFilter.batch]; the store answers
    [reply]. *)
Definition sample_env (reply : Request -> result unit) : Env :=
  {| utc_offset := fun _ => 0;
     clock_after := fun t => t;
     observed := fun _ => Stability.exact_clock (fun _ => Ok 120);
     parse_csv := fun content =>
       if String.eqb content EmptyString
       then Ok {| RowFilter.columns := ["name"; "age"]%string; RowFilter.rows := [] |}
       else Ok RowFilter.batch;
     print_csv := fun df => "name,age"%string;
     s3_reply := reply |}.

(** The input file, last modified on 2023-11-14, in the folders that
    [create_folders] made; the clock reads 2024-12-18 14:30:25. *)
Definition sample_world (content : Content) (in_flight : gset (list string)) : World :=
  {| fs := {[ ["data"%string] := Dir;
              ["data"; "input"]%string := Dir;
              ["data"; "temp"]%string := Dir;
              ["data"; "archive"]%string := Dir;
              sample_file := File 1700000000 content ]};
     objects := ∅; requests := []; log_file := []; console := [];
     processing_files := in_flight; semaphore := 5;
     last_log_upload_time := 1734532000; logs_accumulated := false;
     clock := 1734532225 |}.

Definition sample_staged_file : Path :=
  ["data"; "temp"; "filtered_batch_20241218_143025.csv"]%string.

Definition sample_key : string :=
  "processed-data/2024/12/18/filtered_batch_20241218_143025.csv".

Definition refused : exn := OtherError "connection refused".

(** The sample world once the filtered rows are staged. *)
Definition sample_staged : World :=
  let w1 := started sample_file (entered sample_file (sample_world "name,age" ∅)) in
  set_fs (<[sample_staged_file := File 1734532225 "name,age"]> (fs w1)) w1.

(** The staged sample world once the store has refused the upload. *)
Definition sample_refused : World :=
  let w2 := sample_staged in
  set_logs (log_file w2 ++ [(ERROR, MsgUploadError refused)])
           (console w2 ++ [(ERROR, MsgUploadError refused)])
           (set_store (objects w2)
                      (requests w2 ++ [UploadFile sample_staged_file "bucketmaks" sample_key])
                      w2).

(** The destination in the archive of a file named [file_name] whose
    modification time reads [file_time]:
    archive_root/YYYY/MM/DD/file_name, the year as [%Y] prints it. *)
Definition archive_destination (cfg : Config) (file_time : DateTime) (file_name : string)
  : Path :=
  archive_folder cfg
    ++ [year_text (year file_time); pad2 (month file_time); pad2 (day file_time)]
    ++ [file_name].

Lemma archive_path_at_destination (cfg : Config) (file_time : DateTime) (file_path : Path) :
  parts (name file_path) = [name file_path] ->
  archive_path_at cfg file_time file_path
  = archive_destination cfg file_time (name file_path).
Proof.
  intros Hname. unfold archive_path_at, archive_destination, path_div.
  rewrite parts_date, Hname, <- app_assoc. reflexivity.
Qed.

(** C6.  A regular file at [file_path], last modified at [mtime], is
    moved by [archive_source_file] to
    archive_root/YYYY/MM/DD/name, the date being that of [mtime] in local
    time (with the offset in force at [mtime]) and not that of the clock:
    the file (content and modification time) is at the destination
    afterwards and no longer at [file_path], every directory on the way
    to it exists, and nothing is logged.  The year is printed as [%Y]
    prints it, with four digits from the year 1000 on.  This assumes
    what the move needs on the disk: no regular file in the way of the
    directories, no directory at the destination.  The outcome on the
    disk is a function of the disk alone: a world of another clock (or
    in-flight set, or log) with the same disk ends with the same disk, so
    archiving the same file with the same modification time again leads
    to the same destination. *)
Theorem archive_source_file_by_mtime (cfg : Config) (env : Env) (w : World)
    (file_path : Path) (mtime : Z) (content : Content) (file_time : DateTime) :
  fs w !! file_path = Some (File mtime content) ->
  local_time env mtime = Ok file_time ->
  parts (name file_path) = [name file_path] ->
  let dest := archive_destination cfg file_time (name file_path) in
  free_way (fs w) (parent dest) = true ->
  fs w !! dest <> Some Dir ->
  (1000 <= year file_time -> String.length (year_text (year file_time)) = 4%nat)
  /\ exists w',
    archive_source_file cfg env file_path w = Some (w', Ok tt)
    /\ fs w' !! dest = Some (File mtime content)
    /\ (file_path <> dest -> fs w' !! file_path = None)
    /\ (forall q, q ∈ prefixes (parent dest) -> fs w' !! q = Some Dir)
    /\ console w' = console w
    /\ (forall w2, fs w2 = fs w ->
          exists w2', archive_source_file cfg env file_path w2 = Some (w2', Ok tt)
                      /\ fs w2' = fs w').
Proof.
  intros Hfile Htime Hname dest Hfree Hdest.
  split.
  { intros Hy. apply year_text_four_digits.
    pose proof (fromtimestamp_year _ _ _ Htime). lia. }
  assert (Hparent : parent dest = archive_folder cfg
            ++ [year_text (year file_time); pad2 (month file_time); pad2 (day file_time)]).
  { unfold dest, archive_destination, parent. rewrite app_assoc. apply removelast_last. }
  assert (Hdest_ne : dest <> []).
  { unfold dest, archive_destination. intros H.
    apply app_eq_nil in H as [_ H]. discriminate. }
  assert (Hdest_split : dest = parent dest ++ [name file_path]).
  { rewrite Hparent. unfold dest, archive_destination. rewrite app_assoc. reflexivity. }
  destruct (mkdir_parents_ok (parent dest) (fs w) Hfree) as (fs1 & Hmk & Hdirs & Hframe).
  assert (Hsrc_not_dir : file_path ∉ prefixes (parent dest)).
  { intros Hin. unfold free_way in Hfree. rewrite forallb_forall in Hfree.
    apply list_elem_of_In, Hfree in Hin. unfold is_file in Hin.
    rewrite Hfile in Hin. discriminate. }
  assert (Hdest_not_dir : dest ∉ prefixes (parent dest)).
  { intros Hin. apply elem_of_prefixes in Hin as [_ [l2 Hl2]].
    apply (f_equal length) in Hl2, Hdest_split.
    rewrite length_app in Hl2, Hdest_split. simpl in Hdest_split. lia. }
  assert (Hneed : need_dir fs1 (parent dest) = None).
  { apply need_dir_of_dir, Hdirs, elem_of_prefixes. split; [| exists []; rewrite app_nil_r; reflexivity].
    rewrite Hparent. intros H. apply app_eq_nil in H as [_ H]. discriminate. }
  assert (Hrename : rename file_path dest fs1
            = (<[dest := File mtime content]> (delete file_path fs1), Ok tt)).
  { apply rename_ok; [| exact Hneed | exact Hdest_ne |].
    - rewrite Hframe by exact Hsrc_not_dir. exact Hfile.
    - rewrite Hframe by exact Hdest_not_dir. exact Hdest. }
  assert (Hrun : forall w2, fs w2 = fs w ->
            archive_source_file cfg env file_path w2
            = Some (set_fs (<[dest := File mtime content]> (delete file_path fs1))
                           (set_fs fs1 w2), Ok tt)).
  { intros w2 Hfs. unfold archive_source_file, try_except, mbind, M_bind, bind, get, lift.
    rewrite Hfs. unfold st_mtime at 1. rewrite Hfile, Htime.
    rewrite (archive_path_at_destination cfg file_time file_path Hname).
    fold dest. unfold on_disk. rewrite Hfs, Hmk. simpl. rewrite Hrename. reflexivity. }
  eexists. split; [apply Hrun; reflexivity |]. simpl.
  split; [apply lookup_insert_eq |].
  split; [intros Hne; rewrite lookup_insert_ne by congruence; apply lookup_delete_eq |].
  split.
  - intros q Hq. rewrite lookup_insert_ne by (intros ->; contradiction).
    rewrite lookup_delete_ne by (intros ->; contradiction). apply Hdirs, Hq.
  - split; [reflexivity |].
    intros w2 Hfs. eexists. split; [apply Hrun; exact Hfs | reflexivity].
Qed.

(** C6 at the sample file: modified on 2023-11-14, archived while the
    clock reads 2024-12-18, it lands in data/archive/2023/11/14. *)
Lemma archive_source_file_by_mtime_witness :
  let w := sample_world "name,age" ∅ in
  let dest := ["data"; "archive"; "2023"; "11"; "14"; "batch.csv"]%string in
  (1000 <= 2023 -> String.length (year_text 2023) = 4%nat)
  /\ exists w',
    archive_source_file sample_config (sample_env (fun _ => Ok tt)) sample_file w
    = Some (w', Ok tt)
    /\ fs w' !! dest = Some (File 1700000000 "name,age")
    /\ (sample_file <> dest -> fs w' !! sample_file = None)
    /\ (forall q, q ∈ prefixes (parent dest) -> fs w' !! q = Some Dir)
    /\ console w' = console w
    /\ (forall w2, fs w2 = fs w ->
          exists w2',
            archive_source_file sample_config (sample_env (fun _ => Ok tt)) sample_file w2
            = Some (w2', Ok tt)
            /\ fs w2' = fs w').
Proof.
  exact (archive_source_file_by_mtime sample_config (sample_env (fun _ => Ok tt))
           (sample_world "name,age" ∅) sample_file 1700000000 "name,age"
           {| year := 2023; month := 11; day := 14;
              hour := 22; minute := 13; second := 20 |}
           eq_refl eq_refl eq_refl eq_refl ltac:(vm_compute; discriminate)).
Defined.

(** *** What the steps leave alone, and that they return *)

Section Frame.
Context {A B : Type}.

Lemma keeps_ret (a : A) : keeps_in_flight (mret a).
Proof. intros w w' r [= <- _]. split; reflexivity. Qed.

Lemma keeps_raise (e : exn) : keeps_in_flight (raise e : M World A).
Proof. intros w w' r [= <- _]. split; reflexivity. Qed.

Lemma keeps_lift (r0 : result A) : keeps_in_flight (lift r0).
Proof. intros w w' r [= <- _]. split; reflexivity. Qed.

Lemma keeps_bind (m : M World A) (k : A -> M World B) :
  keeps_in_flight m -> (forall a, keeps_in_flight (k a)) -> keeps_in_flight (m ≫= k).
Proof.
  intros Hm Hk w w' r H. unfold mbind, M_bind, bind in H.
  destruct (m w) as [[w1 [a | e]] |] eqn:E; [| | discriminate].
  - destruct (Hm _ _ _ E) as [H1 H2]. destruct (Hk a _ _ _ H) as [H3 H4].
    split; congruence.
  - injection H as <- _. exact (Hm _ _ _ E).
Qed.

Lemma keeps_try_except (m : M World A) (h : exn -> M World A) :
  keeps_in_flight m -> (forall e, keeps_in_flight (h e)) ->
  keeps_in_flight (try_except m h).
Proof.
  intros Hm Hh w w' r H. unfold try_except in H.
  destruct (m w) as [[w1 [a | e]] |] eqn:E; [| | discriminate].
  - injection H as <- _. exact (Hm _ _ _ E).
  - destruct (Hm _ _ _ E) as [H1 H2]. destruct (Hh e _ _ _ H) as [H3 H4].
    split; congruence.
Qed.

Lemma returns_ret (a : A) : returns (mret a).
Proof. intros w. eexists _, _. reflexivity. Qed.

Lemma returns_raise (e : exn) : returns (raise e : M World A).
Proof. intros w. eexists _, _. reflexivity. Qed.

Lemma returns_lift (r0 : result A) : returns (lift r0).
Proof. intros w. eexists _, _. reflexivity. Qed.

Lemma returns_bind (m : M World A) (k : A -> M World B) :
  returns m -> (forall a, returns (k a)) -> returns (m ≫= k).
Proof.
  intros Hm Hk w. unfold mbind, M_bind, bind.
  destruct (Hm w) as (w1 & [a | e] & ->); [apply Hk | eauto].
Qed.

Lemma returns_try_except (m : M World A) (h : exn -> M World A) :
  returns m -> (forall e, returns (h e)) -> returns (try_except m h).
Proof.
  intros Hm Hh w. unfold try_except.
  destruct (Hm w) as (w1 & [a | e] & ->); [eauto | apply Hh].
Qed.

End Frame.

Lemma keeps_get : keeps_in_flight (get : M World World).
Proof. intros w w' r [= <- _]. split; reflexivity. Qed.
Lemma returns_get : returns (get : M World World).
Proof. intros w. eexists _, _. reflexivity. Qed.

Lemma keeps_emit level msg : keeps_in_flight (emit level msg).
Proof. intros w w' r [= <- _]. split; reflexivity. Qed.
Lemma returns_emit level msg : returns (emit level msg).
Proof. intros w. eexists _, _. reflexivity. Qed.

Lemma keeps_mark : keeps_in_flight mark_logs_accumulated.
Proof. intros w w' r [= <- _]. split; reflexivity. Qed.
Lemma returns_mark : returns mark_logs_accumulated.
Proof. intros w. eexists _, _. reflexivity. Qed.

Lemma keeps_on_disk {A : Type} (op : FS -> FS * result A) : keeps_in_flight (on_disk op).
Proof.
  intros w w' r H. unfold on_disk in H. destruct (op (fs w)) as [f r0].
  injection H as <- _. split; reflexivity.
Qed.
Lemma returns_on_disk {A : Type} (op : FS -> FS * result A) : returns (on_disk op).
Proof. intros w. unfold on_disk. destruct (op (fs w)). eexists _, _. reflexivity. Qed.

Lemma keeps_now env : keeps_in_flight (now env).
Proof. intros w w' r [= <- _]. split; reflexivity. Qed.
Lemma returns_now env : returns (now env).
Proof. intros w. eexists _, _. reflexivity. Qed.

Lemma keeps_wait env p : keeps_in_flight (wait_for_file_stable env p).
Proof.
  intros w w' r H. unfold wait_for_file_stable in H.
  destruct (Stability.wait_for_file_stable _ _) as [[r0 tr] |]; [| discriminate].
  injection H as <- _. split; reflexivity.
Qed.
Lemma returns_wait env p :
  Stability.punctual (observed env p) -> returns (wait_for_file_stable env p).
Proof.
  intros Hp w. unfold wait_for_file_stable.
  destruct (Stability.wait_for_file_stable_returns _ 30 Hp) as (r & tr & ->).
  eexists _, _. reflexivity.
Qed.

Lemma keeps_read_csv env p : keeps_in_flight (read_csv env p).
Proof.
  intros w w' r H. unfold read_csv in H.
  destruct (read_file (fs w) p); injection H as <- _; split; reflexivity.
Qed.
Lemma returns_read_csv env p : returns (read_csv env p).
Proof. intros w. unfold read_csv. destruct (read_file (fs w) p); eexists _, _; reflexivity. Qed.

Lemma keeps_upload_file env f b k : keeps_in_flight (upload_file env f b k).
Proof.
  intros w w' r H. unfold upload_file in H.
  destruct (read_file (fs w) f); [| injection H as <- _; split; reflexivity].
  destruct (s3_reply env _); injection H as <- _; split; reflexivity.
Qed.
Lemma returns_upload_file env f b k : returns (upload_file env f b k).
Proof.
  intros w. unfold upload_file.
  destruct (read_file (fs w) f); [| eexists _, _; reflexivity].
  destruct (s3_reply env _); eexists _, _; reflexivity.
Qed.

(** The lemmas above, for the composition of steps. *)
Create HintDb frame.
#[local] Hint Resolve keeps_ret keeps_raise keeps_lift keeps_bind keeps_try_except
  keeps_get keeps_emit keeps_mark keeps_on_disk keeps_now keeps_wait keeps_read_csv
  keeps_upload_file
  returns_ret returns_raise returns_lift returns_bind returns_try_except
  returns_get returns_emit returns_mark returns_on_disk returns_now returns_wait
  returns_read_csv returns_upload_file : frame.

(** Walks the binds, the [try] statements and the branches of a method. *)
Ltac frame :=
  repeat first
    [ progress intros
    | apply keeps_bind | apply keeps_try_except
    | apply returns_bind | apply returns_try_except
    | match goal with
      | |- keeps_in_flight (if ?b then _ else _) => destruct b
      | |- returns (if ?b then _ else _) => destruct b
      end
    | solve [eauto with frame] ].

Lemma keeps_steps cfg env p : keeps_in_flight (steps cfg env p).
Proof.
  unfold steps, save_temp_file, upload_to_minio, archive_source_file. frame.
Qed.

Lemma returns_steps cfg env p :
  Stability.punctual (observed env p) -> returns (steps cfg env p).
Proof.
  intros Hp. unfold steps, save_temp_file, upload_to_minio, archive_source_file. frame.
Qed.

(** *** The shape of a run of [process_file] *)

Lemma on_error_run (e : exn) (w : World) : on_error e w = Some (failed e w, Ok tt).
Proof. reflexivity. Qed.

(** The [try] statement of [process_file] never raises. *)
Lemma try_steps_Ok cfg env p w w2 r :
  try_except (steps cfg env p) on_error w = Some (w2, r) -> r = Ok tt.
Proof.
  unfold try_except. destruct (steps cfg env p w) as [[w1 [[] | e]] |]; [| | discriminate].
  - intros [= _ <-]. reflexivity.
  - rewrite on_error_run. intros [= _ <-]. reflexivity.
Qed.

Lemma keeps_try_steps cfg env p : keeps_in_flight (try_except (steps cfg env p) on_error).
Proof.
  apply keeps_try_except; [apply keeps_steps |].
  intros e w w' r. rewrite on_error_run. intros [= <- _]. split; reflexivity.
Qed.

(** [process_file] on a path that is not in flight, with a free slot:
    the outcome of the [try] statement, followed by the [finally] clause
    and the release of the slot. *)
Lemma process_file_run cfg env p w w2 r :
  (0 < semaphore w)%nat ->
  p ∉ processing_files w ->
  try_except (steps cfg env p) on_error (entered p w) = Some (w2, r) ->
  process_file cfg env p w = Some (exited p w2, Ok tt).
Proof.
  intros Hsem Hnew Htry.
  pose proof (try_steps_Ok _ _ _ _ _ _ Htry) as ->.
  destruct (keeps_try_steps _ _ _ _ _ _ Htry) as [Hpf Hs].
  unfold process_file, with_semaphore, acquire, finally, mbind, M_bind, bind, get.
  destruct (semaphore w) as [| n] eqn:Hn; [lia |]. simpl.
  destruct (decide (p ∈ processing_files w)) as [Hin | _]; [contradiction |].
  unfold add_processing, modify. simpl.
  unfold entered in Htry. rewrite Hn in Htry. simpl in Htry. rewrite Htry.
  unfold remove_processing.
  destruct (decide (p ∈ processing_files w2)) as [_ | Hout].
  - reflexivity.
  - exfalso. apply Hout. rewrite Hpf. unfold entered. simpl.
    apply elem_of_union_l, elem_of_singleton. reflexivity.
Qed.

(** Without a free slot the task stays suspended at [async with]. *)
Lemma process_file_suspended cfg env p w :
  semaphore w = 0%nat -> process_file cfg env p w = None.
Proof.
  intros H. unfold process_file, with_semaphore, acquire, mbind, M_bind, bind.
  rewrite H. reflexivity.
Qed.

(** A path already in flight: the task returns at once and changes
    nothing; the path stays in the set for the task that owns it. *)
Lemma process_file_duplicate cfg env p w :
  (0 < semaphore w)%nat -> p ∈ processing_files w ->
  exists w', process_file cfg env p w = Some (w', Ok tt)
    /\ processing_files w' = processing_files w /\ semaphore w' = semaphore w
    /\ fs w' = fs w /\ requests w' = requests w /\ console w' = console w.
Proof.
  intros Hsem Hin.
  unfold process_file, with_semaphore, acquire, finally, mbind, M_bind, bind, get.
  destruct (semaphore w) as [| n] eqn:Hn; [lia |]. simpl.
  destruct (decide (p ∈ processing_files w)) as [_ | Hout]; [| contradiction].
  simpl. eexists. split; [reflexivity |]. simpl. auto.
Qed.

Lemma add_remove (p : Path) (X : gset (list string)) :
  p ∉ X -> ({[p]} ∪ X) ∖ {[p]} = X.
Proof.
  intros Hp. apply set_eq. intros x.
  rewrite elem_of_difference, elem_of_union, elem_of_singleton. split.
  - intros [[-> | Hx] Hne]; [congruence | exact Hx].
  - intros Hx. split; [right; exact Hx | intros ->; contradiction].
Qed.

Lemma exited_entered_in_flight p w w2 :
  (0 < semaphore w)%nat -> p ∉ processing_files w ->
  processing_files w2 = processing_files (entered p w) ->
  semaphore w2 = semaphore (entered p w) ->
  processing_files (exited p w2) = processing_files w
  /\ semaphore (exited p w2) = semaphore w.
Proof.
  intros Hsem Hnew Hpf Hs. unfold exited. simpl. rewrite Hpf, Hs. unfold entered. simpl.
  split; [apply add_remove, Hnew | lia].
Qed.

(** C7.  With a free slot, a path that is not in flight and sleeps that
    do not return early, [process_file] returns normally: no exception
    leaves it.  The in-flight set and the semaphore are afterwards what
    they were, so the other workflows keep their entries and slots.  When
    the steps raise an exception [e] in a world [w2], the run ends in
    that world with the [except] block, the [finally] clause and the
    release of the slot applied: the error is logged, and the disk, the
    bucket and the requests sent are those of [w2] (nothing is tried
    again). *)
Theorem process_file_contains_errors (cfg : Config) (env : Env) (file_path : Path)
    (w : World) :
  (0 < semaphore w)%nat ->
  file_path ∉ processing_files w ->
  Stability.punctual (observed env file_path) ->
  exists w',
    process_file cfg env file_path w = Some (w', Ok tt)
    /\ processing_files w' = processing_files w
    /\ semaphore w' = semaphore w
    /\ forall w2 e,
         steps cfg env file_path (entered file_path w) = Some (w2, Raise e) ->
         w' = exited file_path (failed e w2)
         /\ console w' = console w2 ++ [(ERROR, MsgError e)]
         /\ fs w' = fs w2 /\ objects w' = objects w2 /\ requests w' = requests w2.
Proof.
  intros Hsem Hnew Hp.
  destruct (returns_try_except _ _ (returns_steps cfg env file_path Hp)
              (fun e w => ex_intro _ _ (ex_intro _ _ (on_error_run e w)))
              (entered file_path w)) as (w2 & r & Htry).
  pose proof (process_file_run _ _ _ _ _ _ Hsem Hnew Htry) as Hrun.
  destruct (keeps_try_steps _ _ _ _ _ _ Htry) as [Hpf Hs].
  destruct (exited_entered_in_flight file_path w w2 Hsem Hnew Hpf Hs) as [Hpf' Hs'].
  exists (exited file_path w2). split; [exact Hrun |].
  split; [exact Hpf' |]. split; [exact Hs' |].
  intros w3 e Hsteps. unfold try_except in Htry. rewrite Hsteps, on_error_run in Htry.
  injection Htry as <- _. repeat split; reflexivity.
Qed.

Arguments Stability.wait_for_file_stable : simpl never.

(** The statement of C7 at the sample file, with a store that refuses the
    upload. *)
Lemma process_file_contains_errors_witness :
  let env := sample_env (fun _ => Raise refused) in
  let w := sample_world "name,age" ∅ in
  exists w',
    process_file sample_config env sample_file w = Some (w', Ok tt)
    /\ processing_files w' = processing_files w
    /\ semaphore w' = semaphore w
    /\ forall w2 e,
         steps sample_config env sample_file (entered sample_file w) = Some (w2, Raise e) ->
         w' = exited sample_file (failed e w2)
         /\ console w' = console w2 ++ [(ERROR, MsgError e)]
         /\ fs w' = fs w2 /\ objects w' = objects w2 /\ requests w' = requests w2.
Proof.
  apply (process_file_contains_errors sample_config
           (sample_env (fun _ => Raise refused))
           sample_file (sample_world "name,age" ∅)).
  - simpl. lia.
  - apply not_elem_of_empty.
  - intros t d. simpl. lia.
Defined.

(** In that sample run the steps do raise: the refused upload of step 7. *)
Example steps_raise_on_refused_upload :
  steps sample_config (sample_env (fun _ => Raise refused)) sample_file
        (entered sample_file (sample_world "name,age" ∅))
  = Some (sample_refused, Raise refused).
Proof. vm_compute. reflexivity. Qed.

Lemma try_except_Ok {S A : Type} (m : M S A) (h : exn -> M S A) s s' a :
  m s = Some (s', Ok a) -> try_except m h s = Some (s', Ok a).
Proof. intros H. unfold try_except. rewrite H. reflexivity. Qed.

Lemma try_except_Raise {S A : Type} (m : M S A) (h : exn -> M S A) s s' e :
  m s = Some (s', Raise e) -> try_except m h s = h e s'.
Proof. intros H. unfold try_except. rewrite H. reflexivity. Qed.

(** The [try] block when the wait reports the file not stable: the first
    [return]. *)
Lemma steps_unstable cfg env p w1 tr :
  Stability.wait_for_file_stable (observed env p) 30 = Some (Ok false, tr) ->
  steps cfg env p w1
  = Some (started p w1, Ok tt).
Proof.
  intros Hwait. unfold steps, mbind, M_bind, bind, emit, modify, wait_for_file_stable.
  rewrite Hwait. reflexivity.
Qed.

(** A workflow whose file never becomes stable ends with the flush state
    it started with. *)
Lemma process_file_unstable cfg env p w tr :
  (0 < semaphore w)%nat ->
  p ∉ processing_files w ->
  Stability.wait_for_file_stable (observed env p) 30 = Some (Ok false, tr) ->
  process_file cfg env p w = Some (exited p (started p (entered p w)), Ok tt)
  /\ logs_accumulated (exited p (started p (entered p w))) = logs_accumulated w.
Proof.
  intros Hsem Hnew Hwait. split; [| reflexivity].
  apply process_file_run with (r := Ok tt); [exact Hsem | exact Hnew |].
  apply try_except_Ok, steps_unstable with (tr := tr), Hwait.
Qed.

(** The [try] block when the wait reports the file stable and the file
    parses: what remains from the test of [df.empty] on. *)
Lemma steps_stable cfg env p w1 tr content df :
  Stability.wait_for_file_stable (observed env p) 30 = Some (Ok true, tr) ->
  read_file (fs w1) p = Ok content ->
  parse_csv env content = Ok df ->
  steps cfg env p w1
  = (if RowFilter.empty df then mret tt else
     filtered_df ← lift (RowFilter.filter_data (filter_conditions cfg) df);
     temp_file ← save_temp_file cfg env filtered_df p;
     s3_key ← upload_to_minio cfg env temp_file p;
     archive_source_file cfg env p;;
     on_disk (unlink temp_file);;
     emit INFO (MsgProcessed s3_key);;
     mark_logs_accumulated)
      (started p w1).
Proof.
  intros Hwait Hread Hparse.
  unfold steps, mbind at 1 2 3, M_bind at 1 2 3, bind at 1 2 3, emit, modify, wait_for_file_stable.
  rewrite Hwait. unfold read_csv. cbn [negb fs set_logs]. rewrite Hread, Hparse. reflexivity.
Qed.

Lemma empty_of_no_rows (df : RowFilter.DataFrame) :
  RowFilter.rows df = [] -> RowFilter.empty df = true.
Proof.
  unfold RowFilter.empty. intros ->. destruct (RowFilter.columns df); reflexivity.
Qed.

(** C8.  When the wait reports the file stable and the frame read from
    it has no rows, [process_file] returns without an exception and
    without any later effect: the disk is unchanged (no staged file, the
    source where it was), nothing is stored in the bucket, no request is
    sent, and the only record logged is the start of the processing. *)
Theorem process_file_skips_empty (cfg : Config) (env : Env) (file_path : Path)
    (w : World) (trace : list Stability.Read) (content : Content)
    (df : RowFilter.DataFrame) :
  (0 < semaphore w)%nat ->
  file_path ∉ processing_files w ->
  Stability.wait_for_file_stable (observed env file_path) 30 = Some (Ok true, trace) ->
  read_file (fs w) file_path = Ok content ->
  parse_csv env content = Ok df ->
  RowFilter.rows df = [] ->
  exists w',
    process_file cfg env file_path w = Some (w', Ok tt)
    /\ fs w' = fs w
    /\ objects w' = objects w
    /\ requests w' = requests w
    /\ console w' = console w ++ [(INFO, MsgStart (name file_path))].
Proof.
  intros Hsem Hnew Hwait Hread Hparse Hrows.
  assert (Hsteps : steps cfg env file_path (entered file_path w)
                   = Some (started file_path (entered file_path w), Ok tt)).
  { rewrite (steps_stable cfg env file_path (entered file_path w) trace content df
               Hwait Hread Hparse).
    rewrite (empty_of_no_rows df Hrows). reflexivity. }
  exists (exited file_path (started file_path (entered file_path w))).
  split.
  - apply process_file_run with (r := Ok tt); [exact Hsem | exact Hnew |].
    apply try_except_Ok, Hsteps.
  - repeat split; reflexivity.
Qed.

(** The statement of C8 at the sample file holding a header and no row. *)
Lemma process_file_skips_empty_witness :
  let env := sample_env (fun _ => Ok tt) in
  let w := sample_world EmptyString ∅ in
  exists w',
    process_file sample_config env sample_file w = Some (w', Ok tt)
    /\ fs w' = fs w
    /\ objects w' = objects w
    /\ requests w' = requests w
    /\ console w' = console w ++ [(INFO, MsgStart (name sample_file))].
Proof.
  apply (process_file_skips_empty sample_config (sample_env (fun _ => Ok tt)) sample_file
           (sample_world EmptyString ∅)
           [Stability.Poll 0 (Ok 120); Stability.Poll 500 (Ok 120);
            Stability.Recheck 2500 (Ok 120)]
           EmptyString
           {| RowFilter.columns := ["name"; "age"]%string; RowFilter.rows := [] |}).
  - simpl. lia.
  - apply not_elem_of_empty.
  - reflexivity.
  - reflexivity.
  - reflexivity.
  - reflexivity.
Defined.

(** The path [save_temp_file] returns holds the printed frame. *)
Lemma save_temp_file_written cfg env df p w1 w2 temp_file :
  save_temp_file cfg env df p w1 = Some (w2, Ok temp_file) ->
  fs w2 !! temp_file = Some (File (clock w1) (print_csv env df)).
Proof.
  unfold save_temp_file, mbind, M_bind, bind, on_disk, now, get.
  destruct (mkdir (temp_folder cfg) (fs w1)) as [f1 [[] | e]]; [| discriminate].
  cbn [clock set_fs set_clock fs].
  destruct (local_time env (clock w1)) as [t | e]; [| discriminate].
  unfold write_file.
  destruct (need_dir f1 (parent (temp_file_at cfg t p))); [discriminate |].
  destruct (temp_file_at cfg t p) as [| c q] eqn:Hq; [discriminate |].
  destruct (f1 !! (c :: q)) as [[| m x] |]; try discriminate;
    intros [= <- <-]; apply lookup_insert_eq.
Qed.

(** [upload_to_minio] leaves the disk alone. *)
Lemma upload_to_minio_disk cfg env temp_file p w2 w3 r :
  upload_to_minio cfg env temp_file p w2 = Some (w3, r) -> fs w3 = fs w2.
Proof.
  unfold upload_to_minio, try_except, mbind, M_bind, bind, now, upload_file, emit, modify, raise.
  cbn [clock set_clock fs].
  destruct (local_time env (clock w2)) as [t | e].
  - destruct (read_file (fs w2) temp_file) as [content | e].
    + destruct (s3_reply env _); intros [= <- _]; reflexivity.
    + intros [= <- _]. reflexivity.
  - intros [= <- _]. reflexivity.
Qed.

(** C9.  When the filtered rows were staged in [temp_file] and the
    upload of step 7 raises [e], the workflow ends with the [except]
    block, the [finally] clause and the release of the slot: the staged
    file is still on the disk, as it was written, and the error is
    logged.  ([temp_file.unlink()] is the last but two statement of the
    [try] block and is not reached.) *)
Theorem staged_file_survives_failed_upload (cfg : Config) (env : Env) (file_path : Path)
    (w : World) (trace : list Stability.Read) (content : Content)
    (df filtered_df : RowFilter.DataFrame) (w2 w3 : World) (temp_file : Path) (e : exn) :
  (0 < semaphore w)%nat ->
  file_path ∉ processing_files w ->
  Stability.wait_for_file_stable (observed env file_path) 30 = Some (Ok true, trace) ->
  read_file (fs w) file_path = Ok content ->
  parse_csv env content = Ok df ->
  RowFilter.empty df = false ->
  RowFilter.filter_data (filter_conditions cfg) df = Ok filtered_df ->
  save_temp_file cfg env filtered_df file_path (started file_path (entered file_path w))
    = Some (w2, Ok temp_file) ->
  upload_to_minio cfg env temp_file file_path w2 = Some (w3, Raise e) ->
  exists w',
    process_file cfg env file_path w = Some (w', Ok tt)
    /\ w' = exited file_path (failed e w3)
    /\ fs w' !! temp_file = Some (File (clock w) (print_csv env filtered_df))
    /\ (ERROR, MsgError e) ∈ console w'.
Proof.
  intros Hsem Hnew Hwait Hread Hparse Hempty Hfilter Hsave Hupload.
  assert (Hsteps : steps cfg env file_path (entered file_path w) = Some (w3, Raise e)).
  { rewrite (steps_stable cfg env file_path (entered file_path w) trace content df
               Hwait Hread Hparse).
    rewrite Hempty. unfold mbind at 1, M_bind at 1, bind at 1, lift. rewrite Hfilter.
    unfold mbind at 1, M_bind at 1, bind at 1. rewrite Hsave.
    unfold mbind at 1, M_bind at 1, bind at 1. rewrite Hupload. reflexivity. }
  exists (exited file_path (failed e w3)). split.
  - apply process_file_run with (r := Ok tt); [exact Hsem | exact Hnew |].
    rewrite (try_except_Raise _ _ _ _ _ Hsteps). reflexivity.
  - split; [reflexivity |]. split.
    + cbn [exited failed fs set_semaphore set_processing_files set_flush_state set_logs].
      rewrite (upload_to_minio_disk _ _ _ _ _ _ _ Hupload).
      apply (save_temp_file_written _ _ _ _ _ _ _ Hsave).
    + cbn [exited failed console set_semaphore set_processing_files set_flush_state set_logs].
      apply elem_of_app. right. apply list_elem_of_singleton. reflexivity.
Qed.

(** The statement of C9 at the sample file, with a store that refuses the
    upload: the staged file of the run is still in data/temp. *)
Lemma staged_file_survives_failed_upload_witness :
  let env := sample_env (fun _ => Raise refused) in
  let w := sample_world "name,age" ∅ in
  exists w',
    process_file sample_config env sample_file w = Some (w', Ok tt)
    /\ w' = exited sample_file (failed refused sample_refused)
    /\ fs w' !! sample_staged_file
       = Some (File (clock w)
                 (print_csv env {| RowFilter.columns := ["name"; "age"]%string;
                                   RowFilter.rows := [ [RowFilter.Str "b"; RowFilter.Num 18];
                                                       [RowFilter.Str "c"; RowFilter.Num 40] ] |}))
    /\ (ERROR, MsgError refused) ∈ console w'.
Proof.
  apply (staged_file_survives_failed_upload sample_config
           (sample_env (fun _ => Raise refused)) sample_file
           (sample_world "name,age" ∅)
           [Stability.Poll 0 (Ok 120); Stability.Poll 500 (Ok 120);
            Stability.Recheck 2500 (Ok 120)]
           "name,age" RowFilter.batch
           {| RowFilter.columns := ["name"; "age"]%string;
              RowFilter.rows := [ [RowFilter.Str "b"; RowFilter.Num 18];
                                  [RowFilter.Str "c"; RowFilter.Num 40] ] |}
           sample_staged sample_refused sample_staged_file refused).
  - simpl. lia.
  - apply not_elem_of_empty.
  - reflexivity.
  - reflexivity.
  - reflexivity.
  - reflexivity.
  - reflexivity.
  - vm_compute. reflexivity.
  - vm_compute. reflexivity.
Defined.

(** On the path without exception the staged file is deleted. *)
Example staged_file_deleted_on_success :
  match process_file sample_config (sample_env (fun _ => Ok tt)) sample_file
          (sample_world "name,age" ∅) with
  | Some (w', Ok _) =>
      fs w' !! sample_staged_file = None
      /\ objects w' !! sample_key = Some (Bytes "name,age")
      /\ fs w' !! (["data"; "archive"; "2023"; "11"; "14"; "batch.csv"]%string)
         = Some (File 1700000000 "name,age")
      /\ logs_accumulated w' = true
  | _ => False
  end.
Proof. vm_compute. repeat split; reflexivity. Qed.

(** C2, evaluated where the code departs from it.  On the two early
    returns of the [try] block (the sample file vanishes during the
    stability wait; the sample file holds no rows) [process_file] ends
    with [logs_accumulated] still false, although the start of the
    processing was logged and the path was in flight: the [return]
    statements leave the block before [self.logs_accumulated = True]. *)
Theorem process_file_early_return_skips_mark :
  (let env := {| utc_offset := fun _ => 0;
                 clock_after := fun t => t;
                 observed := fun _ => Stability.exact_clock (fun _ => Raise FileNotFoundError);
                 parse_csv := fun _ => Ok RowFilter.batch;
                 print_csv := fun _ => "name,age"%string;
                 s3_reply := fun _ => Ok tt |} in
   match process_file sample_config env sample_file (sample_world "name,age" ∅) with
   | Some (w', Ok _) =>
       logs_accumulated w' = false
       /\ console w' = [(INFO, MsgStart "batch.csv")]
       /\ processing_files w' = ∅
   | _ => False
   end)
  /\ match process_file sample_config (sample_env (fun _ => Ok tt)) sample_file
             (sample_world EmptyString ∅) with
     | Some (w', Ok _) =>
         logs_accumulated w' = false
         /\ console w' = [(INFO, MsgStart "batch.csv")]
         /\ processing_files w' = ∅
     | _ => False
     end.
Proof. split; vm_compute; repeat split; reflexivity. Qed.

End Workflow.

(* ===================================================================== *)
(** ** Log flush ([upload_log_file], [check_and_upload_logs]) *)
(* ===================================================================== *)

Module LogFlush.
Import Local Workflow.

(** [timedelta(minutes=1)], in seconds. *)
Definition log_upload_interval : Z := 60.

Definition log_s3_key : string := "pipeline.log".

(** [s3.put_object(Bucket, Key, Body)]: the request is sent, and the
    object is stored when the store accepts it. *)
Definition put_object (env : Env) (bucket key : string) (body : Body) : M World unit :=
  fun w =>
    let request := PutObject bucket key body in
    match s3_reply env request with
    | Ok _ =>
        Some (set_store (<[key := body]> (objects w)) (requests w ++ [request]) w, Ok tt)
    | Raise e =>
        Some (set_store (objects w) (requests w ++ [request]) w, Raise e)
    end.

(** [open(log_path, 'w').write('')]: the log file is emptied. *)
Definition truncate_log : M World unit :=
  modify (fun w => set_logs [] (console w) w).

Definition upload_log_file (cfg : Config) (env : Env) : M World bool :=
  try_except
    (let s3_key := log_s3_key in
     w ← get;
     put_object env (bucket_name cfg) s3_key (LogText (log_file w));;
     emit INFO (MsgLogUploaded s3_key);;
     truncate_log;;
     mret true)
    (fun e =>
       emit ERROR (MsgLogUploadError e);;
       mret false).

(** The condition of the [if] of [check_and_upload_logs] at time
    [current_time]. *)
Definition due (current_time : Z) (w : World) : bool :=
  (log_upload_interval <=? current_time - last_log_upload_time w)
  && logs_accumulated w.

(** The value of [await self.upload_log_file()] is dropped; the two
    assignments follow it unconditionally. *)
Definition check_and_upload_logs (cfg : Config) (env : Env) : M World bool :=
  w ← get;
  let current_time := clock w in
  if due current_time w then
    emit INFO MsgFlushing;;
    upload_log_file cfg env;;
    modify (set_flush_state current_time false);;
    mret true
  else mret false.

(** A world one minute after the last upload, with two records in the
    log file and the flag set. *)
Definition dirty_world : World :=
  {| fs := ∅; objects := ∅; requests := [];
     log_file := [(INFO, MsgStart "batch.csv"); (INFO, MsgProcessed "processed-data/k")];
     console := [(INFO, MsgStart "batch.csv"); (INFO, MsgProcessed "processed-data/k")];
     processing_files := ∅; semaphore := 5;
     last_log_upload_time := 1734532165; logs_accumulated := true;
     clock := 1734532225 |}.

(** What [upload_log_file] returns. *)
Lemma upload_log_file_run (cfg : Config) (env : Env) (w : World) :
  let request := PutObject (bucket_name cfg) log_s3_key (LogText (log_file w)) in
  upload_log_file cfg env w
  = match s3_reply env request with
    | Ok _ =>
        Some (set_logs [] (console w ++ [(INFO, MsgLogUploaded log_s3_key)])
                (set_store (<[log_s3_key := LogText (log_file w)]> (objects w))
                           (requests w ++ [request]) w), Ok true)
    | Raise e =>
        Some (set_logs (log_file w ++ [(ERROR, MsgLogUploadError e)])
                       (console w ++ [(ERROR, MsgLogUploadError e)])
                (set_store (objects w) (requests w ++ [request]) w), Ok false)
    end.
Proof.
  unfold upload_log_file, try_except, mbind, M_bind, bind, get, put_object.
  destruct (s3_reply env _); reflexivity.
Qed.

(** Whatever the store answers, a flush that is due resets both fields. *)
Lemma check_and_upload_logs_resets (cfg : Config) (env : Env) (w : World) :
  due (clock w) w = true ->
  exists w',
    check_and_upload_logs cfg env w = Some (w', Ok true)
    /\ logs_accumulated w' = false
    /\ last_log_upload_time w' = clock w.
Proof.
  intros Hdue. unfold check_and_upload_logs, mbind, M_bind, bind, get.
  rewrite Hdue. unfold emit, modify. rewrite upload_log_file_run. cbv zeta.
  destruct (s3_reply env _); eexists; (split; [reflexivity |]); split; reflexivity.
Qed.

(** A tick that is not due changes nothing. *)
Lemma check_and_upload_logs_idle (cfg : Config) (env : Env) (w : World) :
  due (clock w) w = false ->
  check_and_upload_logs cfg env w = Some (w, Ok false).
Proof.
  intros Hdue. unfold check_and_upload_logs, mbind, M_bind, bind, get.
  rewrite Hdue. reflexivity.
Qed.

(** C1, evaluated where the code departs from it.  The flush is due in
    [dirty_world] and the store refuses the upload: [upload_log_file]
    returns [False] and leaves the log file in place, nothing is stored
    under "pipeline.log", and [check_and_upload_logs] still sets
    [logs_accumulated] to false and [last_log_upload_time] to the current
    time.  The next tick is therefore not due, and does nothing. *)
Theorem check_and_upload_logs_resets_after_failed_upload :
  let env := sample_env (fun _ => Raise (OtherError "connection refused")) in
  match check_and_upload_logs sample_config env dirty_world with
  | Some (w', r) =>
      r = Ok true
      /\ objects w' !! log_s3_key = None
      /\ log_file w' = log_file dirty_world
                       ++ [(INFO, MsgFlushing);
                           (ERROR, MsgLogUploadError (OtherError "connection refused"))]
      /\ logs_accumulated dirty_world = true
      /\ logs_accumulated w' = false
      /\ last_log_upload_time dirty_world = 1734532165
      /\ last_log_upload_time w' = 1734532225
      /\ check_and_upload_logs sample_config env w' = Some (w', Ok false)
  | None => False
  end.
Proof. vm_compute. repeat split; reflexivity. Qed.

(** With a store that accepts the upload, the same tick delivers the log
    file and empties it. *)
Example check_and_upload_logs_success :
  match check_and_upload_logs sample_config (sample_env (fun _ => Ok tt)) dirty_world with
  | Some (w', r) =>
      r = Ok true
      /\ objects w' !! log_s3_key
         = Some (LogText (log_file dirty_world ++ [(INFO, MsgFlushing)]))
      /\ log_file w' = []
      /\ logs_accumulated w' = false
      /\ last_log_upload_time w' = 1734532225
  | None => False
  end.
Proof. vm_compute. repeat split; reflexivity. Qed.

End LogFlush.

(* ===================================================================== *)
(** ** Concurrent workflows: the semaphore and the in-flight set *)
(* ===================================================================== *)

Module InFlight.
Import Local Workflow.
Local Open Scope nat_scope.

(** Where a [process_file] task stands: suspended at [async with
    self.semaphore]; holding a slot, before the membership test; inside
    the [try] block, its path in the set; past the [finally] clause or
    the early [return] of a duplicate, the slot still held; finished. *)
Inductive Phase : Type := Waiting | Holding | Running | Leaving | Done.

Record Task : Type := { path : Path; phase : Phase }.

(** The pipeline and the tasks [handle_changes] has created, in the
    order of their creation. *)
Record System : Type := { world : World; tasks : list Task }.

Definition holds_slot (t : Task) : bool :=
  match phase t with
  | Holding | Running | Leaving => true
  | Waiting | Done => false
  end.

Definition in_try (t : Task) : bool :=
  match phase t with
  | Running => true
  | _ => false
  end.

Definition at_phase (p : Path) (ph : Phase) : Task := {| path := p; phase := ph |}.

(** The value the semaphore is created with:
    [config.get('max_concurrent_files', 3)]. *)
Definition limit (cfg : Config) : nat := default 3 (max_concurrent_files cfg).

(** One uninterrupted stretch of the event loop.  A task moves with the
    statements of [process_file] that touch the semaphore or the set;
    [step_work] is any stretch of its [try] block and [step_other] any
    stretch of another coroutine (the watcher, the log checker): both
    leave the semaphore and the set alone. *)
Inductive step : System -> System -> Prop :=
| step_spawn w ts p :
    step {| world := w; tasks := ts |}
         {| world := w; tasks := ts ++ [at_phase p Waiting] |}
| step_acquire w w' before after p :
    acquire w = Some (w', Ok tt) ->
    step {| world := w; tasks := before ++ at_phase p Waiting :: after |}
         {| world := w'; tasks := before ++ at_phase p Holding :: after |}
| step_duplicate w before after p :
    p ∈ processing_files w ->
    step {| world := w; tasks := before ++ at_phase p Holding :: after |}
         {| world := w; tasks := before ++ at_phase p Leaving :: after |}
| step_enter w w' before after p :
    p ∉ processing_files w ->
    add_processing p w = Some (w', Ok tt) ->
    step {| world := w; tasks := before ++ at_phase p Holding :: after |}
         {| world := w'; tasks := before ++ at_phase p Running :: after |}
| step_work w w' before after p :
    processing_files w' = processing_files w ->
    semaphore w' = semaphore w ->
    step {| world := w; tasks := before ++ at_phase p Running :: after |}
         {| world := w'; tasks := before ++ at_phase p Running :: after |}
| step_leave w w' r before after p :
    remove_processing p w = Some (w', r) ->
    step {| world := w; tasks := before ++ at_phase p Running :: after |}
         {| world := w'; tasks := before ++ at_phase p Leaving :: after |}
| step_release w w' before after p :
    release w = Some (w', Ok tt) ->
    step {| world := w; tasks := before ++ at_phase p Leaving :: after |}
         {| world := w'; tasks := before ++ at_phase p Done :: after |}
| step_other w w' ts :
    processing_files w' = processing_files w ->
    semaphore w' = semaphore w ->
    step {| world := w; tasks := ts |} {| world := w'; tasks := ts |}.

(** The pipeline as [__init__] leaves it: the set empty, the semaphore
    at its limit, no task. *)
Definition initial (cfg : Config) (s : System) : Prop :=
  processing_files (world s) = ∅
  /\ semaphore (world s) = limit cfg
  /\ tasks s = [].

Definition reachable (cfg : Config) (s : System) : Prop :=
  exists s0, initial cfg s0 /\ rtc step s0 s.

Definition running_paths (ts : list Task) : list Path :=
  map path (List.filter in_try ts).

Definition holders (ts : list Task) : nat :=
  length (List.filter holds_slot ts).

Record invariant (K : nat) (s : System) : Prop := {
  inv_slots : semaphore (world s) + holders (tasks s) = K;
  inv_set : processing_files (world s) = list_to_set (running_paths (tasks s));
  inv_nodup : NoDup (running_paths (tasks s))
}.

Lemma running_paths_app ts1 ts2 :
  running_paths (ts1 ++ ts2) = running_paths ts1 ++ running_paths ts2.
Proof. unfold running_paths. rewrite List.filter_app, map_app. reflexivity. Qed.

Lemma holders_app ts1 ts2 : holders (ts1 ++ ts2) = holders ts1 + holders ts2.
Proof. unfold holders. rewrite List.filter_app, length_app. reflexivity. Qed.

Lemma running_paths_cons t ts :
  running_paths (t :: ts) = (if in_try t then [path t] else []) ++ running_paths ts.
Proof. unfold running_paths. simpl. destruct (in_try t); reflexivity. Qed.

Lemma holders_cons t ts :
  holders (t :: ts) = (if holds_slot t then 1 else 0) + holders ts.
Proof. unfold holders. simpl. destruct (holds_slot t); reflexivity. Qed.

Lemma running_paths_nil : running_paths [] = [].
Proof. reflexivity. Qed.

Lemma holders_nil : holders [] = 0.
Proof. reflexivity. Qed.

Lemma running_le_holders ts : length (running_paths ts) <= holders ts.
Proof.
  induction ts as [| t ts IH]; [reflexivity |].
  rewrite running_paths_cons, holders_cons, length_app.
  destruct t as [p []]; simpl; lia.
Qed.

Lemma invariant_initial cfg s : initial cfg s -> invariant (limit cfg) s.
Proof.
  intros (Hset & Hsem & Hts). split; rewrite Hts; simpl.
  - unfold holders. simpl. lia.
  - exact Hset.
  - apply NoDup_nil_2.
Qed.

Ltac open_tasks :=
  cbn [world tasks] in *;
  repeat rewrite ?running_paths_app, ?running_paths_cons, ?holders_app, ?holders_cons,
    ?running_paths_nil, ?holders_nil in *;
  cbn [in_try holds_slot at_phase phase path
       semaphore processing_files set_semaphore set_processing_files] in *;
  repeat rewrite ?app_nil_l, ?app_nil_r in *.

(** Every step preserves the invariant. *)
Lemma invariant_step K s s' : step s s' -> invariant K s -> invariant K s'.
Proof.
  intros Hstep [Hslots Hset Hnodup].
  destruct Hstep as
    [ w ts p | w w' before after p Hacq | w before after p Hin
    | w w' before after p Hnew Hadd | w w' before after p Hpf Hsem
    | w w' r before after p Hrem | w w' before after p Hrel
    | w w' ts Hpf Hsem ];
    open_tasks.
  - split; open_tasks; [lia | exact Hset | exact Hnodup].
  - unfold acquire in Hacq. destruct (semaphore w) as [| n] eqn:Hn; [discriminate |].
    injection Hacq as <-.
    split; open_tasks; [lia | exact Hset | exact Hnodup].
  - split; open_tasks; [lia | exact Hset | exact Hnodup].
  - injection Hadd as <-.
    split; open_tasks.
    + lia.
    + rewrite Hset, !list_to_set_app_L. simpl.
      rewrite (union_empty_r_L {[p]}).
      rewrite (assoc_L (∪)), (comm_L (∪) {[p]}), <- (assoc_L (∪)). reflexivity.
    + apply NoDup_app in Hnodup as (Hb & Hdisj & Ha).
      assert (Hp : (p ∉ running_paths before) /\ (p ∉ running_paths after)).
      { rewrite Hset, list_to_set_app_L, not_elem_of_union, !elem_of_list_to_set in Hnew.
        exact Hnew. }
      apply NoDup_app. split; [exact Hb |]. split.
      * intros x Hx Hx'. apply elem_of_cons in Hx' as [-> | Hx'].
        -- apply (proj1 Hp), Hx.
        -- exact (Hdisj x Hx Hx').
      * apply NoDup_cons. split; [apply Hp | exact Ha].
  - split; open_tasks; [lia | congruence | exact Hnodup].
  - apply NoDup_app in Hnodup as (Hb & Hdisj & Ha).
    apply NoDup_cons in Ha as [Hpa Ha].
    assert (Hpb : p ∉ running_paths before).
    { intros Hx. apply (Hdisj p Hx). left. }
    assert (Hin : p ∈ processing_files w).
    { rewrite Hset, list_to_set_app_L. simpl. set_unfold. tauto. }
    unfold remove_processing in Hrem.
    destruct (decide (p ∈ processing_files w)) as [_ | Hout]; [| contradiction].
    injection Hrem as <- _.
    split; open_tasks.
    + lia.
    + rewrite Hset, !list_to_set_app_L. simpl.
      apply set_eq. intros x.
      rewrite elem_of_difference, !elem_of_union, !elem_of_list_to_set,
        elem_of_singleton, elem_of_empty.
      split.
      * intros [[Hx | [[-> | []] | Hx]] Hne]; [left; exact Hx | congruence | right; exact Hx].
      * intros [Hx | Hx]; (split; [tauto | intros ->; contradiction]).
    + apply NoDup_app. split; [exact Hb |]. split; [| exact Ha].
      intros x Hx Hx'. apply (Hdisj x Hx). right. exact Hx'.
  - injection Hrel as <-.
    split; open_tasks; [lia | exact Hset | exact Hnodup].
  - split; open_tasks; [lia | congruence | exact Hnodup].
Qed.

Lemma invariant_reachable cfg s : reachable cfg s -> invariant (limit cfg) s.
Proof.
  intros (s0 & Hinit & Hsteps). apply invariant_initial in Hinit.
  induction Hsteps as [s | s1 s2 s3 Hstep _ IH]; [exact Hinit |].
  apply IH. eapply invariant_step; eauto.
Qed.

(** A run of [process_file] that returns, on a path that was not in
    flight: the [try] statement has returned, and the world is the one it
    left with the path removed and the slot released. *)
Lemma process_file_exit cfg env p w w' r :
  p ∉ processing_files w ->
  process_file cfg env p w = Some (w', r) ->
  r = Ok tt
  /\ exists w2, try_except (steps cfg env p) on_error (entered p w) = Some (w2, Ok tt)
                /\ w' = exited p w2.
Proof.
  intros Hnew Hrun.
  destruct (semaphore w) as [| n] eqn:Hn.
  { rewrite (process_file_suspended cfg env p w Hn) in Hrun. discriminate. }
  destruct (try_except (steps cfg env p) on_error (entered p w)) as [[w2 r2] |] eqn:Htry.
  - pose proof (try_steps_Ok _ _ _ _ _ _ Htry) as ->.
    rewrite (process_file_run cfg env p w w2 (Ok tt)) in Hrun; [| lia | exact Hnew | exact Htry].
    injection Hrun as <- <-. split; [reflexivity |]. exists w2. split; reflexivity.
  - exfalso. revert Hrun.
    unfold process_file, with_semaphore, acquire, finally, mbind, M_bind, bind, get.
    rewrite Hn. simpl.
    destruct (decide (p ∈ processing_files w)) as [Hin | _]; [contradiction |].
    unfold add_processing, modify. simpl.
    unfold entered in Htry. rewrite Hn in Htry. simpl in Htry. rewrite Htry.
    discriminate.
Qed.

(** The [try] statement of [process_file], run without interruption, is a
    [step_work]. *)
Lemma try_statement_is_work cfg env p w w' r before after :
  try_except (steps cfg env p) on_error w = Some (w', r) ->
  step {| world := w; tasks := before ++ at_phase p Running :: after |}
       {| world := w'; tasks := before ++ at_phase p Running :: after |}.
Proof.
  intros Htry. destruct (keeps_try_steps _ _ _ _ _ _ Htry) as [Hpf Hsem].
  apply step_work; assumption.
Qed.

(** A run of [process_file] that returns is a path of the system: the
    task acquires a slot, enters, works, leaves and releases. *)
Lemma process_file_is_a_path cfg env p w w' r before after :
  p ∉ processing_files w ->
  process_file cfg env p w = Some (w', r) ->
  rtc step {| world := w; tasks := before ++ at_phase p Waiting :: after |}
           {| world := w'; tasks := before ++ at_phase p Done :: after |}.
Proof.
  intros Hnew Hrun.
  destruct (process_file_exit cfg env p w w' r Hnew Hrun) as (_ & w2 & Htry & ->).
  destruct (semaphore w) as [| n] eqn:Hn.
  { rewrite (process_file_suspended cfg env p w Hn) in Hrun. discriminate. }
  destruct (keeps_try_steps _ _ _ _ _ _ Htry) as [Hpf _].
  eapply rtc_l.
  { apply (step_acquire w (set_semaphore n w)). unfold acquire. rewrite Hn. reflexivity. }
  eapply rtc_l.
  { apply (step_enter (set_semaphore n w) (entered p w)); [exact Hnew |].
    unfold add_processing, modify, entered. rewrite Hn. reflexivity. }
  eapply rtc_l; [apply (try_statement_is_work cfg env p _ w2 (Ok tt)), Htry |].
  eapply rtc_l.
  { apply (step_leave w2 (set_processing_files (processing_files w2 ∖ {[p]}) w2) (Ok tt)).
    unfold remove_processing.
    destruct (decide (p ∈ processing_files w2)) as [_ | Hout]; [reflexivity |].
    exfalso. apply Hout. rewrite Hpf. unfold entered. simpl.
    apply elem_of_union_l, elem_of_singleton. reflexivity. }
  eapply rtc_l; [apply (step_release _ (exited p w2)); reflexivity |].
  apply rtc_refl.
Qed.

(** What a run of [process_file] is made of, for a path that is not in
    flight: the semaphore is acquired, the path is added to the set, the
    [try] statement runs with the path in the set and the slot taken and
    leaves both alone, the path is removed, the slot is released.  Each
    of the five is a step of the system. *)
Definition run_of_steps (cfg : Config) (env : Env) (p : Path) (w w' : World) : Prop :=
  exists w1 w2 w3 w4,
    acquire w = Some (w1, Ok tt)
    /\ add_processing p w1 = Some (w2, Ok tt)
    /\ p ∈ processing_files w2
    /\ S (semaphore w2) = semaphore w
    /\ try_except (steps cfg env p) on_error w2 = Some (w3, Ok tt)
    /\ processing_files w3 = processing_files w2
    /\ semaphore w3 = semaphore w2
    /\ remove_processing p w3 = Some (w4, Ok tt)
    /\ release w4 = Some (w', Ok tt)
    /\ forall before after,
         step {| world := w; tasks := before ++ at_phase p Waiting :: after |}
              {| world := w1; tasks := before ++ at_phase p Holding :: after |}
         /\ step {| world := w1; tasks := before ++ at_phase p Holding :: after |}
                 {| world := w2; tasks := before ++ at_phase p Running :: after |}
         /\ step {| world := w2; tasks := before ++ at_phase p Running :: after |}
                 {| world := w3; tasks := before ++ at_phase p Running :: after |}
         /\ step {| world := w3; tasks := before ++ at_phase p Running :: after |}
                 {| world := w4; tasks := before ++ at_phase p Leaving :: after |}
         /\ step {| world := w4; tasks := before ++ at_phase p Leaving :: after |}
                 {| world := w'; tasks := before ++ at_phase p Done :: after |}.

Lemma process_file_run_of_steps cfg env p w w' r :
  p ∉ processing_files w ->
  process_file cfg env p w = Some (w', r) ->
  r = Ok tt /\ run_of_steps cfg env p w w'.
Proof.
  intros Hnew Hrun.
  destruct (process_file_exit cfg env p w w' r Hnew Hrun) as (-> & w3 & Htry & ->).
  split; [reflexivity |].
  destruct (semaphore w) as [| n] eqn:Hn.
  { rewrite (process_file_suspended cfg env p w Hn) in Hrun. discriminate. }
  destruct (keeps_try_steps _ _ _ _ _ _ Htry) as [Hpf Hsem].
  assert (Hin : p ∈ processing_files w3).
  { rewrite Hpf. unfold entered. simpl. apply elem_of_union_l, elem_of_singleton. reflexivity. }
  assert (Hacq : acquire w = Some (set_semaphore n w, Ok tt)).
  { unfold acquire. rewrite Hn. reflexivity. }
  assert (Hadd : add_processing p (set_semaphore n w) = Some (entered p w, Ok tt)).
  { unfold add_processing, modify, entered. rewrite Hn. reflexivity. }
  assert (Hrem : remove_processing p w3
                 = Some (set_processing_files (processing_files w3 ∖ {[p]}) w3, Ok tt)).
  { unfold remove_processing.
    destruct (decide (p ∈ processing_files w3)) as [_ | Hout]; [reflexivity | contradiction]. }
  exists (set_semaphore n w), (entered p w), w3,
         (set_processing_files (processing_files w3 ∖ {[p]}) w3).
  split; [exact Hacq |]. split; [exact Hadd |].
  split; [unfold entered; simpl; apply elem_of_union_l, elem_of_singleton; reflexivity |].
  split; [unfold entered; simpl; rewrite Hn; reflexivity |].
  split; [exact Htry |]. split; [exact Hpf |]. split; [exact Hsem |].
  split; [exact Hrem |]. split; [reflexivity |].
  intros before after.
  split; [apply step_acquire, Hacq |].
  split; [apply step_enter; [simpl; exact Hnew | exact Hadd] |].
  split; [apply (try_statement_is_work cfg env p _ _ (Ok tt)), Htry |].
  split; [apply (step_leave _ _ (Ok tt)), Hrem |].
  apply step_release. reflexivity.
Qed.

(** C4.  In every state the pipeline reaches from its start, whatever
    the interleaving of its tasks: the in-flight set holds at most
    [limit cfg] paths; its paths are those of the tasks inside their
    [try] block, and no two such tasks have the same path; the free
    slots and the slots held add up to [limit cfg].  The steps of the
    system are those of [process_file]:
    - without a free slot a run of [process_file] stays suspended;
    - on a path that is in flight it returns with the world as it found
      it, the set and the slot included;
    - on a path that is not in flight, a run that returns is made of the
      steps of the system, in order (acquire, enter, the [try]
      statement, leave, release): the [try] statement runs with the
      path in the set and one slot fewer, and whatever happens in it
      (success, early return or exception) the run returns normally
      with the path out of the set and the slot released, the set and
      the semaphore being what they were before the run. *)
Theorem in_flight_invariant (cfg : Config) (s : System) :
  reachable cfg s ->
  size (processing_files (world s)) <= limit cfg
  /\ (forall p, p ∈ processing_files (world s) <->
                exists t, t ∈ tasks s /\ phase t = Running /\ path t = p)
  /\ (forall before t between u after,
        tasks s = before ++ t :: between ++ u :: after ->
        phase t = Running -> phase u = Running -> path t <> path u)
  /\ semaphore (world s) + holders (tasks s) = limit cfg
  /\ (forall env p w, semaphore w = 0 -> process_file cfg env p w = None)
  /\ (forall env p w, 0 < semaphore w -> p ∈ processing_files w ->
        process_file cfg env p w = Some (w, Ok tt))
  /\ (forall env p w w' r,
        p ∉ processing_files w ->
        process_file cfg env p w = Some (w', r) ->
        r = Ok tt
        /\ run_of_steps cfg env p w w'
        /\ (p ∉ processing_files w')
        /\ processing_files w' = processing_files w
        /\ semaphore w' = semaphore w).
Proof.
  intros Hreach. destruct (invariant_reachable cfg s Hreach) as [Hslots Hset Hnodup].
  split; [| split; [| split; [| split; [| split; [| split]]]]].
  - rewrite Hset, size_list_to_set by exact Hnodup.
    pose proof (running_le_holders (tasks s)). lia.
  - intros p. rewrite Hset, elem_of_list_to_set. unfold running_paths.
    rewrite list_elem_of_fmap. split.
    + intros (t & -> & Ht). apply list_elem_of_In, filter_In in Ht as [Ht Hph].
      exists t. split; [apply list_elem_of_In, Ht |]. split; [| reflexivity].
      unfold in_try in Hph. destruct (phase t); try discriminate. reflexivity.
    + intros (t & Ht & Hph & <-). exists t. split; [reflexivity |].
      apply list_elem_of_In, filter_In. split; [apply list_elem_of_In, Ht |].
      unfold in_try. rewrite Hph. reflexivity.
  - intros before t between u after Hts Ht Hu Heq. rewrite Hts in Hnodup.
    rewrite running_paths_app, running_paths_cons, running_paths_app,
      running_paths_cons in Hnodup.
    unfold in_try in Hnodup. rewrite Ht, Hu in Hnodup.
    apply NoDup_app in Hnodup as (_ & _ & Hnodup). simpl in Hnodup.
    apply NoDup_cons in Hnodup as [Hnotin _]. apply Hnotin.
    rewrite Heq. apply elem_of_app. right. left.
  - exact Hslots.
  - intros env p w Hz. apply process_file_suspended, Hz.
  - intros env p w Hsem Hin.
    unfold process_file, with_semaphore, acquire, finally, mbind, M_bind, bind, get.
    destruct w as [f o rq lf co pf [| n] t d c]; simpl in *; [lia |].
    destruct (decide (p ∈ pf)) as [_ | Hout]; [| contradiction].
    reflexivity.
  - intros env p w w' r Hnew Hrun.
    destruct (process_file_run_of_steps cfg env p w w' r Hnew Hrun) as [-> Hsteps].
    split; [reflexivity |]. split; [exact Hsteps |].
    destruct (process_file_exit cfg env p w w' _ Hnew Hrun) as (_ & w2 & Htry & ->).
    destruct (semaphore w) as [| n] eqn:Hn.
    { rewrite (process_file_suspended cfg env p w Hn) in Hrun. discriminate. }
    destruct (keeps_try_steps _ _ _ _ _ _ Htry) as [Hpf Hs].
    destruct (exited_entered_in_flight p w w2 ltac:(lia) Hnew Hpf Hs) as [Hpf' Hs'].
    split; [rewrite Hpf'; exact Hnew |].
    split; [exact Hpf' | rewrite Hs'; exact Hn].
Qed.

(** A pipeline with the default limit of 5 in which one task is inside
    its [try] block and a second task, for another file, has been
    created. *)
Definition one_running : System :=
  {| world := entered sample_file (sample_world "name,age" ∅);
     tasks := [at_phase sample_file Running;
               at_phase ["data"; "input"; "other.csv"]%string Waiting] |}.

(** [one_running] is reached by: spawn, acquire, enter, spawn. *)
Lemma one_running_reachable : reachable sample_config one_running.
Proof.
  pose (w0 := sample_world "name,age" ∅).
  exists {| world := w0; tasks := [] |}.
  split; [repeat split |].
  eapply rtc_l; [exact (step_spawn w0 [] sample_file) |].
  eapply rtc_l;
    [exact (step_acquire w0 (set_semaphore 4 w0) [] [] sample_file eq_refl) |].
  eapply rtc_l;
    [exact (step_enter (set_semaphore 4 w0) (entered sample_file w0) [] [] sample_file
              (not_elem_of_empty _) eq_refl) |].
  eapply rtc_l;
    [exact (step_spawn (entered sample_file w0) [at_phase sample_file Running]
              ["data"; "input"; "other.csv"]%string) |].
  apply rtc_refl.
Qed.

(** The statement of C4 at [one_running]. *)
Lemma in_flight_invariant_witness :
  reachable sample_config one_running
  /\ size (processing_files (world one_running)) <= limit sample_config
  /\ (forall p, p ∈ processing_files (world one_running) <->
                exists t, t ∈ tasks one_running /\ phase t = Running /\ path t = p)
  /\ (forall before t between u after,
        tasks one_running = before ++ t :: between ++ u :: after ->
        phase t = Running -> phase u = Running -> path t <> path u)
  /\ semaphore (world one_running) + holders (tasks one_running) = limit sample_config
  /\ (forall env p w, semaphore w = 0 -> process_file sample_config env p w = None)
  /\ (forall env p w, 0 < semaphore w -> p ∈ processing_files w ->
        process_file sample_config env p w = Some (w, Ok tt))
  /\ (forall env p w w' r,
        p ∉ processing_files w ->
        process_file sample_config env p w = Some (w', r) ->
        r = Ok tt
        /\ run_of_steps sample_config env p w w'
        /\ (p ∉ processing_files w')
        /\ processing_files w' = processing_files w
        /\ semaphore w' = semaphore w).
Proof.
  split; [exact one_running_reachable |].
  exact (in_flight_invariant sample_config one_running one_running_reachable).
Defined.

End InFlight.

(* ===================================================================== *)
(** ** More on the local disk *)
(* ===================================================================== *)

Module Disk.
Import Local.

(** [mkdir_from] only adds directories: an entry that exists stays as it
    is, whether the call succeeds or not. *)
Lemma mkdir_from_preserves (rest base : Path) (fs : FS) (q : Path) (node : Node) :
  fs !! q = Some node -> (mkdir_from base rest fs).1 !! q = Some node.
Proof.
  revert base fs. induction rest as [| c rest IH]; intros base fs Hq; simpl; [exact Hq |].
  destruct (fs !! (base ++ [c])) as [[| m x] |] eqn:Hp.
  - apply IH, Hq.
  - exact Hq.
  - apply IH. rewrite lookup_insert_ne; [exact Hq |]. intros <-. congruence.
Qed.

(** When [mkdir_from] succeeds, every directory on the way exists. *)
Lemma mkdir_from_Ok_dirs (rest base : Path) (fs fs' : FS) :
  mkdir_from base rest fs = (fs', Ok tt) ->
  forall l1 l2, rest = l1 ++ l2 -> l1 <> [] -> fs' !! (base ++ l1) = Some Dir.
Proof.
  revert base fs. induction rest as [| c rest IH]; intros base fs Hrun l1 l2 Hsplit Hne.
  - symmetry in Hsplit. apply app_eq_nil in Hsplit as [-> _]. congruence.
  - destruct l1 as [| x l1]; [congruence |]. simpl in Hsplit. injection Hsplit as <- ->.
    simpl in Hrun.
    assert (Hfirst : forall fs0, fs0 !! (base ++ [c]) = Some Dir ->
              mkdir_from (base ++ [c]) (l1 ++ l2) fs0 = (fs', Ok tt) ->
              fs' !! (base ++ c :: l1) = Some Dir).
    { intros fs0 Hdir Hrun0. destruct l1 as [| y l1].
      - pose proof (mkdir_from_preserves (l2) (base ++ [c]) fs0 _ _ Hdir) as Hk.
        simpl in Hrun0. rewrite Hrun0 in Hk. exact Hk.
      - replace (base ++ c :: y :: l1) with ((base ++ [c]) ++ y :: l1)
          by (rewrite <- app_assoc; reflexivity).
        apply (IH _ _ Hrun0 (y :: l1) l2); [reflexivity | discriminate]. }
    destruct (fs !! (base ++ [c])) as [[| m x] |] eqn:Hp.
    + apply (Hfirst fs Hp Hrun).
    + discriminate.
    + apply (Hfirst (<[base ++ [c] := Dir]> fs)); [apply lookup_insert_eq | exact Hrun].
Qed.

(** When every directory on the way exists, [mkdir_from] changes
    nothing. *)
Lemma mkdir_from_noop (rest base : Path) (fs : FS) :
  (forall l1 l2, rest = l1 ++ l2 -> l1 <> [] -> fs !! (base ++ l1) = Some Dir) ->
  mkdir_from base rest fs = (fs, Ok tt).
Proof.
  revert base. induction rest as [| c rest IH]; intros base Hdirs; simpl; [reflexivity |].
  rewrite (Hdirs [c] rest eq_refl ltac:(discriminate)).
  apply IH. intros l1 l2 -> Hne. rewrite <- app_assoc.
  apply (Hdirs (c :: l1) l2); [reflexivity | discriminate].
Qed.

Lemma mkdir_parents_Ok_dirs (p : Path) (fs fs' : FS) :
  mkdir_parents p fs = (fs', Ok tt) -> forall q, q ∈ prefixes p -> fs' !! q = Some Dir.
Proof.
  intros Hrun q Hq. apply elem_of_prefixes in Hq as [Hne [l2 ->]].
  apply (mkdir_from_Ok_dirs _ [] fs fs' Hrun q l2); [reflexivity | exact Hne].
Qed.

Lemma mkdir_parents_noop (p : Path) (fs : FS) :
  (forall q, q ∈ prefixes p -> fs !! q = Some Dir) -> mkdir_parents p fs = (fs, Ok tt).
Proof.
  intros H. apply mkdir_from_noop. intros l1 l2 -> Hne. apply H, elem_of_prefixes.
  split; [exact Hne | eauto].
Qed.

Lemma is_dir_of_prefixes (p : Path) (fs : FS) :
  (forall q, q ∈ prefixes p -> fs !! q = Some Dir) -> is_dir fs p = true.
Proof.
  intros H. unfold is_dir. destruct p as [| c p]; [reflexivity |].
  rewrite H; [reflexivity |]. apply elem_of_prefixes.
  split; [discriminate | exists []; rewrite app_nil_r; reflexivity].
Qed.

(** [mkdir_parents] succeeds exactly when no regular file is in the
    way. *)
Lemma mkdir_parents_Ok_free (p : Path) (fs fs' : FS) :
  mkdir_parents p fs = (fs', Ok tt) -> free_way fs p = true.
Proof.
  intros Hrun. unfold free_way. apply forallb_forall. intros q Hq%list_elem_of_In.
  unfold is_file. destruct (fs !! q) as [[| m x] |] eqn:Hfs; try reflexivity.
  pose proof (mkdir_parents_Ok_dirs p fs fs' Hrun q Hq) as Hdir.
  pose proof (mkdir_from_preserves p [] fs q _ Hfs) as Hkeep.
  unfold mkdir_parents in Hrun. rewrite Hrun in Hkeep. simpl in Hkeep. congruence.
Qed.

(** Creating directories puts no regular file in the way of another
    path, and takes none away. *)
Lemma mkdir_parents_free_way (p p' : Path) (fs : FS) :
  free_way fs p = true ->
  free_way (mkdir_parents p fs).1 p' = free_way fs p'.
Proof.
  intros Hfree. destruct (mkdir_parents_ok p fs Hfree) as (fs' & Hrun & Hdirs & Hframe).
  rewrite Hrun. simpl. unfold free_way.
  induction (prefixes p') as [| q l IH]; simpl; [reflexivity |]. rewrite IH. f_equal.
  unfold is_file. destruct (decide (q ∈ prefixes p)) as [Hin | Hout].
  - rewrite (Hdirs q Hin). unfold free_way in Hfree. rewrite forallb_forall in Hfree.
    apply list_elem_of_In, Hfree in Hin. unfold is_file in Hin.
    destruct (fs !! q) as [[| m x] |]; [reflexivity | discriminate | reflexivity].
  - rewrite (Hframe q Hout). reflexivity.
Qed.

End Disk.

(* ===================================================================== *)
(** ** More on the row filter *)
(* ===================================================================== *)

Module RowFilterLaws.
Import RowFilter.

Lemma filter_filter {A : Type} (f : A -> bool) (l : list A) :
  List.filter f (List.filter f l) = List.filter f l.
Proof.
  induction l as [| a l IH]; simpl; [reflexivity |].
  destruct (f a) eqn:E; simpl; [rewrite E, IH; reflexivity | exact IH].
Qed.

Lemma filter_sublist {A : Type} (f : A -> bool) (l : list A) :
  sublist (List.filter f l) l.
Proof.
  induction l as [| a l IH]; simpl; [constructor |].
  destruct (f a); [apply sublist_skip | apply sublist_cons]; exact IH.
Qed.

(** A row that is kept has a number in the age column. *)
Lemma keeps_not_text (i : nat) (r : list Cell) (s : string) :
  keeps i r = true -> cell_at i r <> Str s.
Proof. unfold keeps. destruct (cell_at i r); simpl; congruence. Qed.

(** X1.  [filter_data] ([src/pipeline.py], l.350-355) selects.  On a
    frame with distinct column labels: when it returns a frame, the
    frame has the columns of its argument and its rows are rows of the
    argument, in their order; and filtering the result again, under any
    configuration, returns it unchanged. *)
Theorem filter_data_idempotent (cfg cfg' : Config) (df out : DataFrame) :
  NoDup (columns df) ->
  filter_data cfg df = Ok out ->
  filter_data cfg' out = Ok out
  /\ columns out = columns df
  /\ sublist (rows out) (rows df).
Proof.
  intros _ Hout.
  destruct (index_of "age" (columns df)) as [i |] eqn:Hi.
  - destruct (filter_data_Ok cfg df out i Hi Hout) as [Hc Hr].
    split; [| split; [exact Hc | rewrite Hr; apply filter_sublist]].
    unfold filter_data. rewrite Hc, Hi.
    assert (Hs : forall c s, c ∈ map (cell_at i) (rows out) -> c <> Str s).
    { intros c s Hin. apply list_elem_of_fmap in Hin as (r & -> & Hr').
      rewrite Hr in Hr'. apply list_elem_of_In, filter_In in Hr' as [_ Hk].
      apply keeps_not_text, Hk. }
    rewrite !compare_series_total by exact Hs.
    rewrite select_mask, Hr, filter_filter, <- Hr, <- Hc.
    destruct out; reflexivity.
  - unfold filter_data in Hout. rewrite Hi in Hout. injection Hout as <-.
    split; [| split; [reflexivity | reflexivity]].
    unfold filter_data. rewrite Hi. reflexivity.
Qed.

(** The statement at the sample batch, filtered a second time under
    other configured bounds. *)
Lemma filter_data_idempotent_witness :
  let out := {| columns := ["name"; "age"]%string;
                rows := [ [Str "b"; Num 18]; [Str "c"; Num 40] ] |} in
  NoDup (columns batch)
  /\ filter_data {| age_min := 20; age_max := 30 |} out = Ok out
  /\ columns out = columns batch
  /\ sublist (rows out) (rows batch).
Proof.
  pose proof batch_labels_distinct as Hd.
  split; [exact Hd |].
  exact (filter_data_idempotent default_config {| age_min := 20; age_max := 30 |} batch
           {| columns := ["name"; "age"]%string;
              rows := [ [Str "b"; Num 18]; [Str "c"; Num 40] ] |} Hd eq_refl).
Defined.

End RowFilterLaws.

(* ===================================================================== *)
(** ** More on the stability wait *)
(* ===================================================================== *)

Module StabilityProgress.
Import Stability.

(** Once the size has settled, two iterations confirm it. *)
Lemma wait_loop_settled (stat : Z -> result Z) (settle s timeout_ms : Z)
    (fuel : nat) (elapsed last_size : Z) :
  (forall t, settle <= t -> stat t = Ok s) ->
  0 < s ->
  settle <= elapsed ->
  elapsed + 500 < timeout_ms ->
  exists trace,
    wait_loop (S (S fuel)) (exact_clock stat) timeout_ms elapsed last_size
    = Some (Ok true, trace).
Proof.
  intros Hs Hpos He HT. cbn [wait_loop exact_clock Stability.stat wake].
  unfold confirm_delay, poll_interval.
  assert (Hg1 : (elapsed <? timeout_ms) = true) by (apply Z.ltb_lt; lia).
  assert (Hg2 : (elapsed + 500 <? timeout_ms) = true) by (apply Z.ltb_lt; lia).
  assert (Hp : (0 <? s) = true) by (apply Z.ltb_lt; lia).
  rewrite Hg1, (Hs elapsed He), Hp. cbn [andb].
  destruct (s =? last_size).
  - rewrite (Hs (elapsed + 2000)) by lia. rewrite Z.eqb_refl. eauto.
  - rewrite Hg2, (Hs (elapsed + 500)) by lia. rewrite Hp, Z.eqb_refl. cbn [andb].
    rewrite (Hs (elapsed + 500 + 2000)) by lia. rewrite Z.eqb_refl. simpl. eauto.
Qed.

(** Before the size has settled the loop goes on, and it reaches the
    time from which the size is settled with enough of the timeout
    left. *)
Lemma wait_loop_settles (stat : Z -> result Z) (settle s timeout_ms : Z) :
  (forall t, exists c, stat t = Ok c) ->
  (forall t, settle <= t -> stat t = Ok s) ->
  0 < s ->
  settle + 3000 <= timeout_ms ->
  forall (fuel : nat) (elapsed last_size : Z),
    timeout_ms - elapsed <= Z.of_nat fuel * 500 ->
    elapsed < settle + 2500 ->
    exists trace,
      wait_loop (S fuel) (exact_clock stat) timeout_ms elapsed last_size
      = Some (Ok true, trace).
Proof.
  intros Hex Hs Hpos HT. induction fuel as [| fuel IH]; intros elapsed last_size Hfuel He.
  - lia.
  - destruct (Z.le_gt_cases settle elapsed) as [Hlate | Hearly].
    + destruct fuel as [| fuel]; [lia |].
      destruct (wait_loop_settled stat settle s timeout_ms (S fuel) elapsed last_size)
        as [trace Htr]; try assumption; [lia |]. eauto.
    + remember (S fuel) as n eqn:Hn. cbn [wait_loop exact_clock Stability.stat wake].
      subst n. unfold confirm_delay, poll_interval.
      assert (Hg : (elapsed <? timeout_ms) = true) by (apply Z.ltb_lt; lia).
      rewrite Hg. destruct (Hex elapsed) as [c ->].
      destruct ((0 <? c) && (c =? last_size)).
      * destruct (Hex (elapsed + 2000)) as [fin ->].
        destruct (fin =? c); [eauto |].
        destruct (IH (elapsed + 2000 + 500) c) as [trace ->]; [lia | lia |].
        simpl. eauto.
      * destruct (IH (elapsed + 500) c) as [trace ->]; [lia | lia |].
        simpl. eauto.
Qed.

(** X2.  [wait_for_file_stable] ([src/pipeline.py], l.324-348) reports a
    finished file.  With a clock that the sleeps advance exactly: when
    the file is there at every read, its size is the same positive
    number from [settle] milliseconds after the start on, and the timeout
    ends at least three seconds later, the wait returns [True]. *)
Theorem settled_file_is_reported_stable (stat : Z -> result Z) (settle s timeout : Z) :
  (forall t, exists c, stat t = Ok c) ->
  (forall t, settle <= t -> stat t = Ok s) ->
  0 < s ->
  0 <= settle ->
  settle + 3000 <= timeout * 1000 ->
  exists trace,
    wait_for_file_stable (exact_clock stat) timeout = Some (Ok true, trace).
Proof.
  intros Hex Hs Hpos Hsettle HT. unfold wait_for_file_stable, enough_fuel.
  apply (wait_loop_settles stat settle s (timeout * 1000) Hex Hs Hpos HT); [| lia].
  unfold poll_interval.
  rewrite Z2Nat.id by (pose proof (Z.div_pos (timeout * 1000) 500); lia).
  pose proof (Z.mul_succ_div_gt (timeout * 1000) 500 ltac:(lia)). lia.
Qed.

(** A file that grows by one byte per millisecond for 4 seconds and then
    stays at 4100 bytes. *)
Definition growing_then_done (t : Z) : result Z :=
  Ok (if t <? 4000 then 100 + t else 4100).

(** The statement at that file, with the default timeout. *)
Lemma settled_file_is_reported_stable_witness :
  exists trace,
    wait_for_file_stable (exact_clock growing_then_done) 30 = Some (Ok true, trace).
Proof.
  apply (settled_file_is_reported_stable growing_then_done 4000 4100 30).
  - intros t. eexists. reflexivity.
  - intros t Ht. unfold growing_then_done.
    destruct (t <? 4000) eqn:E; [apply Z.ltb_lt in E; lia | reflexivity].
  - lia.
  - lia.
  - lia.
Defined.

End StabilityProgress.

(* ===================================================================== *)
(** ** Whole runs of the per-file workflow *)
(* ===================================================================== *)

Module WorkflowRuns.
Import Local Disk Workflow.

(** X3.  [archive_source_file] ([src/pipeline.py], l.388-402) never
    raises and never loses the file it was given.  Called on a path that
    is not a directory (a regular file, or nothing), it returns normally,
    and touches neither the bucket nor the flag of accumulated logs.  A
    regular file at [file_path] is afterwards either still in place,
    with one error record logged, or at the archive path of its
    modification date (in local time, with the offset in force at that
    time, the year as [%Y] prints it) with its time and content, with
    nothing logged. *)
Theorem archive_source_file_keeps_the_file (cfg : Config) (env : Env) (file_path : Path)
    (w : World) :
  fs w !! file_path <> Some Dir ->
  exists w',
    archive_source_file cfg env file_path w = Some (w', Ok tt)
    /\ objects w' = objects w
    /\ requests w' = requests w
    /\ logs_accumulated w' = logs_accumulated w
    /\ forall mtime content,
         fs w !! file_path = Some (File mtime content) ->
         (fs w' !! file_path = Some (File mtime content)
          /\ exists e, console w' = console w ++ [(ERROR, MsgArchiveError e)])
         \/ (exists file_time,
               local_time env mtime = Ok file_time
               /\ fs w' !! archive_path_at cfg file_time file_path
                  = Some (File mtime content)
               /\ console w' = console w).
Proof.
  intros _.
  unfold archive_source_file, try_except, mbind, M_bind, bind, get, lift, on_disk, emit, modify.
  destruct (st_mtime (fs w) file_path) as [m | e] eqn:Hst.
  2:{ eexists. split; [reflexivity |]. repeat (split; [reflexivity |]).
      intros mtime content Hfile. left. split; [exact Hfile | eauto]. }
  destruct (local_time env m) as [t | e] eqn:Ht.
  2:{ eexists. split; [reflexivity |]. repeat (split; [reflexivity |]).
      intros mtime content Hfile. left. split; [exact Hfile | eauto]. }
  remember (archive_path_at cfg t file_path) as dest eqn:Hdest.
  pose proof (mkdir_from_preserves (parent dest) [] (fs w) file_path) as Hkeep.
  unfold mkdir_parents.
  destruct (mkdir_from [] (parent dest) (fs w)) as [fs1 [[] | e]] eqn:Hmk; cbn [fst snd] in *.
  2:{ eexists. split; [reflexivity |]. repeat (split; [reflexivity |]).
      intros mtime content Hfile. left. split; [apply Hkeep, Hfile | eauto]. }
  cbn [fs set_fs].
  destruct (rename file_path dest fs1) as [fs2 [[] | e]] eqn:Hrn.
  - eexists. split; [reflexivity |]. repeat (split; [reflexivity |]).
    intros mtime content Hfile. right. exists t.
    unfold st_mtime in Hst. rewrite Hfile in Hst. injection Hst as <-.
    split; [exact Ht |]. split; [| reflexivity]. cbn [fs set_fs].
    unfold rename in Hrn. rewrite (Hkeep _ Hfile) in Hrn.
    destruct (need_dir fs1 (parent dest)); [discriminate |].
    destruct dest as [| c d]; [discriminate |].
    destruct (fs1 !! (c :: d)) as [[| m' x'] |]; try discriminate;
      injection Hrn as <-; rewrite <- Hdest; apply lookup_insert_eq.
  - eexists. split; [reflexivity |]. repeat (split; [reflexivity |]).
    intros mtime content Hfile. left. cbn [fs set_fs set_logs console]. split; [| eauto].
    unfold rename in Hrn. rewrite (Hkeep _ Hfile) in Hrn.
    destruct (need_dir fs1 (parent dest)); [injection Hrn as <- _; apply Hkeep, Hfile |].
    destruct dest as [| c d]; [injection Hrn as <- _; apply Hkeep, Hfile |].
    destruct (fs1 !! (c :: d)) as [[| m' x'] |]; try discriminate;
      injection Hrn as <- _; apply Hkeep, Hfile.
Qed.

(** The statement at the sample file: it goes to the archive. *)
Lemma archive_source_file_keeps_the_file_witness :
  let w := sample_world "name,age" ∅ in
  let env := sample_env (fun _ => Ok tt) in
  exists w',
    archive_source_file sample_config env sample_file w = Some (w', Ok tt)
    /\ objects w' = objects w
    /\ requests w' = requests w
    /\ logs_accumulated w' = logs_accumulated w
    /\ forall mtime content,
         fs w !! sample_file = Some (File mtime content) ->
         (fs w' !! sample_file = Some (File mtime content)
          /\ exists e, console w' = console w ++ [(ERROR, MsgArchiveError e)])
         \/ (exists file_time,
               local_time env mtime = Ok file_time
               /\ fs w' !! archive_path_at sample_config file_time sample_file
                  = Some (File mtime content)
               /\ console w' = console w).
Proof.
  apply (archive_source_file_keeps_the_file sample_config (sample_env (fun _ => Ok tt))
           sample_file (sample_world "name,age" ∅)).
  vm_compute. discriminate.
Defined.

Lemma mkdir_existing (p : Path) (fs : FS) : fs !! p = Some Dir -> mkdir p fs = (fs, Ok tt).
Proof. intros H. unfold mkdir. rewrite H. reflexivity. Qed.

Lemma write_file_ok (p : Path) (now : Z) (content : Content) (fs : FS) :
  need_dir fs (parent p) = None -> p <> [] -> fs !! p <> Some Dir ->
  write_file p now content fs = (<[p := File now content]> fs, Ok tt).
Proof.
  intros Hparent Hne Hdir. unfold write_file. rewrite Hparent.
  destruct p as [| c p]; [congruence |].
  destruct (fs !! (c :: p)) as [[| m x] |]; [congruence | reflexivity | reflexivity].
Qed.

Lemma forallb_agree {A : Type} (f g : A -> bool) (l : list A) :
  (forall x, x ∈ l -> f x = g x) -> forallb f l = forallb g l.
Proof.
  induction l as [| a l IH]; intros H; simpl; [reflexivity |].
  rewrite (H a) by left. rewrite IH; [reflexivity |].
  intros x Hx. apply H. right. exact Hx.
Qed.

Lemma free_way_ext (fs fs' : FS) (p : Path) :
  (forall q, q ∈ prefixes p -> fs' !! q = fs !! q) ->
  free_way fs' p = free_way fs p.
Proof.
  intros H. unfold free_way. apply forallb_agree. intros q Hq.
  unfold is_file. rewrite H by exact Hq. reflexivity.
Qed.

(** What [archive_source_file] does when nothing is in its way. *)
Lemma archive_source_file_run (cfg : Config) (env : Env) (w : World)
    (file_path : Path) (mtime : Z) (content : Content) (file_time : DateTime) :
  fs w !! file_path = Some (File mtime content) ->
  local_time env mtime = Ok file_time ->
  parts (name file_path) = [name file_path] ->
  let dest := archive_destination cfg file_time (name file_path) in
  free_way (fs w) (parent dest) = true ->
  fs w !! dest <> Some Dir ->
  exists fs1,
    (forall q, q ∈ prefixes (parent dest) -> fs1 !! q = Some Dir)
    /\ (forall q, q ∉ prefixes (parent dest) -> fs1 !! q = fs w !! q)
    /\ (dest ∉ prefixes (parent dest))
    /\ (file_path ∉ prefixes (parent dest))
    /\ archive_source_file cfg env file_path w
       = Some (set_fs (<[dest := File mtime content]> (delete file_path fs1)) w, Ok tt).
Proof.
  intros Hfile Htime Hname dest Hfree Hdest.
  assert (Hparent : parent dest = archive_folder cfg
            ++ [year_text (year file_time); pad2 (month file_time); pad2 (day file_time)]).
  { unfold dest, archive_destination, parent. rewrite app_assoc. apply removelast_last. }
  assert (Hdest_ne : dest <> []).
  { unfold dest, archive_destination. intros H.
    apply app_eq_nil in H as [_ H]. discriminate. }
  assert (Hlen : length dest = S (length (parent dest))).
  { rewrite Hparent. unfold dest, archive_destination.
    rewrite !length_app. simpl. lia. }
  destruct (mkdir_parents_ok (parent dest) (fs w) Hfree) as (fs1 & Hmk & Hdirs & Hframe).
  assert (Hsrc : file_path ∉ prefixes (parent dest)).
  { intros Hin. unfold free_way in Hfree. rewrite forallb_forall in Hfree.
    apply list_elem_of_In, Hfree in Hin. unfold is_file in Hin.
    rewrite Hfile in Hin. discriminate. }
  assert (Hdst : dest ∉ prefixes (parent dest)).
  { intros Hin. apply elem_of_prefixes in Hin as [_ [l2 Hl2]].
    apply (f_equal length) in Hl2. rewrite length_app in Hl2. lia. }
  exists fs1. split; [exact Hdirs |]. split; [exact Hframe |].
  split; [exact Hdst |]. split; [exact Hsrc |].
  assert (Hneed : need_dir fs1 (parent dest) = None).
  { apply need_dir_of_dir, Hdirs, elem_of_prefixes.
    split; [| exists []; rewrite app_nil_r; reflexivity].
    rewrite Hparent. intros H. apply app_eq_nil in H as [_ H]. discriminate. }
  unfold archive_source_file, try_except, mbind, M_bind, bind, get, lift.
  unfold st_mtime at 1. rewrite Hfile, Htime.
  rewrite (archive_path_at_destination cfg file_time file_path Hname).
  fold dest. unfold on_disk. rewrite Hmk. cbn [fs set_fs].
  rewrite (rename_ok file_path dest (File mtime content) fs1);
    [reflexivity | | exact Hneed | exact Hdest_ne |].
  - rewrite Hframe by exact Hsrc. exact Hfile.
  - rewrite Hframe by exact Hdst. exact Hdest.
Qed.

(** X4.  [process_file] ([src/pipeline.py], l.282-322) from end to end,
    when nothing fails: a slot is free, the path is not in flight, the
    wait reports the file stable, the file parses to a frame with rows
    that [filter_data] accepts, the temporary folder exists, the store
    accepts the upload and nothing is in the way of the archive path.
    The clock is read twice, by [save_temp_file] and then by
    [upload_to_minio]: [stamp_time] and [upload_time] are the local
    times of the two readings, [file_time] that of the modification
    time, each with the offset in force at its instant.
    Then the run returns; the source file is at its archive path with its
    time and content; the staged file is gone; the bucket holds the
    printed filtered frame under the key of the day of the second
    reading and the name stamped with the first, and that upload is
    the only request sent; the start and the success are logged; the flag
    of accumulated logs is set; the in-flight set and the semaphore are
    as before. *)
Theorem process_file_success (cfg : Config) (env : Env) (file_path : Path) (w : World)
    (trace : list Stability.Read) (mtime : Z) (content : Content)
    (df filtered_df : RowFilter.DataFrame) (stamp_time upload_time file_time : DateTime) :
  let staged_name :=
    ("filtered_" +:+ stem file_path +:+ "_" +:+ strftime_stamp stamp_time +:+ ".csv")%string in
  let staged := temp_folder cfg ++ [staged_name] in
  let key := s3_key_at cfg upload_time staged in
  let dest := archive_destination cfg file_time (name file_path) in
  (0 < semaphore w)%nat ->
  file_path ∉ processing_files w ->
  Stability.wait_for_file_stable (observed env file_path) 30 = Some (Ok true, trace) ->
  fs w !! file_path = Some (File mtime content) ->
  parse_csv env content = Ok df ->
  RowFilter.empty df = false ->
  RowFilter.filter_data (filter_conditions cfg) df = Ok filtered_df ->
  local_time env (clock w) = Ok stamp_time ->
  local_time env (clock_after env (clock w)) = Ok upload_time ->
  local_time env mtime = Ok file_time ->
  parts staged_name = [staged_name] ->
  parts (name file_path) = [name file_path] ->
  fs w !! temp_folder cfg = Some Dir ->
  fs w !! staged = None ->
  s3_reply env (UploadFile staged (bucket_name cfg) key) = Ok tt ->
  free_way (fs w) (parent dest) = true ->
  fs w !! dest <> Some Dir ->
  staged ∉ prefixes (parent dest) ->
  staged <> dest ->
  file_path <> dest ->
  exists w',
    process_file cfg env file_path w = Some (w', Ok tt)
    /\ fs w' !! file_path = None
    /\ fs w' !! dest = Some (File mtime content)
    /\ fs w' !! staged = None
    /\ objects w' = <[key := Bytes (print_csv env filtered_df)]> (objects w)
    /\ requests w' = requests w ++ [UploadFile staged (bucket_name cfg) key]
    /\ console w' = console w ++ [(INFO, MsgStart (name file_path)); (INFO, MsgProcessed key)]
    /\ logs_accumulated w' = true
    /\ processing_files w' = processing_files w
    /\ semaphore w' = semaphore w.
Proof.
  intros staged_name staged key dest Hsem Hnew Hwait Hfile Hparse Hempty Hfilter
    Hstamp Hnow Htime Hstaged_name Hname Htemp Hfree_staged Hreply Hfree Hdest Hnot_anc
    Hsd Hpd.
  assert (Hps : file_path <> staged) by (intros Heq; rewrite Heq in Hfile; congruence).
  set (printed := print_csv env filtered_df).
  set (w1 := started file_path (entered file_path w)).
  set (fs2 := <[staged := File (clock w) printed]> (fs w)).
  set (w2 := set_fs fs2 (set_clock (clock_after env (clock w)) w1)).
  assert (Hsave : save_temp_file cfg env filtered_df file_path w1 = Some (w2, Ok staged)).
  { unfold save_temp_file, mbind, M_bind, bind, on_disk, now, get. unfold w2, w1.
    cbn [fs started entered set_logs set_processing_files set_semaphore clock].
    rewrite (mkdir_existing _ _ Htemp).
    simpl (clock _). simpl (fs _). unfold set_clock. simpl (clock _). rewrite Hstamp.
    unfold temp_file_at, path_div. fold staged_name. rewrite Hstaged_name. fold staged.
    rewrite write_file_ok; [reflexivity | | | congruence].
    - unfold staged, parent. rewrite removelast_last. apply need_dir_of_dir, Htemp.
    - unfold staged. destruct (temp_folder cfg); discriminate. }
  set (request := UploadFile staged (bucket_name cfg) key).
  set (w3 := set_store (<[key := Bytes printed]> (objects w)) (requests w ++ [request])
               (set_clock (clock_after env (clock_after env (clock w))) w2)).
  assert (Hupload : upload_to_minio cfg env staged file_path w2 = Some (w3, Ok key)).
  { unfold upload_to_minio, try_except, mbind, M_bind, bind, now, upload_file.
    unfold w3, w2, w1. simpl (clock _). rewrite Hnow. fold key.
    unfold read_file. simpl (fs _). unfold fs2 at 1. rewrite lookup_insert_eq.
    fold request. fold request in Hreply. rewrite Hreply. reflexivity. }
  assert (Hfree2 : free_way fs2 (parent dest) = true).
  { rewrite <- Hfree. apply free_way_ext. intros q Hq. unfold fs2.
    apply lookup_insert_ne. intros <-. contradiction. }
  destruct (archive_source_file_run cfg env w3 file_path mtime content file_time)
    as (fs3 & Hdirs & Hframe & Hdst & Hsrc & Harchive); [| exact Htime | exact Hname | | |].
  { unfold w3, w2. cbn [fs set_store set_fs set_clock]. unfold fs2.
    rewrite lookup_insert_ne by congruence. exact Hfile. }
  { unfold w3, w2. cbn [fs set_store set_fs set_clock]. exact Hfree2. }
  { unfold w3, w2. cbn [fs set_store set_fs set_clock]. unfold fs2. fold dest.
    rewrite lookup_insert_ne by congruence. exact Hdest. }
  fold dest in Hdirs, Hframe, Hdst, Hsrc, Harchive.
  unfold w3 at 1, w2 at 1 in Hframe. cbn [fs set_store set_fs set_clock] in Hframe.
  set (fs4 := <[dest := File mtime content]> (delete file_path fs3)) in *.
  assert (Hstaged4 : fs4 !! staged = Some (File (clock w) printed)).
  { unfold fs4. rewrite lookup_insert_ne by congruence.
    rewrite lookup_delete_ne by congruence. rewrite Hframe by exact Hnot_anc.
    unfold fs2. apply lookup_insert_eq. }
  assert (Hsteps : steps cfg env file_path (entered file_path w)
            = Some (set_flush_state (last_log_upload_time w) true
                      (set_logs (log_file w1 ++ [(INFO, MsgProcessed key)])
                                (console w1 ++ [(INFO, MsgProcessed key)])
                         (set_fs (delete staged fs4) w3)), Ok tt)).
  { rewrite (steps_stable cfg env file_path (entered file_path w) trace content df Hwait).
    2:{ unfold read_file. cbn [fs entered set_processing_files set_semaphore].
        rewrite Hfile. reflexivity. }
    2:{ exact Hparse. }
    rewrite Hempty. unfold mbind at 1, M_bind at 1, bind at 1, lift. rewrite Hfilter.
    unfold mbind at 1, M_bind at 1, bind at 1. fold w1. rewrite Hsave.
    unfold mbind at 1, M_bind at 1, bind at 1. rewrite Hupload.
    unfold mbind at 1, M_bind at 1, bind at 1. rewrite Harchive.
    unfold mbind at 1, M_bind at 1, bind at 1, on_disk. cbn [fs set_fs set_clock].
    unfold unlink. rewrite Hstaged4. reflexivity. }
  eexists. split.
  { apply process_file_run with (r := Ok tt); [exact Hsem | exact Hnew |].
    apply try_except_Ok, Hsteps. }
  unfold w3, w2, w1.
  cbn [exited fs objects requests console logs_accumulated processing_files semaphore
       set_semaphore set_processing_files set_flush_state set_logs set_fs set_store
       set_clock started entered].
  split.
  { rewrite lookup_delete_ne by congruence. unfold fs4.
    rewrite lookup_insert_ne by congruence. apply lookup_delete_eq. }
  split.
  { rewrite lookup_delete_ne by congruence. unfold fs4. apply lookup_insert_eq. }
  split; [apply lookup_delete_eq |].
  split; [reflexivity |]. split; [reflexivity |].
  split; [rewrite <- app_assoc; reflexivity |].
  split; [reflexivity |].
  split; [apply add_remove, Hnew |].
  destruct (semaphore w); [lia | reflexivity].
Qed.

(** The statement at the sample file, with the store accepting the upload. *)
Lemma process_file_success_witness :
  let w := sample_world "name,age" ∅ in
  let env := sample_env (fun _ => Ok tt) in
  let dest := ["data"; "archive"; "2023"; "11"; "14"; "batch.csv"]%string in
  exists w',
    process_file sample_config env sample_file w = Some (w', Ok tt)
    /\ fs w' !! sample_file = None
    /\ fs w' !! dest = Some (File 1700000000 "name,age")
    /\ fs w' !! sample_staged_file = None
    /\ objects w'
       = <[sample_key := Bytes (print_csv env
             {| RowFilter.columns := ["name"; "age"]%string;
                RowFilter.rows := [ [RowFilter.Str "b"; RowFilter.Num 18];
                                    [RowFilter.Str "c"; RowFilter.Num 40] ] |})]> (objects w)
    /\ requests w' = requests w ++ [UploadFile sample_staged_file "bucketmaks" sample_key]
    /\ console w' = console w ++ [(INFO, MsgStart (name sample_file));
                                   (INFO, MsgProcessed sample_key)]
    /\ logs_accumulated w' = true
    /\ processing_files w' = processing_files w
    /\ semaphore w' = semaphore w.
Proof.
  apply (process_file_success sample_config (sample_env (fun _ => Ok tt)) sample_file
           (sample_world "name,age" ∅)
           [Stability.Poll 0 (Ok 120); Stability.Poll 500 (Ok 120);
            Stability.Recheck 2500 (Ok 120)]
           1700000000 "name,age" RowFilter.batch
           {| RowFilter.columns := ["name"; "age"]%string;
              RowFilter.rows := [ [RowFilter.Str "b"; RowFilter.Num 18];
                                  [RowFilter.Str "c"; RowFilter.Num 40] ] |}
           {| year := 2024; month := 12; day := 18;
              hour := 14; minute := 30; second := 25 |}
           {| year := 2024; month := 12; day := 18;
              hour := 14; minute := 30; second := 25 |}
           {| year := 2023; month := 11; day := 14;
              hour := 22; minute := 13; second := 20 |});
    try reflexivity.
  - simpl. lia.
  - apply not_elem_of_empty.
  - vm_compute. discriminate.
  - intros H%list_elem_of_In. vm_compute in H. intuition discriminate.
  - discriminate.
  - discriminate.
Defined.

(** X5.  [process_file] ([src/pipeline.py], l.282-286) on a path that is
    in flight, with a slot free: the run returns with the world exactly
    as it found it.  Nothing is logged, the flag of accumulated logs is
    not set, and the path stays in the set for the run that owns it. *)
Theorem duplicate_event_changes_nothing (cfg : Config) (env : Env) (file_path : Path)
    (w : World) :
  (0 < semaphore w)%nat ->
  file_path ∈ processing_files w ->
  process_file cfg env file_path w = Some (w, Ok tt).
Proof.
  intros Hsem Hin.
  unfold process_file, with_semaphore, acquire, finally, mbind, M_bind, bind, get.
  destruct w as [f o rq lf co pf [| n] t d c]; simpl in *; [lia |].
  destruct (decide (file_path ∈ pf)) as [_ | Hout]; [| contradiction].
  reflexivity.
Qed.

(** The statement at the sample file while a first run has it in
    flight. *)
Lemma duplicate_event_changes_nothing_witness :
  let w := sample_world "name,age" {[sample_file]} in
  process_file sample_config (sample_env (fun _ => Ok tt)) sample_file w = Some (w, Ok tt).
Proof.
  apply (duplicate_event_changes_nothing sample_config (sample_env (fun _ => Ok tt))
           sample_file (sample_world "name,age" {[sample_file]})).
  - simpl. lia.
  - cbn [processing_files sample_world]. apply elem_of_singleton. reflexivity.
Defined.

(** A regular file in the way makes [mkdir_parents] raise, and what was
    on the disk stays. *)
Lemma mkdir_parents_blocked (p : Path) (fs : FS) :
  free_way fs p = false ->
  exists fs' e,
    mkdir_parents p fs = (fs', Raise e)
    /\ forall q node, fs !! q = Some node -> fs' !! q = Some node.
Proof.
  intros Hblocked.
  pose proof (fun q node => mkdir_from_preserves p [] fs q node) as Hkeep.
  destruct (mkdir_parents p fs) as [fs' [[] | e]] eqn:Hmk.
  - apply mkdir_parents_Ok_free in Hmk. congruence.
  - unfold mkdir_parents in Hmk. rewrite Hmk in Hkeep. exists fs', e. split; [reflexivity |].
    exact Hkeep.
Qed.

(** X6.  [process_file] ([src/pipeline.py], l.282-322) when everything
    succeeds but the archiving, because a regular file is in the way of
    the archive directory.  [archive_source_file] (l.388-402) logs the
    error and returns, and the workflow goes on as after a success: the
    run returns, the staged file is deleted, the bucket holds the
    filtered frame, and the success record follows the error record.
    The source file is still at its path in the input folder, with its
    time and content.  [stamp_time] and [upload_time] are the local
    times of the two readings of the clock, by [save_temp_file] and by
    [upload_to_minio]; [file_time] is that of the modification time. *)
Theorem failed_archive_is_reported_as_success (cfg : Config) (env : Env)
    (file_path : Path) (w : World)
    (trace : list Stability.Read) (mtime : Z) (content : Content)
    (df filtered_df : RowFilter.DataFrame) (stamp_time upload_time file_time : DateTime) :
  let staged_name :=
    ("filtered_" +:+ stem file_path +:+ "_" +:+ strftime_stamp stamp_time +:+ ".csv")%string in
  let staged := temp_folder cfg ++ [staged_name] in
  let key := s3_key_at cfg upload_time staged in
  let dest := archive_path_at cfg file_time file_path in
  (0 < semaphore w)%nat ->
  file_path ∉ processing_files w ->
  Stability.wait_for_file_stable (observed env file_path) 30 = Some (Ok true, trace) ->
  fs w !! file_path = Some (File mtime content) ->
  parse_csv env content = Ok df ->
  RowFilter.empty df = false ->
  RowFilter.filter_data (filter_conditions cfg) df = Ok filtered_df ->
  local_time env (clock w) = Ok stamp_time ->
  local_time env (clock_after env (clock w)) = Ok upload_time ->
  local_time env mtime = Ok file_time ->
  parts staged_name = [staged_name] ->
  fs w !! temp_folder cfg = Some Dir ->
  fs w !! staged = None ->
  s3_reply env (UploadFile staged (bucket_name cfg) key) = Ok tt ->
  free_way (fs w) (parent dest) = false ->
  exists w' e,
    process_file cfg env file_path w = Some (w', Ok tt)
    /\ fs w' !! file_path = Some (File mtime content)
    /\ fs w' !! staged = None
    /\ objects w' = <[key := Bytes (print_csv env filtered_df)]> (objects w)
    /\ requests w' = requests w ++ [UploadFile staged (bucket_name cfg) key]
    /\ console w' = console w ++ [(INFO, MsgStart (name file_path));
                                   (ERROR, MsgArchiveError e);
                                   (INFO, MsgProcessed key)]
    /\ logs_accumulated w' = true
    /\ processing_files w' = processing_files w
    /\ semaphore w' = semaphore w.
Proof.
  intros staged_name staged key dest Hsem Hnew Hwait Hfile Hparse Hempty Hfilter
    Hstamp Hnow Htime Hstaged_name Htemp Hfree_staged Hreply Hblocked.
  assert (Hps : file_path <> staged) by (intros Heq; rewrite Heq in Hfile; congruence).
  set (printed := print_csv env filtered_df).
  set (w1 := started file_path (entered file_path w)).
  set (fs2 := <[staged := File (clock w) printed]> (fs w)).
  set (w2 := set_fs fs2 (set_clock (clock_after env (clock w)) w1)).
  assert (Hsave : save_temp_file cfg env filtered_df file_path w1 = Some (w2, Ok staged)).
  { unfold save_temp_file, mbind, M_bind, bind, on_disk, now, get. unfold w2, w1.
    cbn [fs started entered set_logs set_processing_files set_semaphore clock].
    rewrite (mkdir_existing _ _ Htemp).
    simpl (clock _). simpl (fs _). unfold set_clock. simpl (clock _). rewrite Hstamp.
    unfold temp_file_at, path_div. fold staged_name. rewrite Hstaged_name. fold staged.
    rewrite write_file_ok; [reflexivity | | | congruence].
    - unfold staged, parent. rewrite removelast_last. apply need_dir_of_dir, Htemp.
    - unfold staged. destruct (temp_folder cfg); discriminate. }
  set (request := UploadFile staged (bucket_name cfg) key).
  set (w3 := set_store (<[key := Bytes printed]> (objects w)) (requests w ++ [request])
               (set_clock (clock_after env (clock_after env (clock w))) w2)).
  assert (Hupload : upload_to_minio cfg env staged file_path w2 = Some (w3, Ok key)).
  { unfold upload_to_minio, try_except, mbind, M_bind, bind, now, upload_file.
    unfold w3, w2, w1. simpl (clock _). rewrite Hnow. fold key.
    unfold read_file. simpl (fs _). unfold fs2 at 1. rewrite lookup_insert_eq.
    fold request. fold request in Hreply. rewrite Hreply. reflexivity. }
  assert (Hblocked2 : free_way fs2 (parent dest) = false).
  { destruct (free_way fs2 (parent dest)) eqn:H2; [| reflexivity].
    assert (H1 : free_way (fs w) (parent dest) = true); [| congruence].
    unfold free_way in *. rewrite forallb_forall in *. intros q Hq.
    specialize (H2 q Hq). unfold is_file in *.
    destruct (decide (q = staged)) as [-> | Hne]; [rewrite Hfree_staged; reflexivity |].
    unfold fs2 in H2. rewrite lookup_insert_ne in H2 by congruence. exact H2. }
  destruct (mkdir_parents_blocked (parent dest) fs2 Hblocked2) as (fs3 & e & Hmk & Hkeep).
  assert (Hfile2 : fs2 !! file_path = Some (File mtime content)).
  { unfold fs2. rewrite lookup_insert_ne by congruence. exact Hfile. }
  set (w4 := set_logs (log_file w3 ++ [(ERROR, MsgArchiveError e)])
                      (console w3 ++ [(ERROR, MsgArchiveError e)]) (set_fs fs3 w3)).
  assert (Harchive : archive_source_file cfg env file_path w3 = Some (w4, Ok tt)).
  { unfold archive_source_file, try_except, mbind, M_bind, bind, get, lift, on_disk.
    unfold st_mtime at 1. unfold w3 at 1 2, w2 at 1 2. cbn [fs set_store set_fs set_clock].
    rewrite Hfile2, Htime. fold dest. rewrite Hmk. reflexivity. }
  assert (Hstaged3 : fs3 !! staged = Some (File (clock w) printed)).
  { apply Hkeep. unfold fs2. apply lookup_insert_eq. }
  assert (Hsteps : steps cfg env file_path (entered file_path w)
            = Some (set_flush_state (last_log_upload_time w) true
                      (set_logs (log_file w4 ++ [(INFO, MsgProcessed key)])
                                (console w4 ++ [(INFO, MsgProcessed key)])
                         (set_fs (delete staged fs3) w4)), Ok tt)).
  { rewrite (steps_stable cfg env file_path (entered file_path w) trace content df Hwait).
    2:{ unfold read_file. cbn [fs entered set_processing_files set_semaphore].
        rewrite Hfile. reflexivity. }
    2:{ exact Hparse. }
    rewrite Hempty. unfold mbind at 1, M_bind at 1, bind at 1, lift. rewrite Hfilter.
    unfold mbind at 1, M_bind at 1, bind at 1. fold w1. rewrite Hsave.
    unfold mbind at 1, M_bind at 1, bind at 1. rewrite Hupload.
    unfold mbind at 1, M_bind at 1, bind at 1. rewrite Harchive.
    unfold mbind at 1, M_bind at 1, bind at 1, on_disk.
    unfold w4 at 1. cbn [fs set_fs set_logs set_clock].
    unfold unlink. rewrite Hstaged3. reflexivity. }
  eexists _, e. split.
  { apply process_file_run with (r := Ok tt); [exact Hsem | exact Hnew |].
    apply try_except_Ok, Hsteps. }
  unfold w4, w3, w2, w1.
  cbn [exited fs objects requests console logs_accumulated processing_files semaphore
       set_semaphore set_processing_files set_flush_state set_logs set_fs set_store
       set_clock started entered].
  split.
  { rewrite lookup_delete_ne by congruence. apply Hkeep, Hfile2. }
  split; [apply lookup_delete_eq |].
  split; [reflexivity |]. split; [reflexivity |].
  split; [rewrite <- !app_assoc; reflexivity |].
  split; [reflexivity |].
  split; [apply add_remove, Hnew |].
  destruct (semaphore w); [lia | reflexivity].
Qed.

(** The archive folder of the defaults taken by a regular file. *)
Definition blocked_world : World :=
  set_fs (<[ ["data"; "archive"]%string := File 1700000000 "not a folder" ]>
            (fs (sample_world "name,age" ∅)))
         (sample_world "name,age" ∅).

(** The statement at the sample file in that world. *)
Lemma failed_archive_is_reported_as_success_witness :
  let env := sample_env (fun _ => Ok tt) in
  exists w' e,
    process_file sample_config env sample_file blocked_world = Some (w', Ok tt)
    /\ fs w' !! sample_file = Some (File 1700000000 "name,age")
    /\ fs w' !! sample_staged_file = None
    /\ objects w'
       = <[sample_key := Bytes (print_csv env
             {| RowFilter.columns := ["name"; "age"]%string;
                RowFilter.rows := [ [RowFilter.Str "b"; RowFilter.Num 18];
                                    [RowFilter.Str "c"; RowFilter.Num 40] ] |})]>
           (objects blocked_world)
    /\ requests w'
       = requests blocked_world ++ [UploadFile sample_staged_file "bucketmaks" sample_key]
    /\ console w' = console blocked_world
                    ++ [(INFO, MsgStart (name sample_file));
                        (ERROR, MsgArchiveError e);
                        (INFO, MsgProcessed sample_key)]
    /\ logs_accumulated w' = true
    /\ processing_files w' = processing_files blocked_world
    /\ semaphore w' = semaphore blocked_world.
Proof.
  apply (failed_archive_is_reported_as_success sample_config (sample_env (fun _ => Ok tt))
           sample_file blocked_world
           [Stability.Poll 0 (Ok 120); Stability.Poll 500 (Ok 120);
            Stability.Recheck 2500 (Ok 120)]
           1700000000 "name,age" RowFilter.batch
           {| RowFilter.columns := ["name"; "age"]%string;
              RowFilter.rows := [ [RowFilter.Str "b"; RowFilter.Num 18];
                                  [RowFilter.Str "c"; RowFilter.Num 40] ] |}
           {| year := 2024; month := 12; day := 18;
              hour := 14; minute := 30; second := 25 |}
           {| year := 2024; month := 12; day := 18;
              hour := 14; minute := 30; second := 25 |}
           {| year := 2023; month := 11; day := 14;
              hour := 22; minute := 13; second := 20 |});
    try reflexivity.
  - simpl. lia.
  - apply not_elem_of_empty.
Defined.

End WorkflowRuns.

(* ===================================================================== *)
(** ** The log between start and shutdown *)
(* ===================================================================== *)

Module LogEvents.
Import Local Workflow LogFlush.

(** What happens to the log between start and shutdown: a logger call
    of some coroutine, the assignment [self.logs_accumulated = True] of a
    workflow, or an iteration of [background_log_checker] that wakes when
    the clock reads [t] and calls [check_and_upload_logs].  An iteration
    is one event: no other coroutine logs while its upload is awaited.
    ([check_and_upload_logs] never raises, see [check_and_upload_logs_run],
    so the handler of the checker's loop has nothing to catch.) *)
Inductive Event : Type :=
| Logged (level : Level) (msg : Message)
| Marked
| Tick (t : Z).

(** The event, and whether it was a tick that flushed. *)
Definition apply_event (cfg : Config) (env : Env) (ev : Event) : M World bool :=
  match ev with
  | Logged level msg => emit level msg;; mret false
  | Marked => mark_logs_accumulated;; mret false
  | Tick t => modify (set_clock t);; check_and_upload_logs cfg env
  end.

(** The events in order; the result is the list of the times of the
    ticks that flushed, oldest first. *)
Fixpoint run_events (cfg : Config) (env : Env) (evs : list Event) : M World (list Z) :=
  match evs with
  | [] => mret []
  | ev :: rest =>
      flushed ← apply_event cfg env ev;
      later ← run_events cfg env rest;
      mret (match ev, flushed with
            | Tick t, true => t :: later
            | _, _ => later
            end)
  end.

(** Each time of [ts] is at least one upload interval after the one
    before it, the first after [prev]. *)
Fixpoint spaced (prev : Z) (ts : list Z) : Prop :=
  match ts with
  | [] => True
  | t :: rest => prev + log_upload_interval <= t /\ spaced t rest
  end.

(** The records of the bodies of the accepted [put_object] requests. *)
Definition delivered (env : Env) (rq : list Request) : list LogRecord :=
  flat_map (fun r => match r, s3_reply env r with
                     | PutObject _ _ (LogText records), Ok _ => records
                     | _, _ => []
                     end) rq.

Definition puts (rq : list Request) : nat :=
  length (List.filter (fun r => match r with PutObject _ _ _ => true | _ => false end) rq).

(** Every record printed so far is in the log file, or was delivered, or
    is the record that confirms an upload. *)
Definition accounted (env : Env) (w : World) : Prop :=
  forall rec, rec ∈ console w ->
    rec ∈ log_file w \/ rec ∈ delivered env (requests w)
    \/ rec = (INFO, MsgLogUploaded log_s3_key).

(** One call of [check_and_upload_logs]. *)
Lemma check_and_upload_logs_run (cfg : Config) (env : Env) (w : World) :
  exists w' flushed,
    check_and_upload_logs cfg env w = Some (w', Ok flushed)
    /\ flushed = due (clock w) w
    /\ (flushed = false -> w' = w)
    /\ (flushed = true ->
          last_log_upload_time w' = clock w
          /\ puts (requests w') = S (puts (requests w)))
    /\ (accounted env w -> accounted env w')
    /\ clock w' = clock w.
Proof.
  unfold check_and_upload_logs, mbind, M_bind, bind, get.
  destruct (due (clock w) w) eqn:Hdue.
  2:{ exists w, false. repeat split; try reflexivity; try discriminate. auto. }
  unfold emit, modify. rewrite upload_log_file_run. cbv zeta.
  cbn [requests objects log_file console set_logs bucket_name].
  set (w1 := set_logs (log_file w ++ [(INFO, MsgFlushing)])
                      (console w ++ [(INFO, MsgFlushing)]) w).
  set (request := PutObject (bucket_name cfg) log_s3_key
                    (LogText (log_file w ++ [(INFO, MsgFlushing)]))).
  destruct (s3_reply env request) as [[] | e] eqn:Hreply.
  - eexists _, true. split; [reflexivity |]. split; [reflexivity |].
    split; [discriminate |]. split.
    + intros _. split; [reflexivity |]. simpl. unfold puts.
      rewrite List.filter_app, length_app. simpl. lia.
    + split; [| reflexivity]. intros Hacc rec Hrec. simpl in Hrec |- *.
      unfold delivered. rewrite flat_map_app. simpl. fold request. rewrite Hreply.
      rewrite app_nil_r.
      apply elem_of_app in Hrec as [Hrec | Hrec].
      * apply elem_of_app in Hrec as [Hrec | Hrec].
        -- destruct (Hacc rec Hrec) as [H | [H | H]].
           ++ right. left. apply elem_of_app. right. apply elem_of_app. left. exact H.
           ++ right. left. apply elem_of_app. left. exact H.
           ++ right. right. exact H.
        -- right. left. apply elem_of_app. right. apply elem_of_app. right. exact Hrec.
      * apply list_elem_of_singleton in Hrec. right. right. exact Hrec.
  - eexists _, true. split; [reflexivity |]. split; [reflexivity |].
    split; [discriminate |]. split.
    + intros _. split; [reflexivity |]. simpl. unfold puts.
      rewrite List.filter_app, length_app. simpl. lia.
    + split; [| reflexivity]. intros Hacc rec Hrec. simpl in Hrec |- *.
      unfold delivered. rewrite flat_map_app. simpl. fold request. rewrite Hreply.
      rewrite app_nil_r.
      apply elem_of_app in Hrec as [Hrec | Hrec].
      * apply elem_of_app in Hrec as [Hrec | Hrec].
        -- destruct (Hacc rec Hrec) as [H | [H | H]].
           ++ left. apply elem_of_app. left. apply elem_of_app. left. exact H.
           ++ right. left. exact H.
           ++ right. right. exact H.
        -- left. apply elem_of_app. left. apply elem_of_app. right. exact Hrec.
      * left. apply elem_of_app. right. exact Hrec.
Qed.

(** A run of events returns; this is what it leaves. *)
Lemma run_events_run (cfg : Config) (env : Env) (evs : list Event) (w : World) :
  exists w' flushes,
    run_events cfg env evs w = Some (w', Ok flushes)
    /\ spaced (last_log_upload_time w) flushes
    /\ puts (requests w') = (puts (requests w) + length flushes)%nat
    /\ (accounted env w -> accounted env w').
Proof.
  revert w. induction evs as [| ev rest IH]; intros w.
  - exists w, []. simpl. repeat split; auto.
  - cbn [run_events]. unfold mbind, M_bind, bind.
    destruct ev as [level msg | | t]; cbn [apply_event].
    + unfold mbind, M_bind, bind, emit, modify. cbn [mret M_ret ret].
      set (w1 := set_logs _ _ w).
      destruct (IH w1) as (w' & flushes & -> & Hsp & Hputs & Hacc).
      exists w', flushes. split; [reflexivity |]. split; [exact Hsp |].
      split; [exact Hputs |].
      intros H. apply Hacc. intros rec Hrec. unfold w1 in *. simpl in *.
      apply elem_of_app in Hrec as [Hrec | Hrec].
      * destruct (H rec Hrec) as [H1 | H1]; [left; apply elem_of_app; left; exact H1 |].
        right. exact H1.
      * left. apply elem_of_app. right. exact Hrec.
    + unfold mbind, M_bind, bind, mark_logs_accumulated, modify. cbn [mret M_ret ret].
      set (w1 := set_flush_state _ _ w).
      destruct (IH w1) as (w' & flushes & -> & Hsp & Hputs & Hacc).
      exists w', flushes. split; [reflexivity |]. split; [exact Hsp |].
      split; [exact Hputs |]. exact Hacc.
    + unfold mbind, M_bind, bind, modify.
      destruct (check_and_upload_logs_run cfg env (set_clock t w))
        as (w1 & flushed & -> & Hfl & Hidle & Hflush & Hacc1 & _).
      destruct (IH w1) as (w' & flushes & -> & Hsp & Hputs & Hacc).
      cbn [mret M_ret ret].
      destruct flushed.
      * destruct (Hflush eq_refl) as [Hl Hp]. cbn [clock set_clock] in Hl.
        exists w', (t :: flushes). split; [reflexivity |].
        symmetry in Hfl. unfold due in Hfl. apply andb_true_iff in Hfl as [Hfl _].
        apply Z.leb_le in Hfl. cbn [clock set_clock last_log_upload_time] in Hfl.
        rewrite Hl in Hsp. split; [split; [lia | exact Hsp] |].
        split; [rewrite Hputs, Hp; cbn [requests set_clock length]; lia |].
        intros H. apply Hacc, Hacc1. exact H.
      * rewrite (Hidle eq_refl) in *. exists w', flushes. split; [reflexivity |].
        split; [exact Hsp |]. split; [exact Hputs |].
        intros H. apply Hacc. exact H.
Qed.


(** X8.  [upload_log_file] ([src/pipeline.py], l.75-101) under
    [check_and_upload_logs] (l.107-122) loses no record but its own
    confirmation.  When every record on the console is in the log file
    at the start, then after any sequence of logger calls, marks and
    wake-ups every record on the console is in the log file, or in the
    body of a [put_object] that the store accepted, or is the record that
    confirms an upload (written after the body was sent, and dropped by
    the truncation that follows).  A refused upload loses nothing: the
    file is not truncated. *)
Theorem no_log_record_is_lost (cfg : Config) (env : Env) (evs : list Event) (w : World) :
  (forall rec, rec ∈ console w -> rec ∈ log_file w) ->
  exists w' flushes,
    run_events cfg env evs w = Some (w', Ok flushes)
    /\ forall rec, rec ∈ console w' ->
         rec ∈ log_file w'
         \/ rec ∈ delivered env (requests w')
         \/ rec = (INFO, MsgLogUploaded log_s3_key).
Proof.
  intros Hinit.
  destruct (run_events_run cfg env evs w) as (w' & flushes & H & _ & _ & Hacc).
  exists w', flushes. split; [exact H |]. apply Hacc.
  intros rec Hrec. left. apply Hinit, Hrec.
Qed.

(** A day of the pipeline in four events: a workflow logs and marks, the
    checker wakes too early, then in time, then once more. *)
Definition sample_events : list Event :=
  [Logged INFO (MsgStart "batch.csv"); Marked; Tick 1734532050; Tick 1734532060;
   Logged ERROR (MsgError (OtherError "late")); Tick 1734532070].

Example sample_events_flush_once :
  match run_events sample_config (sample_env (fun _ => Ok tt)) sample_events
          (sample_world "name,age" ∅) with
  | Some (w', Ok flushes) =>
      flushes = [1734532060]
      /\ objects w' !! log_s3_key
         = Some (LogText [(INFO, MsgStart "batch.csv"); (INFO, MsgFlushing)])
      /\ log_file w' = [(ERROR, MsgError (OtherError "late"))]
      /\ logs_accumulated w' = false
  | _ => False
  end.
Proof. vm_compute. repeat split; reflexivity. Qed.

(** The statement at [sample_events], from a world with empty logs. *)
Lemma no_log_record_is_lost_witness :
  let env := sample_env (fun _ => Ok tt) in
  exists w' flushes,
    run_events sample_config env sample_events (sample_world "name,age" ∅)
    = Some (w', Ok flushes)
    /\ forall rec, rec ∈ console w' ->
         rec ∈ log_file w'
         \/ rec ∈ delivered env (requests w')
         \/ rec = (INFO, MsgLogUploaded log_s3_key).
Proof.
  apply (no_log_record_is_lost sample_config (sample_env (fun _ => Ok tt)) sample_events
           (sample_world "name,age" ∅)).
  intros rec Hrec. exact Hrec.
Defined.

End LogEvents.

(* ===================================================================== *)
(** ** Start and shutdown ([run]) *)
(* ===================================================================== *)

Module Startup.
Import Local Disk Workflow.

(** The keys of [self.config] that [run] and the methods it calls read,
    beside those of the per-file workflow. *)
Record Settings : Type := {
  workflow : Config;
  bucket_versioning : option string;
  input_folder : Path;
  log_file_path : Path
}.

Definition versioning_config (st : Settings) : Versioning.Config :=
  {| Versioning.bucket_name := bucket_name (workflow st);
     Versioning.bucket_versioning := bucket_versioning st |}.

(** A call of the synchronous client [self.minio_client]. *)
Inductive ClientCall : Type :=
| ListBuckets
| HeadBucket (bucket : string)
| CreateBucket (bucket : string)
| PutBucketVersioning (call : Versioning.VersioningCall).

(** The records of the logger calls of [run], [check_minio_connection]
    and [ensure_bucket_exists], by call site. *)
Inductive Notice : Type :=
| NoteRule                               (* run, l.196 and l.199 *)
| NoteStarting                           (* l.197 *)
| NoteLogsEveryMinute                    (* l.198 *)
| NoteConnected                          (* check_minio_connection, l.170 *)
| NoteNotConnected (e : exn)             (* l.176 *)
| NoteBucketExists (bucket : string)     (* ensure_bucket_exists, l.183 *)
| NoteBucketCreated (bucket : string)    (* l.188 *)
| NoteBucketNotCreated (e : exn)         (* l.191 *)
| NoteFinalLogs                          (* run, l.219 *)
| NoteFinished                           (* l.222 *)
| NoteVersioning (record : Message).     (* enable_bucket_versioning *)

(** The pipeline during [run]: the state of the workflows, the calls
    made through the synchronous client (oldest first) and the records
    of the call sites above as the logger receives them, oldest first.
    (The log file and the console of [World] hold the records of the
    workflows and of the flushes; no statement below depends on what the
    log file holds.) *)
Record Session : Type := {
  world : World;
  calls : list ClientCall;
  journal : list (Level * Notice)
}.

Definition note (level : Level) (n : Notice) : M Session unit :=
  modify (fun s => {| world := world s; calls := calls s;
                      journal := journal s ++ [(level, n)] |}).

(** A call through the client: recorded and answered by [reply]. *)
Definition client (reply : ClientCall -> result unit) (call : ClientCall) : M Session unit :=
  fun s => Some ({| world := world s; calls := calls s ++ [call]; journal := journal s |},
                 reply call).

(** A method of the workflows, run on the world of the session. *)
Definition in_world {A : Type} (m : M World A) : M Session A :=
  fun s =>
    match m (world s) with
    | None => None
    | Some (w', r) =>
        Some ({| world := w'; calls := calls s; journal := journal s |}, r)
    end.

(** [self.enable_bucket_versioning()] on the session. *)
Definition enable_bucket_versioning (st : Settings) (reply : ClientCall -> result unit)
  : M Session bool :=
  fun s =>
    let run := Versioning.enable_bucket_versioning (versioning_config st)
                 (fun call => reply (PutBucketVersioning call)) in
    Some ({| world := world s;
             calls := calls s ++ map PutBucketVersioning (Versioning.calls run);
             journal := journal s
                        ++ map (fun r => (r.1, NoteVersioning r.2)) (Versioning.logged run) |},
          Versioning.returned run).

Definition check_minio_connection (st : Settings) (reply : ClientCall -> result unit)
  : M Session bool :=
  try_except
    (client reply ListBuckets;;
     note INFO NoteConnected;;
     enable_bucket_versioning st reply;;
     mret true)
    (fun e =>
       note ERROR (NoteNotConnected e);;
       mret false).

Definition ensure_bucket_exists (reply : ClientCall -> result unit) (bucket_name : string)
  : M Session bool :=
  try_except
    (client reply (HeadBucket bucket_name);;
     note INFO (NoteBucketExists bucket_name);;
     mret true)
    (fun _ =>
       try_except
         (client reply (CreateBucket bucket_name);;
          note INFO (NoteBucketCreated bucket_name);;
          mret true)
         (fun e =>
            note ERROR (NoteBucketNotCreated e);;
            mret false)).

(** The folders of [create_folders], in its order. *)
Definition folders (st : Settings) : list Path :=
  [input_folder st; temp_folder (workflow st); archive_folder (workflow st);
   parent (log_file_path st)].

(** The loop of [create_folders]: [Path(folder).mkdir(parents=True,
    exist_ok=True)] for each folder; the first failure ends it.  (The
    [debug] records of the loop are below the level of the logger.) *)
Fixpoint make_folders (fds : list Path) : M World unit :=
  match fds with
  | [] => mret tt
  | folder :: rest => on_disk (mkdir_parents folder);; make_folders rest
  end.

Definition create_folders (st : Settings) : M World unit := make_folders (folders st).

(** [run].  [watching] is [monitor_folder] together with what runs while
    it is awaited: the workflows it starts and the background checker. *)
Definition run (st : Settings) (env : Env) (reply : ClientCall -> result unit)
    (watching : M Session unit) : M Session unit :=
  note INFO NoteRule;;
  note INFO NoteStarting;;
  note INFO NoteLogsEveryMinute;;
  note INFO NoteRule;;
  connected ← check_minio_connection st reply;
  if negb connected then mret tt else
  bucket_ready ← ensure_bucket_exists reply (bucket_name (workflow st));
  if negb bucket_ready then mret tt else
  finally
    (in_world (create_folders st);;
     watching)
    (s ← get;
     (if logs_accumulated (world s) then
        note INFO NoteFinalLogs;;
        in_world (LogFlush.upload_log_file (workflow st) env);;
        mret tt
      else mret tt);;
     note INFO NoteFinished).

(** Whether the two checks of [run] pass with a client that answers
    [reply]. *)
Definition versioning_raises (st : Settings) (reply : ClientCall -> result unit) : bool :=
  match Versioning.returned
          (Versioning.enable_bucket_versioning (versioning_config st)
             (fun call => reply (PutBucketVersioning call))) with
  | Raise _ => true
  | Ok _ => false
  end.

Definition answers (reply : ClientCall -> result unit) (call : ClientCall) : bool :=
  match reply call with Ok _ => true | Raise _ => false end.

Definition ready (st : Settings) (reply : ClientCall -> result unit) : bool :=
  answers reply ListBuckets
  && negb (versioning_raises st reply)
  && (answers reply (HeadBucket (bucket_name (workflow st)))
      || answers reply (CreateBucket (bucket_name (workflow st)))).

(** [check_minio_connection] never raises: it returns whether
    [list_buckets] answered and the versioning call did not raise, and
    leaves the world alone. *)
Lemma check_minio_connection_run (st : Settings) (reply : ClientCall -> result unit)
    (s : Session) :
  exists s',
    check_minio_connection st reply s
    = Some (s', Ok (answers reply ListBuckets && negb (versioning_raises st reply)))
    /\ world s' = world s
    /\ (answers reply ListBuckets = false -> calls s' = calls s ++ [ListBuckets]).
Proof.
  unfold check_minio_connection, try_except, mbind, M_bind, bind, client, note, modify,
    enable_bucket_versioning, answers, versioning_raises.
  destruct (reply ListBuckets) as [[] | e]; cbn [andb negb].
  - cbn [world calls journal].
    destruct (Versioning.returned _) as [b | e]; cbn [negb];
      eexists; (split; [reflexivity |]); split; try reflexivity; discriminate.
  - eexists. split; [reflexivity |]. split; reflexivity.
Qed.

(** [ensure_bucket_exists] never raises: it returns whether the bucket
    answered or could be created, creates only when [head_bucket] failed,
    and leaves the world alone. *)
Lemma ensure_bucket_exists_run (reply : ClientCall -> result unit) (bucket : string)
    (s : Session) :
  exists s',
    ensure_bucket_exists reply bucket s
    = Some (s', Ok (answers reply (HeadBucket bucket)
                    || answers reply (CreateBucket bucket)))
    /\ world s' = world s
    /\ calls s' = calls s ++ HeadBucket bucket
                    :: (if answers reply (HeadBucket bucket) then []
                        else [CreateBucket bucket]).
Proof.
  unfold ensure_bucket_exists, try_except, mbind, M_bind, bind, client, note, modify, answers.
  destruct (reply (HeadBucket bucket)) as [[] | e]; cbn [orb].
  - eexists. split; [reflexivity |]. split; reflexivity.
  - cbn [world calls journal].
    destruct (reply (CreateBucket bucket)) as [[] | e'];
      eexists; (split; [reflexivity |]); split; try reflexivity;
      cbn [calls]; rewrite <- app_assoc; reflexivity.
Qed.

(** The session after the four opening records of [run]. *)
Definition opened (s : Session) : Session :=
  {| world := world s; calls := calls s;
     journal := journal s ++ [(INFO, NoteRule); (INFO, NoteStarting);
                              (INFO, NoteLogsEveryMinute); (INFO, NoteRule)] |}.

Lemma run_unfold (st : Settings) (env : Env) (reply : ClientCall -> result unit)
    (watching : M Session unit) (s : Session) :
  run st env reply watching s
  = (connected ← check_minio_connection st reply;
     if negb connected then mret tt else
     bucket_ready ← ensure_bucket_exists reply (bucket_name (workflow st));
     if negb bucket_ready then mret tt else
     finally
       (in_world (create_folders st);;
        watching)
       (s ← get;
        (if logs_accumulated (world s) then
           note INFO NoteFinalLogs;;
           in_world (LogFlush.upload_log_file (workflow st) env);;
           mret tt
         else mret tt);;
        note INFO NoteFinished)) (opened s).
Proof.
  unfold run, opened, mbind at 1 2 3 4, M_bind at 1 2 3 4, bind at 1 2 3 4, note, modify.
  cbn [world calls journal]. rewrite <- !app_assoc. reflexivity.
Qed.

(** What [create_folders] leaves, for any list of folders. *)
Lemma make_folders_run (fds : list Path) (w : World) :
  exists w' r,
    make_folders fds w = Some (w', r)
    /\ w' = set_fs (fs w') w
    /\ (forall q node, fs w !! q = Some node -> fs w' !! q = Some node)
    /\ (r = Ok tt ->
        forall folder, folder ∈ fds -> forall q, q ∈ prefixes folder -> fs w' !! q = Some Dir)
    /\ (r = Ok tt <-> forall folder, folder ∈ fds -> free_way (fs w) folder = true).
Proof.
  revert w. induction fds as [| folder rest IH]; intros w.
  - exists w, (Ok tt). simpl. split; [reflexivity |]. split; [destruct w; reflexivity |].
    split; [auto |]. split; [intros _ f Hf; inversion Hf |].
    split; [intros _ f Hf; inversion Hf | reflexivity].
  - cbn [make_folders]. unfold mbind at 1, M_bind at 1, bind at 1, on_disk.
    pose proof (fun q node => mkdir_from_preserves folder [] (fs w) q node) as Hkeep.
    destruct (mkdir_parents folder (fs w)) as [f [[] | e]] eqn:Hmk.
    + unfold mkdir_parents in Hmk. rewrite Hmk in Hkeep. cbn [fst] in Hkeep.
      destruct (IH (set_fs f w)) as (w' & r & Hrun & Hrest & Hkeep' & Hdirs & Hiff).
      cbn [fs set_fs] in *.
      pose proof (mkdir_parents_Ok_free folder (fs w) f Hmk) as Hfree.
      pose proof (mkdir_parents_free_way folder) as Hway.
      unfold mkdir_parents in Hway at 1.
      exists w', r. split; [exact Hrun |].
      split; [rewrite Hrest at 1; reflexivity |].
      split; [intros q node Hq; apply Hkeep', Hkeep, Hq |].
      split.
      * intros Hr folder' Hin q Hq. apply elem_of_cons in Hin as [-> | Hin].
        -- apply Hkeep'. apply (mkdir_parents_Ok_dirs folder (fs w) f Hmk q Hq).
        -- apply (Hdirs Hr folder' Hin q Hq).
      * rewrite Hiff. split.
        -- intros Hall folder' Hin. apply elem_of_cons in Hin as [-> | Hin]; [exact Hfree |].
           specialize (Hall folder' Hin). specialize (Hway folder' (fs w) Hfree).
           rewrite Hmk in Hway. cbn [fst] in Hway. rewrite <- Hway. exact Hall.
        -- intros Hall folder' Hin. specialize (Hway folder' (fs w) Hfree).
           rewrite Hmk in Hway. cbn [fst] in Hway. rewrite Hway.
           apply Hall. right. exact Hin.
    + unfold mkdir_parents in Hmk. rewrite Hmk in Hkeep. cbn [fst] in Hkeep.
      exists (set_fs f w), (Raise e). split; [reflexivity |].
      split; [reflexivity |]. split; [exact Hkeep |].
      split; [discriminate |]. split; [discriminate |].
      intros Hall.
      destruct (mkdir_parents_ok folder (fs w) (Hall folder ltac:(left)))
        as (f' & Hok & _). unfold mkdir_parents in Hok. congruence.
Qed.

(** When the directories are there, [create_folders] changes nothing. *)
Lemma make_folders_noop (fds : list Path) (w : World) :
  (forall folder, folder ∈ fds -> forall q, q ∈ prefixes folder -> fs w !! q = Some Dir) ->
  make_folders fds w = Some (w, Ok tt).
Proof.
  induction fds as [| folder rest IH]; intros Hdirs; [reflexivity |].
  cbn [make_folders]. unfold mbind at 1, M_bind at 1, bind at 1, on_disk.
  rewrite (mkdir_parents_noop folder (fs w)) by (apply Hdirs; left).
  replace (set_fs (fs w) w) with w by (destruct w; reflexivity).
  apply IH. intros folder' Hin. apply Hdirs. right. exact Hin.
Qed.

(** X9.  [create_folders] ([src/pipeline.py], l.235-246) returns or raises,
    and touches only the disk, where it adds directories and changes no
    entry.  It succeeds exactly when no regular file sits at one of the
    four folders or at an ancestor of one; then the four folders are
    directories, and a second call changes nothing. *)
Theorem create_folders_makes_directories (st : Settings) (w : World) :
  exists w' r,
    create_folders st w = Some (w', r)
    /\ w' = set_fs (fs w') w
    /\ (forall q node, fs w !! q = Some node -> fs w' !! q = Some node)
    /\ (r = Ok tt <-> forall folder, folder ∈ folders st -> free_way (fs w) folder = true)
    /\ (r = Ok tt ->
        (forall folder, folder ∈ folders st -> is_dir (fs w') folder = true)
        /\ create_folders st w' = Some (w', Ok tt)).
Proof.
  unfold create_folders.
  destruct (make_folders_run (folders st) w) as (w' & r & Hrun & Hrest & Hkeep & Hdirs & Hiff).
  exists w', r. split; [exact Hrun |]. split; [exact Hrest |]. split; [exact Hkeep |].
  split; [exact Hiff |]. intros Hr. split.
  - intros folder Hin. apply is_dir_of_prefixes, (Hdirs Hr folder Hin).
  - apply make_folders_noop, (Hdirs Hr).
Qed.

(** X10.  [run] ([src/pipeline.py], l.194-222) with a store that is not
    ready: [list_buckets] fails, or the versioning call raises something
    other than a [ClientError], or the bucket neither answers nor can be
    created.  Then [run] returns without raising and without starting the
    watcher (the result is the same whatever the watcher would do): no
    folder is created, no request is sent through the asynchronous
    client, and when [list_buckets] failed it is the only call made. *)
Theorem run_stops_before_watching (st : Settings) (env : Env)
    (reply : ClientCall -> result unit) (s : Session) :
  ready st reply = false ->
  exists s',
    (forall watching, run st env reply watching s = Some (s', Ok tt))
    /\ fs (world s') = fs (world s)
    /\ objects (world s') = objects (world s)
    /\ requests (world s') = requests (world s)
    /\ (answers reply ListBuckets = false -> calls s' = calls s ++ [ListBuckets]).
Proof.
  intros Hready. unfold ready in Hready.
  destruct (check_minio_connection_run st reply (opened s)) as (s1 & Hcheck & Hw1 & Hc1).
  destruct (ensure_bucket_exists_run reply (bucket_name (workflow st)) s1)
    as (s2 & Hensure & Hw2 & Hc2).
  destruct (answers reply ListBuckets && negb (versioning_raises st reply)) eqn:Hconn.
  - cbn [andb] in Hready. exists s2. split.
    + intros watching. rewrite run_unfold. unfold mbind at 1, M_bind at 1, bind at 1.
      rewrite Hcheck. cbn [negb]. unfold mbind at 1, M_bind at 1, bind at 1.
      rewrite Hensure, Hready. reflexivity.
    + rewrite Hw2, Hw1. repeat (split; [reflexivity |]).
      intros Hl. rewrite Hl in Hconn. discriminate.
  - exists s1. split.
    + intros watching. rewrite run_unfold. unfold mbind at 1, M_bind at 1, bind at 1.
      rewrite Hcheck. reflexivity.
    + rewrite Hw1. repeat (split; [reflexivity |]).
      intros Hl. apply Hc1, Hl.
Qed.

(** [upload_log_file] returns a flag from every world, and touches
    neither the disk nor the flag of accumulated logs. *)
Lemma upload_log_file_returns (cfg : Config) (env : Env) (w : World) :
  exists w' uploaded body,
    LogFlush.upload_log_file cfg env w = Some (w', Ok uploaded)
    /\ fs w' = fs w
    /\ requests w' = requests w ++ [PutObject (bucket_name cfg) LogFlush.log_s3_key body].
Proof.
  rewrite LogFlush.upload_log_file_run. cbv zeta.
  destruct (s3_reply env _); eexists _, _, _; (split; [reflexivity |]);
    split; reflexivity.
Qed.

(** X11.  [run] ([src/pipeline.py], l.194-222) with a store that is ready
    and a configured versioning status, if any, of ASCII characters (the
    domain of [PyStr.strip] and [PyStr.title]).
    The folders are created and the watcher runs; however that ends, by
    returning or by raising, the [finally] clause runs and [run] ends the
    same way.  The clause sends the log file once when the flag of
    accumulated logs is set and sends nothing otherwise, changes no
    entry of the disk other than the log file (which the logger and
    [upload_log_file] write, and which is the [log_file] of the world,
    not an entry of [fs]), and its last record is the one that announces
    the end. *)
Theorem run_flushes_at_shutdown (st : Settings) (env : Env)
    (reply : ClientCall -> result unit) (watching : M Session unit) (s : Session) :
  PyStr.is_ascii (default EmptyString (bucket_versioning st)) = true ->
  ready st reply = true ->
  exists s1,
    world s1 = world s
    /\ forall s2 r,
         (in_world (create_folders st);; watching) s1 = Some (s2, r) ->
         exists s3,
           run st env reply watching s = Some (s3, r)
           /\ (forall q, q <> log_file_path st ->
                 fs (world s3) !! q = fs (world s2) !! q)
           /\ (logs_accumulated (world s2) = false ->
               requests (world s3) = requests (world s2))
           /\ (logs_accumulated (world s2) = true ->
               exists body,
                 requests (world s3)
                 = requests (world s2)
                   ++ [PutObject (bucket_name (workflow st)) LogFlush.log_s3_key body])
           /\ exists before, journal s3 = before ++ [(INFO, NoteFinished)].
Proof.
  intros _ Hready. unfold ready in Hready.
  apply andb_true_iff in Hready as [Hconn Hbucket].
  destruct (check_minio_connection_run st reply (opened s)) as (s0 & Hcheck & Hw0 & _).
  destruct (ensure_bucket_exists_run reply (bucket_name (workflow st)) s0)
    as (s1 & Hensure & Hw1 & _).
  exists s1. split; [rewrite Hw1, Hw0; reflexivity |].
  intros s2 r Hbody. rewrite run_unfold.
  unfold mbind at 1, M_bind at 1, bind at 1. rewrite Hcheck, Hconn. cbn [negb].
  unfold mbind at 1, M_bind at 1, bind at 1. rewrite Hensure, Hbucket. cbn [negb].
  unfold finally. rewrite Hbody.
  unfold mbind, M_bind, bind, get, note, modify, in_world. cbn [world calls journal].
  destruct (logs_accumulated (world s2)) eqn:Hdirty.
  - cbn [world calls journal].
    destruct (upload_log_file_returns (workflow st) env (world s2))
      as (w3 & b & body & Hup & Hfs & Hrq).
    rewrite Hup. cbn [mret M_ret ret world calls journal].
    eexists. split; [destruct r as [[] | e]; reflexivity |]. cbn [world journal].
    split; [intros q _; rewrite Hfs; reflexivity |].
    split; [discriminate |]. split; [intros _; eauto |]. eauto.
  - cbn [mret M_ret ret world calls journal].
    eexists. split; [destruct r as [[] | e]; reflexivity |]. cbn [world journal].
    split; [reflexivity |]. split; [reflexivity |]. split; [discriminate |]. eauto.
Qed.

(** The settings of [config.py] with its defaults, below a base
    directory ["."]. *)
Definition sample_settings : Settings :=
  {| workflow := sample_config;
     bucket_versioning := Some "Enabled"%string;
     input_folder := ["data"; "input"]%string;
     log_file_path := ["logs"; "minio_pipeline.log"]%string |}.

Definition sample_session : Session :=
  {| world := sample_world "name,age" ∅; calls := []; journal := [] |}.

(** A store that cannot be reached, and one that answers every call. *)
Definition unreachable (call : ClientCall) : result unit :=
  Raise (OtherError "connection refused").

Definition reachable_store (call : ClientCall) : result unit := Ok tt.

(** The watcher of a session in which nothing arrives and that is
    stopped by an interrupt. *)
Definition interrupted : M Session unit := raise (OtherError "interrupted").

(** The statement with the store that cannot be reached. *)
Lemma run_stops_before_watching_witness :
  exists s',
    (forall watching,
       run sample_settings (sample_env (fun _ => Ok tt)) unreachable watching sample_session
       = Some (s', Ok tt))
    /\ fs (world s') = fs (world sample_session)
    /\ objects (world s') = objects (world sample_session)
    /\ requests (world s') = requests (world sample_session)
    /\ (answers unreachable ListBuckets = false ->
        calls s' = calls sample_session ++ [ListBuckets]).
Proof.
  apply (run_stops_before_watching sample_settings (sample_env (fun _ => Ok tt))
           unreachable sample_session).
  reflexivity.
Defined.

(** The statement with the store that answers and the interrupted
    watcher. *)
Lemma run_flushes_at_shutdown_witness :
  let env := sample_env (fun _ => Ok tt) in
  exists s1,
    world s1 = world sample_session
    /\ forall s2 r,
         (in_world (create_folders sample_settings);; interrupted) s1 = Some (s2, r) ->
         exists s3,
           run sample_settings env reachable_store interrupted sample_session = Some (s3, r)
           /\ (forall q, q <> log_file_path sample_settings ->
                 fs (world s3) !! q = fs (world s2) !! q)
           /\ (logs_accumulated (world s2) = false ->
               requests (world s3) = requests (world s2))
           /\ (logs_accumulated (world s2) = true ->
               exists body,
                 requests (world s3)
                 = requests (world s2)
                   ++ [PutObject (bucket_name (workflow sample_settings))
                         LogFlush.log_s3_key body])
           /\ exists before, journal s3 = before ++ [(INFO, NoteFinished)].
Proof.
  apply (run_flushes_at_shutdown sample_settings (sample_env (fun _ => Ok tt))
           reachable_store interrupted sample_session).
  - reflexivity.
  - reflexivity.
Defined.

(** The sample session with a reachable store and an interrupted
    watcher: the folders are created, the interrupt is raised again after
    the [finally] clause, and nothing is sent as no workflow ran. *)
Example run_sample :
  match run sample_settings (sample_env (fun _ => Ok tt)) reachable_store interrupted
          sample_session with
  | Some (s', r) =>
      r = Raise (OtherError "interrupted")
      /\ is_dir (fs (world s')) ["data"; "input"]%string = true
      /\ is_dir (fs (world s')) ["logs"]%string = true
      /\ requests (world s') = []
      /\ calls s' = [ListBuckets;
                     PutBucketVersioning {| Versioning.call_bucket := "bucketmaks";
                                            Versioning.call_status := "Enabled" |};
                     HeadBucket "bucketmaks"]
      /\ List.last (journal s') (INFO, NoteRule) = (INFO, NoteFinished)
  | None => False
  end.
Proof. vm_compute. repeat split; reflexivity. Qed.

End Startup.

(* ===================================================================== *)
(** ** The watcher ([monitor_folder], [handle_changes]) *)
(* ===================================================================== *)

Module Watch.
Import Local Workflow InFlight.

(** [watchfiles.Change] *)
Inductive Change : Type := added | modified | deleted.

(** [p.suffix]: the name from its last "." on, unless that is its first
    or its last character (the counterpart of [stem]). *)
Definition suffix (p : Path) : string :=
  let n := name p in
  match rfind_dot n 0 with
  | Some i =>
      if ((0 <? i) && (i <? String.length n - 1))%nat
      then String.substring i (String.length n - i) n else EmptyString
  | None => EmptyString
  end.

(** [str.lower] *)
Fixpoint lower (s : string) : string :=
  match s with
  | EmptyString => EmptyString
  | String c r => String (PyStr.lower c) (lower r)
  end.

(** The [watch_filter] of [monitor_folder]; the change is not looked
    at. *)
Definition csv_filter (fs : FS) (change : Change) (path : Path) : bool :=
  let file_path := path in
  if is_dir fs file_path then false
  else String.eqb (lower (suffix file_path)) ".csv".

Example csv_filter_upper :
  csv_filter ∅ added ["data"; "input"; "Batch.CSV"]%string = true.
Proof. reflexivity. Qed.

Example csv_filter_hidden :
  csv_filter ∅ added ["data"; "input"; ".csv"]%string = false.
Proof. reflexivity. Qed.

Example csv_filter_backup :
  csv_filter ∅ added ["data"; "input"; "batch.csv.bak"]%string = false.
Proof. reflexivity. Qed.

Fixpoint no_dot (s : string) : bool :=
  match s with
  | EmptyString => true
  | String c r => negb (Ascii.eqb c ".") && no_dot r
  end.

Lemma string_cons_app (x : ascii) (a b : string) :
  String x a +:+ b = String x (a +:+ b).
Proof. reflexivity. Qed.

Lemma rfind_dot_none (s : string) (k : nat) :
  no_dot s = true -> rfind_dot s k = None.
Proof.
  revert k. induction s as [| c r IH]; intros k H; [reflexivity |].
  simpl in H. apply andb_true_iff in H as [Hc Hr]. apply negb_true_iff in Hc.
  simpl. rewrite (IH _ Hr), Hc. reflexivity.
Qed.

(** The last "." of [s ++ "." ++ r] when [r] has none. *)
Lemma rfind_dot_app (s r : string) (k : nat) :
  no_dot r = true ->
  rfind_dot (s +:+ String "." r) k = Some (k + String.length s)%nat.
Proof.
  intros Hr. revert k. induction s as [| c s IH]; intros k.
  - change (EmptyString +:+ String "." r) with (String "."%char r).
    simpl. rewrite (rfind_dot_none _ _ Hr). f_equal. lia.
  - rewrite string_cons_app. simpl. rewrite IH. f_equal. lia.
Qed.

Lemma rfind_dot_bounds (s : string) (k i : nat) :
  rfind_dot s k = Some i -> (k <= i < k + String.length s)%nat.
Proof.
  revert k. induction s as [| c r IH]; intros k H; [discriminate |].
  simpl in H. destruct (rfind_dot r (S k)) as [j |] eqn:Hj.
  - injection H as <-. apply IH in Hj. simpl. lia.
  - destruct (Ascii.eqb c "."); [| discriminate]. injection H as <-. simpl. lia.
Qed.

Lemma substring_split (s : string) (i : nat) :
  (i <= String.length s)%nat ->
  s = String.substring 0 i s +:+ String.substring i (String.length s - i) s.
Proof.
  revert i. induction s as [| c r IH]; intros i Hi.
  - simpl in Hi. assert (i = 0%nat) as -> by lia. reflexivity.
  - destruct i as [| i].
    + change (String.substring 0 0 (String c r)) with EmptyString.
      change (EmptyString +:+ ?x) with x. simpl.
      clear. f_equal. induction r as [| d r IH]; [reflexivity |].
      simpl. f_equal. exact IH.
    + simpl. rewrite string_cons_app. f_equal. apply IH. simpl in Hi. lia.
Qed.

Lemma substring_prefix_length (s : string) (i : nat) :
  (i <= String.length s)%nat -> String.length (String.substring 0 i s) = i.
Proof.
  revert i. induction s as [| c r IH]; intros i Hi.
  - simpl in Hi. assert (i = 0%nat) as -> by lia. reflexivity.
  - destruct i as [| i]; [reflexivity |]. simpl. rewrite IH; [reflexivity |].
    simpl in Hi. lia.
Qed.

Lemma substring_app_l (a b : string) :
  String.substring 0 (String.length a) (a +:+ b) = a.
Proof.
  induction a as [| c a IH].
  - change (EmptyString +:+ b) with b. destruct b; reflexivity.
  - rewrite string_cons_app. simpl. rewrite IH. reflexivity.
Qed.

Lemma substring_all (b : string) : String.substring 0 (String.length b) b = b.
Proof. induction b as [| c b IH]; [reflexivity |]. simpl. rewrite IH. reflexivity. Qed.

Lemma substring_app_r (a b : string) :
  String.substring (String.length a) (String.length b) (a +:+ b) = b.
Proof.
  induction a as [| c a IH].
  - change (EmptyString +:+ b) with b. apply substring_all.
  - rewrite string_cons_app. simpl. exact IH.
Qed.

Lemma string_length_app (a b : string) :
  String.length (a +:+ b) = (String.length a + String.length b)%nat.
Proof.
  induction a as [| c a IH]; [reflexivity |]. rewrite string_cons_app. simpl.
  rewrite IH. reflexivity.
Qed.

(** Only "." is lower-cased to ".", and a character that is lower-cased
    to a letter is not ".". *)
Lemma lower_dot (c : ascii) : PyStr.lower c = "."%char -> c = "."%char.
Proof. destruct c as [[] [] [] [] [] [] [] []]; vm_compute; congruence. Qed.

Lemma lower_csv (e : string) :
  lower e = ".csv"%string ->
  exists r, e = String "." r /\ no_dot r = true /\ String.length r = 3%nat.
Proof.
  destruct e as [| d [| c1 [| c2 [| c3 [| c4 r]]]]]; try discriminate.
  intros H. simpl in H. injection H as Hd H1 H2 H3.
  apply lower_dot in Hd. subst d. exists (String c1 (String c2 (String c3 EmptyString))).
  split; [reflexivity |]. split; [| reflexivity].
  simpl. rewrite andb_true_r.
  assert (Hne : forall c x, PyStr.lower c = x -> x <> "."%char -> Ascii.eqb c "." = false).
  { intros c x Hc Hx. apply Ascii.eqb_neq. intros ->. apply Hx. rewrite <- Hc. reflexivity. }
  rewrite (Hne c1 _ H1), (Hne c2 _ H2), (Hne c3 _ H3) by discriminate. reflexivity.
Qed.

(** The stem and the suffix of a name [s ++ "." ++ r], [s] and [r] not
    empty and no "." in [r]. *)
Lemma stem_suffix_app (p : Path) (s r : string) :
  name p = s +:+ String "." r ->
  s <> EmptyString ->
  r <> EmptyString ->
  no_dot r = true ->
  stem p = s /\ suffix p = String "." r.
Proof.
  intros Hname Hs Hr Hdot. unfold stem, suffix. rewrite Hname.
  rewrite (rfind_dot_app s r 0 Hdot), string_length_app. cbn [Nat.add String.length].
  assert (Hps : (0 < String.length s)%nat) by (destruct s; [congruence | simpl; lia]).
  assert (Hpr : (0 < String.length r)%nat) by (destruct r; [congruence | simpl; lia]).
  assert (Hc : ((0 <? String.length s)
                && (String.length s <? String.length s + S (String.length r) - 1))%nat
               = true).
  { apply andb_true_iff. split; apply Nat.ltb_lt; lia. }
  rewrite Hc. split; [apply substring_app_l |].
  replace (String.length s + S (String.length r) - String.length s)%nat
    with (String.length (String "." r)) by (simpl; lia).
  apply substring_app_r.
Qed.

(** X12.  The filter of [monitor_folder] ([src/pipeline.py], l.252-256)
    lets a path through exactly when it is not a directory and its name
    is a non-empty stem followed by ".csv" in any mix of upper and lower
    case.  The stem is the one [save_temp_file] names the staged file
    after. *)
Theorem csv_filter_accepts (fs : FS) (change : Change) (path : Path) :
  csv_filter fs change path = true
  <-> is_dir fs path = false
      /\ exists e, name path = stem path +:+ e
                   /\ stem path <> EmptyString
                   /\ lower e = ".csv"%string.
Proof.
  unfold csv_filter.
  destruct (is_dir fs path); [split; [discriminate | intros [H _]; discriminate] |].
  rewrite String.eqb_eq. split.
  - intros H. split; [reflexivity |]. revert H. unfold suffix, stem.
    set (n := name path).
    destruct (rfind_dot n 0) as [i |] eqn:Hi; [| discriminate].
    destruct ((0 <? i) && (i <? String.length n - 1))%nat eqn:Hc; [| discriminate].
    apply andb_true_iff in Hc as [H0 H1]. apply Nat.ltb_lt in H0, H1. intros H.
    exists (String.substring i (String.length n - i) n).
    split; [apply substring_split; lia |]. split; [| exact H].
    intros He. apply (f_equal String.length) in He.
    rewrite substring_prefix_length in He by lia. simpl in He. lia.
  - intros (_ & e & Hname & Hstem & He).
    destruct (lower_csv e He) as (r & -> & Hr & Hlen).
    destruct (stem_suffix_app path (stem path) r Hname Hstem) as [_ ->];
      [destruct r; [discriminate | discriminate] | exact Hr | exact He].
Qed.

(** [asyncio.create_task(self.process_file(file_path))]: a new task,
    which has not run yet. *)
Definition create_task (file_path : Path) (s : System) : System :=
  {| world := world s; tasks := tasks s ++ [at_phase file_path Waiting] |}.

(** [handle_changes], on the system and the names its [info] records
    announce (oldest first); [changes] in the order of the iteration. *)
Fixpoint handle_changes (changes : list (Change * Path)) (s : System) (found : list string)
  : System * list string :=
  match changes with
  | [] => (s, found)
  | (change_type, file_path) :: rest =>
      match change_type with
      | added =>
          handle_changes rest (create_task file_path s) (found ++ [name file_path])
      | _ => handle_changes rest s found
      end
  end.

(** The paths of the changes of type [added], in order. *)
Definition added_paths (changes : list (Change * Path)) : list Path :=
  omap (fun c => match c.1 with added => Some c.2 | _ => None end) changes.

Lemma handle_changes_run (changes : list (Change * Path)) (s : System)
    (found : list string) :
  handle_changes changes s found
  = ({| world := world s;
        tasks := tasks s ++ map (fun p => at_phase p Waiting) (added_paths changes) |},
     found ++ map name (added_paths changes))
  /\ rtc step s (handle_changes changes s found).1.
Proof.
  revert s found. induction changes as [| [[] p] rest IH]; intros s found.
  - simpl. rewrite !app_nil_r. destruct s; split; [reflexivity | apply rtc_refl].
  - cbn [handle_changes]. destruct (IH (create_task p s) (found ++ [name p])) as [-> Hsteps].
    split.
    + unfold added_paths. cbn [omap fst snd create_task world tasks map].
      rewrite <- !app_assoc. reflexivity.
    + eapply rtc_l; [| exact Hsteps]. destruct s as [w ts]. apply step_spawn.
  - cbn [handle_changes]. apply IH.
  - cbn [handle_changes]. apply IH.
Qed.

(** X13.  [handle_changes] ([src/pipeline.py], l.272-280) creates one task
    per change of type [added], in the order of the changes, whether or
    not the path is already in flight, and none for a modified or a
    deleted file; it announces the names of the same files.  It runs none
    of the tasks: the pipeline's state is untouched, and what it leaves
    is reachable when what it found was, so that the bound on the files
    in flight survives any burst of changes. *)
Theorem handle_changes_creates_tasks (cfg : Config) (changes : list (Change * Path))
    (s : System) (found : list string) :
  let paths := added_paths changes in
  let s' := (handle_changes changes s found).1 in
  world s' = world s
  /\ tasks s' = tasks s ++ map (fun p => at_phase p Waiting) paths
  /\ (handle_changes changes s found).2 = found ++ map name paths
  /\ (reachable cfg s ->
      reachable cfg s'
      /\ (size (processing_files (world s')) <= limit cfg)%nat).
Proof.
  intros paths s'. unfold s', paths.
  destruct (handle_changes_run changes s found) as [Hrun Hsteps].
  rewrite Hrun in *. cbn [fst snd world tasks] in *.
  repeat (split; [reflexivity |]).
  intros (s0 & Hinit & Hreach).
  assert (Hreach' : reachable cfg
            {| world := world s;
               tasks := tasks s ++ map (fun p => at_phase p Waiting) (added_paths changes) |}).
  { exists s0. split; [exact Hinit |]. etrans; eassumption. }
  split; [exact Hreach' |].
  destruct (invariant_reachable cfg _ Hreach') as [Hslots Hset Hnodup].
  cbn [world tasks] in *.
  rewrite Hset, size_list_to_set by exact Hnodup.
  pose proof (running_le_holders
                (tasks s ++ map (fun p => at_phase p Waiting) (added_paths changes))).
  lia.
Qed.

End Watch.

(* ===================================================================== *)
(** ** The data generator ([data_generator.py]) *)
(* ===================================================================== *)

Module Generator.
Import Local.

(** *** Python's [range], [str] and [format] *)

(** [len(range(start, stop, step))] for a [step] other than 0. *)
Definition range_length (start stop step : Z) : Z :=
  if 0 <? step then
    (if start <? stop then (stop - start - 1) / step + 1 else 0)
  else
    (if stop <? start then (start - stop - 1) / (- step) + 1 else 0).

(** [range(start, stop, step)]: a [ValueError] when [step] is 0. *)
Definition range (start stop step : Z) : result (list Z) :=
  if step =? 0 then Raise ValueError
  else Ok (map (fun k => start + Z.of_nat k * step)
               (seq 0 (Z.to_nat (range_length start stop step)))).

(** [range(n)] *)
Definition range_to (n : Z) : list Z := map Z.of_nat (seq 0 (Z.to_nat n)).

Fixpoint zeros (n : nat) : string :=
  match n with
  | O => EmptyString
  | S m => String "0" (zeros m)
  end.

(** [f"{n:03d}"]: the sign, then the digits filled with zeros to a width
    of three characters in all. *)
Definition format_03d (n : Z) : string :=
  let sign := if n <? 0 then "-"%string else EmptyString in
  let digits := str (Z.abs n) in
  sign +:+ zeros (3 - String.length sign - String.length digits) +:+ digits.

Example format_03d_7 : format_03d 7 = "007"%string.
Proof. reflexivity. Qed.

Example format_03d_1000 : format_03d 1000 = "1000"%string.
Proof. reflexivity. Qed.

Example format_03d_neg : format_03d (-5) = "-05"%string.
Proof. reflexivity. Qed.

(** *** [generate_filenames] *)

(** [strftime("%H%M%S")] *)
Definition strftime_time (t : DateTime) : string :=
  pad2 (hour t) +:+ pad2 (minute t) +:+ pad2 (second t).

(** [date_now] and [time_now] are the two readings of [datetime.now()]. *)
Definition generate_filenames (num_files : Z) (date_now time_now : DateTime) : list string :=
  let current_date := strftime_date EmptyString date_now in
  let current_time := strftime_time time_now in
  map (fun i => "data_batch_" +:+ format_03d i +:+ "_" +:+ current_date
                  +:+ "_" +:+ current_time +:+ ".csv")
      (map (fun k => 1 + Z.of_nat k) (seq 0 (Z.to_nat num_files))).

(** *** [generate_large_csv] *)

Definition newline : string := String (ascii_of_nat 10) EmptyString.

Definition columns : list string :=
  ["user_id"; "first_name"; "last_name"; "email";
   "age"; "salary"; "department"; "hire_date";
   "city"; "is_active"; "score"; "last_login";
   "transaction_amount"; "product_category"; "order_date";
   "phone_number"; "postal_code"; "company"; "job_title";
   "credit_score"; "account_balance"; "last_purchase_date"]%string.

(** What a call of the generator takes from outside.  [Values] are the
    values of the 21 columns after [user_id] of a row, and [draw seed k]
    those of the row generated [k]-th after seeding with [seed] in this
    call (they come from the seeded generators and, for the dates, from
    the day of the call).  [to_csv columns header data] is the text that
    [pd.DataFrame(data, columns=columns).to_csv(index=False,
    header=header)] prints: pandas chooses the type and the format of a
    column from all the rows of the frame, so the text of a row depends
    on the frame it is printed in.  [clock] is the time at which the
    batch that starts at a given row is written, and [instant] whether
    the two readings of the clock around the loop are equal. *)
Record Env : Type := {
  Values : Type;
  draw : Z -> Z -> Values;
  to_csv : list string -> bool -> list (Z * Values) -> string;
  clock : Z -> Z;
  instant : bool
}.

(** A row of [batch_data]: [user_id] and the other values. *)
Definition Row (env : Env) : Type := Z * Values env.

(** The inner loop [for i in range(batch_rows)]: the rows of a batch,
    and the number of rows generated so far. *)
Fixpoint batch_data (env : Env) (seed batch_num : Z) (indices : list Z) (drawn : Z)
  : list (Row env) * Z :=
  match indices with
  | [] => ([], drawn)
  | i :: rest =>
      let user_id := batch_num + i + 1 in
      let '(data, drawn') := batch_data env seed batch_num rest (drawn + 1) in
      ((user_id, draw env seed drawn) :: data, drawn')
  end.

(** [df.to_csv(p, mode='a', header=False)]: the text is added to the file,
    which is created when it is missing; a file to which nothing is added
    keeps its modification time. *)
Definition append_file (p : Path) (now : Z) (text : Content) (fs : FS) : FS * result unit :=
  match need_dir fs (parent p) with
  | Some e => (fs, Raise e)
  | None =>
      match p, fs !! p with
      | [], _ | _, Some Dir => (fs, Raise IsADirectoryError)
      | _, Some (File mtime old) =>
          (<[p := File (if String.eqb text EmptyString then mtime else now)
                       (old +:+ text)]> fs, Ok tt)
      | _, None => (<[p := File now text]> fs, Ok tt)
      end
  end.

(** The loop over the batches: each batch is a frame of its own, printed
    with the header when it is the first and added to the file without
    it otherwise. *)
Fixpoint write_batches (env : Env) (seed rows batch_size : Z) (filepath : Path)
    (batch_nums : list Z) (drawn : Z) (fs : FS) : FS * result unit :=
  match batch_nums with
  | [] => (fs, Ok tt)
  | batch_num :: rest =>
      let batch_rows := Z.min batch_size (rows - batch_num) in
      let '(data, drawn') := batch_data env seed batch_num (range_to batch_rows) drawn in
      let '(fs', r) :=
        if batch_num =? 0
        then write_file filepath (clock env batch_num) (to_csv env columns true data) fs
        else append_file filepath (clock env batch_num) (to_csv env columns false data) fs in
      match r with
      | Ok _ => write_batches env seed rows batch_size filepath rest drawn' fs'
      | Raise e => (fs', Raise e)
      end
  end.

(** [generate_large_csv(filename, rows, batch_size, seed_offset,
    output_dir)] for a [filename] that is one component of a path (for
    an absolute [filename], [os.path.join] drops [output_dir]) and an
    [output_dir] given by its components.  [np.random.seed] takes a seed
    from 0 to 2**32 - 1 only.  The lines printed to the terminal are left
    out, but not the division by the duration in the last of them. *)
Definition generate_large_csv (env : Env) (filename : string)
    (rows batch_size seed_offset : Z) (output_dir : Path) (fs : FS) : FS * result Path :=
  let seed := 42 + seed_offset in
  if (seed <? 0) || (2 ^ 32 <=? seed) then (fs, Raise ValueError) else
  match mkdir_parents output_dir fs with
  | (fs1, Raise e) => (fs1, Raise e)
  | (fs1, Ok _) =>
      let filepath := path_div output_dir filename in
      match range 0 rows batch_size with
      | Raise e => (fs1, Raise e)
      | Ok batch_nums =>
          match write_batches env seed rows batch_size filepath batch_nums 0 fs1 with
          | (fs2, Raise e) => (fs2, Raise e)
          | (fs2, Ok _) =>
              if instant env then (fs2, Raise (OtherError "ZeroDivisionError"))
              else (fs2, Ok filepath)
          end
      end
  end.

(** *** The frames of a file *)

(** The rows [first + 1] to [first + count], each with the values
    generated at its rank. *)
Fixpoint rows_from (env : Env) (seed first : Z) (count : nat) : list (Row env) :=
  match count with
  | O => []
  | S c => (first + 1, draw env seed first) :: rows_from env seed (first + 1) c
  end.

(** The rows of the [j]-th batch, counted from 0: at most [batch_size]
    rows from row [j * batch_size + 1] on. *)
Definition frame_of (env : Env) (seed rows batch_size : Z) (j : nat) : list (Row env) :=
  rows_from env seed (Z.of_nat j * batch_size)
            (Z.to_nat (Z.min batch_size (rows - Z.of_nat j * batch_size))).

Definition frames (env : Env) (seed rows batch_size : Z) : list (list (Row env)) :=
  map (frame_of env seed rows batch_size) (seq 0 (Z.to_nat ((rows - 1) / batch_size + 1))).

(** The text of frames printed without a header, one after the other. *)
Fixpoint appended (env : Env) (batches : list (list (Row env))) : string :=
  match batches with
  | [] => EmptyString
  | data :: rest => to_csv env columns false data +:+ appended env rest
  end.

(** The text of a file written frame by frame: the first frame with the
    header, the others after it without. *)
Definition printed (env : Env) (batches : list (list (Row env))) : string :=
  match batches with
  | [] => EmptyString
  | first :: rest => to_csv env columns true first +:+ appended env rest
  end.

(** *** Strings *)

Lemma plain_zeros (n : nat) : plain (zeros n) = true.
Proof. induction n as [| n IH]; simpl; [reflexivity | exact IH]. Qed.

Lemma plain_format_03d (n : Z) : plain (format_03d n) = true.
Proof.
  unfold format_03d. rewrite !plain_app, plain_zeros, plain_str.
  destruct (n <? 0); reflexivity.
Qed.

(** The number a string of digits stands for. *)
Definition value (s : string) : option Z :=
  Z.of_uint <$> DecimalString.NilEmpty.uint_of_string s.

Lemma value_str (n : Z) : 0 <= n -> value (str n) = Some n.
Proof.
  intros Hn. unfold value, str. destruct n as [| p | p]; [reflexivity | | lia].
  cbn [Z.to_int DecimalString.NilZero.string_of_int].
  pose proof (DecimalPos.Unsigned.of_to p) as Hp.
  destruct (Pos.to_uint p) as [| d | d | d | d | d | d | d | d | d | d] eqn:Hd;
    [discriminate | ..];
    unfold DecimalString.NilZero.string_of_uint; rewrite DecimalString.NilEmpty.usu; cbn [fmap option_fmap option_map];
    unfold Z.of_uint; rewrite Hp; reflexivity.
Qed.

Lemma value_zeros (k : nat) (s : string) : value (zeros k +:+ s) = value s.
Proof.
  induction k as [| k IH]; [reflexivity |].
  unfold value in *. cbn [zeros]. rewrite string_app_cons. cbn [DecimalString.NilEmpty.uint_of_string].
  destruct (DecimalString.NilEmpty.uint_of_string (zeros k +:+ s)) as [d |],
           (DecimalString.NilEmpty.uint_of_string s) as [d' |]; simpl in *;
    try change (Z.of_uint (Decimal.D0 d)) with (Z.of_uint d); congruence.
Qed.

Lemma value_format_03d (n : Z) : 0 <= n -> value (format_03d n) = Some n.
Proof.
  intros Hn. unfold format_03d.
  destruct (n <? 0) eqn:Hneg; [apply Z.ltb_lt in Hneg; lia |].
  rewrite Z.abs_eq by exact Hn. rewrite string_app_nil_l, value_zeros. apply value_str, Hn.
Qed.

(** *** The rows of a file *)

Lemma rows_from_app (env : Env) (seed first : Z) (a b : nat) :
  rows_from env seed first (a + b)
  = rows_from env seed first a ++ rows_from env seed (first + Z.of_nat a) b.
Proof.
  revert first. induction a as [| a IH]; intros first.
  - cbn [Nat.add rows_from Z.of_nat app]. rewrite Z.add_0_r. reflexivity.
  - cbn [Nat.add rows_from app]. rewrite IH.
    replace (first + 1 + Z.of_nat a) with (first + Z.of_nat (S a)) by lia. reflexivity.
Qed.

Lemma rows_from_length (env : Env) (seed first : Z) (count : nat) :
  length (rows_from env seed first count) = count.
Proof.
  revert first. induction count as [| c IH]; intros first; [reflexivity |].
  cbn [rows_from length]. rewrite IH. reflexivity.
Qed.

(** The rows from [first] on are numbered one after the other, and the
    row numbered [k + 1] has the values generated [k]-th. *)
Lemma rows_from_map (env : Env) (seed first : Z) (count : nat) :
  rows_from env seed first count
  = map (fun k => (k + 1, draw env seed k)) (map (fun i => first + Z.of_nat i) (seq 0 count)).
Proof.
  revert first. induction count as [| c IH]; intros first; [reflexivity |].
  cbn [rows_from seq map]. rewrite IH, Z.add_0_r. f_equal.
  rewrite <- seq_shift, !map_map. apply map_ext. intros i.
  replace (first + 1 + Z.of_nat i) with (first + Z.of_nat (S i)) by lia. reflexivity.
Qed.

(** The inner loop generates the rows that follow those generated so
    far, numbered from the start of the batch. *)
Lemma batch_data_run (env : Env) (seed batch_num : Z) (count start : nat) (drawn : Z) :
  drawn = batch_num + Z.of_nat start ->
  batch_data env seed batch_num (map Z.of_nat (seq start count)) drawn
  = (rows_from env seed drawn count, drawn + Z.of_nat count).
Proof.
  revert start drawn. induction count as [| count IH]; intros start drawn Hd.
  - simpl. rewrite Z.add_0_r. reflexivity.
  - cbn [seq map batch_data rows_from].
    rewrite (IH (S start) (drawn + 1)) by lia.
    replace (batch_num + Z.of_nat start + 1) with (drawn + 1) by lia.
    replace (drawn + 1 + Z.of_nat count) with (drawn + Z.of_nat (S count)) by lia.
    reflexivity.
Qed.

Lemma appended_app (env : Env) (a b : list (list (Row env))) :
  appended env (a ++ b) = appended env a +:+ appended env b.
Proof.
  induction a as [| data a IH]; [reflexivity |].
  cbn [app appended]. rewrite IH, string_app_assoc. reflexivity.
Qed.

(** One more frame added to a file that holds frames already. *)
Lemma printed_snoc (env : Env) (batches : list (list (Row env))) (data : list (Row env)) :
  batches <> [] ->
  printed env (batches ++ [data]) = printed env batches +:+ to_csv env columns false data.
Proof.
  destruct batches as [| first rest]; [congruence |]. intros _.
  cbn [app printed]. rewrite appended_app, string_app_assoc. cbn [appended].
  rewrite string_app_nil_r. reflexivity.
Qed.

Lemma parent_ne (p : Path) : p <> [] -> parent p <> p.
Proof.
  intros Hne Heq. unfold parent in Heq.
  pose proof (app_removelast_last EmptyString Hne) as Hp. rewrite Heq in Hp.
  symmetry in Hp. apply app_same_nil in Hp. discriminate.
Qed.

Lemma need_dir_insert_file (fs : FS) (p q : Path) (mtime : Z) (content : Content) :
  q <> p -> need_dir (<[p := File mtime content]> fs) q = need_dir fs q.
Proof.
  intros Hne. unfold need_dir. destruct q as [| c q]; [reflexivity |].
  rewrite lookup_insert_ne by congruence. reflexivity.
Qed.

(** The rows written before batch [j]. *)
Definition written (rows batch_size : Z) (j : nat) : Z :=
  Z.min rows (Z.of_nat j * batch_size).

(** The first [n] frames together are the first rows, in order. *)
Lemma concat_frames (env : Env) (seed rows batch_size : Z) (n : nat) :
  0 < batch_size ->
  (Z.of_nat n - 1) * batch_size < rows ->
  concat (map (frame_of env seed rows batch_size) (seq 0 n))
  = rows_from env seed 0 (Z.to_nat (written rows batch_size n)).
Proof.
  intros Hb. induction n as [| n IH]; intros Hn.
  - unfold written. change (Z.of_nat 0 * batch_size) with 0.
    destruct (Z.min_spec rows 0) as [[Hneg ->] | [_ ->]]; [| reflexivity].
    destruct rows; try reflexivity. lia.
  - rewrite seq_S, map_app, concat_app, IH by nia. cbn [Nat.add map concat].
    rewrite app_nil_r. unfold frame_of, written.
    rewrite Z.min_r by nia.
    replace (Z.min rows (Z.of_nat (S n) * batch_size))
      with (Z.of_nat n * batch_size
            + Z.min batch_size (rows - Z.of_nat n * batch_size)) by nia.
    rewrite Z2Nat.inj_add by nia. rewrite rows_from_app, Z2Nat.id by nia.
    rewrite Z.add_0_l. reflexivity.
Qed.

(** The batches from the [j]-th on, when the file holds the frames of
    the batches before. *)
Lemma write_batches_run (env : Env) (seed rows batch_size : Z) (filepath : Path)
    (m : nat) :
  0 < batch_size ->
  filepath <> [] ->
  forall (j : nat) (fs : FS),
    (Z.of_nat (j + m) - 1) * batch_size < rows ->
    (0 < j + m)%nat ->
    need_dir fs (parent filepath) = None ->
    fs !! filepath <> Some Dir ->
    ((0 < j)%nat ->
     exists mtime,
       fs !! filepath
       = Some (File mtime
                 (printed env (map (frame_of env seed rows batch_size) (seq 0 j))))) ->
    exists fs' mtime,
      write_batches env seed rows batch_size filepath
        (map (fun k => 0 + Z.of_nat k * batch_size) (seq j m))
        (written rows batch_size j) fs
      = (fs', Ok tt)
      /\ fs' !! filepath
         = Some (File mtime
                   (printed env (map (frame_of env seed rows batch_size) (seq 0 (j + m)))))
      /\ forall q, q <> filepath -> fs' !! q = fs !! q.
Proof.
  intros Hb Hne. induction m as [| m IH]; intros j fs Hrows Hpos Hparent Hdir Hfile.
  - rewrite Nat.add_0_r in *. destruct (Hfile Hpos) as [mtime Hm].
    exists fs, mtime. split; [reflexivity |]. split; [exact Hm | reflexivity].
  - cbn [seq map write_batches].
    assert (Hj : Z.of_nat j * batch_size < rows) by nia.
    assert (Hwj : written rows batch_size j = Z.of_nat j * batch_size)
      by (unfold written; lia).
    rewrite Z.add_0_l.
    set (batch_rows := Z.min batch_size (rows - Z.of_nat j * batch_size)).
    assert (Hrows_pos : 0 < batch_rows) by (unfold batch_rows; lia).
    assert (Hnext : written rows batch_size (S j)
                    = Z.of_nat j * batch_size + batch_rows)
      by (unfold written, batch_rows; lia).
    unfold range_to.
    rewrite (batch_data_run env seed _ (Z.to_nat batch_rows) 0) by lia.
    rewrite Z2Nat.id by lia. rewrite Hwj, <- Hnext.
    change (rows_from env seed (Z.of_nat j * batch_size) (Z.to_nat batch_rows))
      with (frame_of env seed rows batch_size j).
    set (data := frame_of env seed rows batch_size j).
    set (content := printed env (map (frame_of env seed rows batch_size) (seq 0 (S j)))).
    assert (Hstep : exists mtime,
              (if Z.of_nat j * batch_size =? 0
               then write_file filepath (clock env (Z.of_nat j * batch_size))
                      (to_csv env columns true data) fs
               else append_file filepath (clock env (Z.of_nat j * batch_size))
                      (to_csv env columns false data) fs)
              = (<[filepath := File mtime content]> fs, Ok tt)).
    { destruct j as [| j'].
      - exists (clock env 0). simpl (Z.of_nat 0 * batch_size =? 0).
        unfold write_file. rewrite Hparent.
        assert (Hc : to_csv env columns true data = content).
        { unfold content. cbn [seq map printed appended]. rewrite string_app_nil_r.
          reflexivity. }
        rewrite Hc. simpl (Z.of_nat 0 * batch_size).
        destruct filepath as [| c p]; [congruence |].
        destruct (fs !! (c :: p)) as [[| mt x] |]; [congruence | reflexivity | reflexivity].
      - assert (Hnz : (Z.of_nat (S j') * batch_size =? 0) = false)
          by (apply Z.eqb_neq; nia).
        rewrite Hnz. unfold append_file. rewrite Hparent.
        destruct (Hfile ltac:(lia)) as [mtime Hold].
        assert (Hc : printed env (map (frame_of env seed rows batch_size) (seq 0 (S j')))
                     +:+ to_csv env columns false data = content).
        { unfold content. rewrite (seq_S (S j')), map_app. cbn [Nat.add map].
          rewrite printed_snoc; [reflexivity |]. discriminate. }
        eexists. rewrite <- Hc.
        destruct filepath as [| c p]; [congruence |]. rewrite Hold. reflexivity. }
    destruct Hstep as [mtime Hstep]. rewrite Hstep.
    set (fs1 := <[filepath := File mtime content]> fs).
    destruct (IH (S j) fs1) as (fs' & mtime' & Hrun & Hcontent & Hframe).
    + replace (S j + m)%nat with (j + S m)%nat by lia. exact Hrows.
    + lia.
    + unfold fs1. rewrite need_dir_insert_file by (apply parent_ne, Hne). exact Hparent.
    + unfold fs1. rewrite lookup_insert_eq. discriminate.
    + intros _. exists mtime. unfold fs1. rewrite lookup_insert_eq. reflexivity.
    + exists fs', mtime'. split; [exact Hrun |].
      replace (j + S m)%nat with (S j + m)%nat by lia.
      split; [exact Hcontent |].
      intros q Hq. rewrite (Hframe q Hq). unfold fs1. apply lookup_insert_ne. congruence.
Qed.

(** X14.  [generate_large_csv] ([src/data_generator.py], l.49-149) with
    [rows] and [batch_size] positive, a seed [np.random.seed] takes, a
    file name that is one component of a path and neither "." nor "..",
    and nothing in the way on the disk.  The file holds what [to_csv]
    prints for each batch, the first batch with the header and the
    others after it without: each batch is printed as a frame of its
    own, so the text of a row may depend on the batch it falls in.  The
    [j]-th batch has [min(batch_size, rows - j * batch_size)] rows, and
    the batches together are the rows numbered 1 to [rows] in order,
    each number once, the row numbered [k + 1] with the values generated
    [k]-th.  The directories down to [output_dir] exist afterwards, no
    other entry of the disk has changed, and the path of the file is
    returned. *)
Theorem generate_large_csv_numbers_rows (env : Env) (filename : string)
    (rows batch_size seed_offset : Z) (output_dir : Path) (fs : FS) :
  0 < rows ->
  0 < batch_size ->
  0 <= 42 + seed_offset < 2 ^ 32 ->
  parts filename = [filename] ->
  filename <> "."%string ->
  filename <> ".."%string ->
  free_way fs output_dir = true ->
  fs !! (output_dir ++ [filename]) <> Some Dir ->
  instant env = false ->
  let filepath := output_dir ++ [filename] in
  let seed := 42 + seed_offset in
  let batches := frames env seed rows batch_size in
  exists fs' mtime,
    generate_large_csv env filename rows batch_size seed_offset output_dir fs
    = (fs', Ok filepath)
    /\ fs' !! filepath = Some (File mtime (printed env batches))
    /\ concat batches = map (fun k => (k + 1, draw env seed k)) (range_to rows)
    /\ (forall j data, batches !! j = Some data ->
          length data = Z.to_nat (Z.min batch_size (rows - Z.of_nat j * batch_size)))
    /\ (forall q, q ∈ prefixes output_dir -> fs' !! q = Some Dir)
    /\ (forall q, q <> filepath -> q ∉ prefixes output_dir -> fs' !! q = fs !! q).
Proof.
  intros Hrows Hb Hseed Hname _ _ Hfree Hdir Hinstant filepath seed batches.
  unfold generate_large_csv.
  assert (Hs : (42 + seed_offset <? 0) || (2 ^ 32 <=? 42 + seed_offset) = false).
  { apply orb_false_iff. split; [apply Z.ltb_ge | apply Z.leb_gt]; lia. }
  rewrite Hs.
  destruct (mkdir_parents_ok output_dir fs Hfree) as (fs1 & -> & Hdirs & Hframe).
  unfold path_div. rewrite Hname. fold filepath.
  assert (Hne : filepath <> []).
  { unfold filepath. intros H. apply app_eq_nil in H as [_ H]. discriminate. }
  assert (Hout : filepath ∉ prefixes output_dir).
  { intros Hin. apply elem_of_prefixes in Hin as [_ [l2 Hl2]].
    apply (f_equal (@length string)) in Hl2. unfold filepath in Hl2.
    rewrite !length_app in Hl2. simpl in Hl2. lia. }
  assert (Hparent : need_dir fs1 (parent filepath) = None).
  { unfold filepath, parent. rewrite removelast_last.
    destruct output_dir as [| c d] eqn:Hd; [reflexivity |].
    apply need_dir_of_dir, Hdirs, elem_of_prefixes.
    split; [discriminate | exists []; rewrite app_nil_r; reflexivity]. }
  unfold range. assert (Hnz : (batch_size =? 0) = false) by (apply Z.eqb_neq; lia).
  rewrite Hnz. unfold range_length.
  assert (Hbp : (0 <? batch_size) = true) by (apply Z.ltb_lt; lia).
  assert (Hrp : (0 <? rows) = true) by (apply Z.ltb_lt; lia).
  rewrite Hbp, Hrp. rewrite Z.sub_0_r.
  set (n := (rows - 1) / batch_size + 1).
  pose proof (Z.div_pos (rows - 1) batch_size ltac:(lia) Hb) as Hq.
  pose proof (Z.mul_div_le (rows - 1) batch_size Hb) as Hle.
  pose proof (Z.mul_succ_div_gt (rows - 1) batch_size Hb) as Hgt.
  assert (Hlast : (Z.of_nat (Z.to_nat n) - 1) * batch_size < rows).
  { rewrite Z2Nat.id by (unfold n; lia). unfold n. nia. }
  destruct (write_batches_run env seed rows batch_size filepath
              (Z.to_nat n) Hb Hne 0%nat fs1) as (fs2 & mtime & Hrun & Hcontent & Hframe2).
  - cbn [Nat.add]. exact Hlast.
  - unfold n. lia.
  - exact Hparent.
  - rewrite (Hframe _ Hout). exact Hdir.
  - lia.
  - unfold written in Hrun at 1. change (Z.of_nat 0 * batch_size) with 0 in Hrun.
    rewrite Z.min_r in Hrun by lia. fold seed. rewrite Hrun, Hinstant.
    exists fs2, mtime. split; [reflexivity |].
    cbn [Nat.add] in Hcontent.
    split; [exact Hcontent |].
    split.
    { unfold batches, frames. fold n. rewrite (concat_frames env seed rows batch_size _ Hb Hlast).
      unfold written. rewrite Z2Nat.id by (unfold n; lia).
      rewrite Z.min_l by (unfold n; nia).
      rewrite rows_from_map. unfold range_to. f_equal. }
    split.
    { intros j data Hj. unfold batches, frames in Hj.
      rewrite list_lookup_fmap in Hj.
      destruct (seq 0 (Z.to_nat ((rows - 1) / batch_size + 1)) !! j) as [j' |] eqn:Hs';
        [| discriminate].
      apply lookup_seq in Hs' as [-> _]. cbn [Nat.add] in Hj. injection Hj as <-.
      unfold frame_of. apply rows_from_length. }
    split.
    + intros q Hin. rewrite Hframe2 by (intros ->; contradiction). apply Hdirs, Hin.
    + intros q Hqf Hnin. rewrite (Hframe2 q Hqf). apply Hframe, Hnin.
Qed.

(** X15.  [generate_large_csv] ([src/data_generator.py], l.49-149) when
    [range(0, rows, batch_size)] has no element to give: [rows] is 0, or
    [rows] and [batch_size] have opposite signs, or [batch_size] is 0;
    the file name is one component of a path.
    The directories are created and that is all: no file is written.
    With [batch_size] 0 the call raises a [ValueError]; otherwise it
    returns the path of the file that was not written, [filename] below
    [output_dir], unless the two readings of the clock are equal. *)
Theorem generate_large_csv_without_batches (env : Env) (filename : string)
    (rows batch_size seed_offset : Z) (output_dir : Path) (fs : FS) :
  0 <= 42 + seed_offset < 2 ^ 32 ->
  parts filename = [filename] ->
  free_way fs output_dir = true ->
  rows * batch_size <= 0 ->
  exists fs1,
    mkdir_parents output_dir fs = (fs1, Ok tt)
    /\ (forall q, q ∉ prefixes output_dir -> fs1 !! q = fs !! q)
    /\ generate_large_csv env filename rows batch_size seed_offset output_dir fs
       = (fs1,
          if batch_size =? 0 then Raise ValueError
          else if instant env then Raise (OtherError "ZeroDivisionError")
          else Ok (output_dir ++ [filename])).
Proof.
  intros Hseed Hname Hfree Hsign. unfold generate_large_csv.
  assert (Hs : (42 + seed_offset <? 0) || (2 ^ 32 <=? 42 + seed_offset) = false).
  { apply orb_false_iff. split; [apply Z.ltb_ge | apply Z.leb_gt]; lia. }
  rewrite Hs.
  destruct (mkdir_parents_ok output_dir fs Hfree) as (fs1 & Hmk & _ & Hframe).
  exists fs1. split; [exact Hmk |]. split; [exact Hframe |]. rewrite Hmk.
  unfold path_div. rewrite Hname.
  unfold range. destruct (batch_size =? 0) eqn:Hz; [reflexivity |].
  apply Z.eqb_neq in Hz.
  assert (Hlen : range_length 0 rows batch_size = 0).
  { unfold range_length. destruct (0 <? batch_size) eqn:Hb.
    - apply Z.ltb_lt in Hb. assert (Hr : (0 <? rows) = false) by (apply Z.ltb_ge; nia).
      rewrite Hr. reflexivity.
    - apply Z.ltb_ge in Hb. assert (Hr : (rows <? 0) = false) by (apply Z.ltb_ge; nia).
      rewrite Hr. reflexivity. }
  rewrite Hlen. change (Z.to_nat 0) with 0%nat. cbn [seq map write_batches].
  destruct (instant env); reflexivity.
Qed.

(** X16.  [generate_filenames] ([src/data_generator.py], l.152-170) returns
    [num_files] names (none when the number is negative), no two of them
    equal, and each a single path component: the files of one run of the
    generator do not overwrite each other. *)
Theorem generate_filenames_distinct (num_files : Z) (date_now time_now : DateTime) :
  let names := generate_filenames num_files date_now time_now in
  length names = Z.to_nat num_files
  /\ NoDup names
  /\ forall name, name ∈ names -> parts name = [name].
Proof.
  intros names. unfold names, generate_filenames. split; [| split].
  - rewrite !length_map, length_seq. reflexivity.
  - apply NoDup_fmap_2_strong.
    + intros x y Hx Hy Heq.
      apply list_elem_of_fmap in Hx as (kx & -> & _).
      apply list_elem_of_fmap in Hy as (ky & -> & _).
      apply String.app_inj, string_app_inj_r in Heq.
      apply (f_equal value) in Heq. rewrite !value_format_03d in Heq by lia.
      congruence.
    + apply NoDup_fmap_2; [| apply NoDup_seq]. intros a b Hab. lia.
  - intros name Hin. apply list_elem_of_fmap in Hin as (i & -> & _).
    apply parts_plain.
    + unfold strftime_date, strftime_time.
      unfold year_text.
      rewrite !plain_app, plain_format_03d, !plain_pad2, plain_str. reflexivity.
    + discriminate.
Qed.

(** A printer that prints every row on its own, whatever the frame: the
    number of the row and a text for its values. *)
Fixpoint row_lines (data : list (Z * string)) : string :=
  match data with
  | [] => EmptyString
  | (user_id, values) :: rest =>
      str user_id +:+ "," +:+ values +:+ newline +:+ row_lines rest
  end.

Definition row_by_row (columns : list string) (header : bool) (data : list (Z * string))
  : string :=
  (if header then String.concat "," columns +:+ newline else EmptyString)
    +:+ row_lines data.

(** The call of the main block for its first file, on an empty disk. *)
Definition first_call : Env :=
  {| Values := string;
     draw := fun seed k => "..."%string;
     to_csv := row_by_row;
     clock := fun batch_num => 1734532225 + batch_num;
     instant := false |}.

(** The statement at that call: 10000 rows in batches of 2000. *)
Lemma generate_large_csv_numbers_rows_witness :
  let filepath := ["data"; "input"; "data_batch_001_20241218_143025.csv"]%string in
  let batches := frames first_call (42 + 10000) 10000 2000 in
  exists fs' mtime,
    generate_large_csv first_call "data_batch_001_20241218_143025.csv" 10000 2000 10000
      ["data"; "input"]%string ∅
    = (fs', Ok filepath)
    /\ fs' !! filepath = Some (File mtime (printed first_call batches))
    /\ concat batches
       = map (fun k => (k + 1, draw first_call (42 + 10000) k)) (range_to 10000)
    /\ (forall j data, batches !! j = Some data ->
          length data = Z.to_nat (Z.min 2000 (10000 - Z.of_nat j * 2000)))
    /\ (forall q, q ∈ prefixes ["data"; "input"]%string -> fs' !! q = Some Dir)
    /\ (forall q, q <> filepath -> q ∉ prefixes ["data"; "input"]%string ->
        fs' !! q = (∅ : FS) !! q).
Proof.
  apply (generate_large_csv_numbers_rows first_call "data_batch_001_20241218_143025.csv"
           10000 2000 10000 ["data"; "input"]%string ∅).
  - lia.
  - lia.
  - lia.
  - reflexivity.
  - discriminate.
  - discriminate.
  - reflexivity.
  - rewrite lookup_empty. discriminate.
  - reflexivity.
Defined.

(** The statement at a call for no rows. *)
Lemma generate_large_csv_without_batches_witness :
  exists fs1,
    mkdir_parents ["data"; "input"]%string ∅ = (fs1, Ok tt)
    /\ (forall q, q ∉ prefixes ["data"; "input"]%string -> fs1 !! q = (∅ : FS) !! q)
    /\ generate_large_csv first_call "empty.csv" 0 2000 0 ["data"; "input"]%string ∅
       = (fs1,
          if 2000 =? 0 then Raise ValueError
          else if instant first_call then Raise (OtherError "ZeroDivisionError")
          else Ok (["data"; "input"]%string ++ ["empty.csv"%string])).
Proof.
  apply (generate_large_csv_without_batches first_call "empty.csv" 0 2000 0
           ["data"; "input"]%string ∅).
  - lia.
  - reflexivity.
  - reflexivity.
  - lia.
Defined.

(** Three rows in batches of two: the second batch is appended without a
    header, and the rows are numbered through. *)
Example generate_three_rows :
  let env := {| Values := string;
                draw := fun seed k => "f" +:+ str k;
                to_csv := row_by_row;
                clock := fun b => 100 + b;
                instant := false |} in
  (generate_large_csv env "a.csv" 3 2 0 ["out"%string] ∅).1 !! ["out"; "a.csv"]%string
  = Some (File 102 (String.concat "," columns +:+ newline
                      +:+ "1,f0" +:+ newline +:+ "2,f1" +:+ newline
                      +:+ "3,f2" +:+ newline)).
Proof. vm_compute. reflexivity. Qed.

(** A printer that prints a column of times to the second when every
    time of the frame is a whole second, and to the microsecond
    otherwise, as pandas does: with the rows "1.5" and "2", one batch of
    two rows and two batches of one row give different files. *)
Definition by_frame (columns : list string) (header : bool) (data : list (Z * string))
  : string :=
  if forallb (fun r => String.eqb r.2 "2") data then row_by_row columns header data
  else row_by_row columns header (map (fun r => (r.1, r.2 +:+ "!")) data).

Example content_depends_on_batch_size :
  let env := {| Values := string;
                draw := fun seed k => if k =? 0 then "1.5"%string else "2"%string;
                to_csv := by_frame;
                clock := fun b => 100 + b;
                instant := false |} in
  (generate_large_csv env "a.csv" 2 2 0 ["out"%string] ∅).1 !! ["out"; "a.csv"]%string
  = Some (File 100 (String.concat "," columns +:+ newline
                      +:+ "1,1.5!" +:+ newline +:+ "2,2!" +:+ newline))
  /\ (generate_large_csv env "a.csv" 2 1 0 ["out"%string] ∅).1 !! ["out"; "a.csv"]%string
     = Some (File 101 (String.concat "," columns +:+ newline
                         +:+ "1,1.5!" +:+ newline +:+ "2,2" +:+ newline)).
Proof. vm_compute. split; reflexivity. Qed.

End Generator.
